(** * VITS generator for singing voice synthesis: a shallow embedding

    Source: [espnet2/gan_svs/vits/generator.py], class [VITSGenerator].

    The generator wires a score encoder, a posterior encoder, a flow, a
    duration model and a HiFiGAN decoder.  The sub-networks live in other
    files; here they are fields of the generator record, each one a
    function in a small error-and-randomness monad.  What this file itself
    computes (the length-correction loop, padding and truncation of the
    xml streams, the global-conditioning sum, the sampling formula, the
    masking and slicing before the decoder, and the path generator) is
    modelled on concrete data. *)

From Stdlib Require Import ZArith Lia.
From stdpp Require Import base tactics option list numbers functions.

Local Open Scope Z_scope.

(** ** Python exceptions and results *)

Inductive exn : Set :=
  | AssertionError
  | TypeError
  | AttributeError
  | RuntimeError
  | IndexError
  | ZeroDivisionError.

Inductive result (A : Type) : Type :=
  | Ok (a : A)
  | Raise (e : exn).
Arguments Ok {A} a.
Arguments Raise {A} e.

#[global] Instance exn_eq_dec : EqDecision exn.
Proof. solve_decision. Defined.

#[global] Instance result_ret : MRet result := @Ok.
#[global] Instance result_bind : MBind result :=
  λ A B f m, match m with Ok a => f a | Raise e => Raise e end.
#[global] Instance result_fmap : FMap result :=
  λ A B f m, match m with Ok a => Ok (f a) | Raise e => Raise e end.

Definition is_Ok {A} (r : result A) : Prop :=
  match r with Ok _ => True | Raise _ => False end.

(** ** State with exceptions

    A computation over a state [S] returns a value or raises, and in both
    cases leaves a state behind: what was written before a [raise] stays
    written, as in Python. *)

Definition ST (S A : Type) : Type := S → result A * S.

#[global] Instance ST_ret {S} : MRet (ST S) := λ A a s, (Ok a, s).
#[global] Instance ST_bind {S} : MBind (ST S) :=
  λ A B f m s,
    match m s with
    | (Ok a, s') => f a s'
    | (Raise e, s') => (Raise e, s')
    end.

Definition raise {S A} (e : exn) : ST S A := λ s, (Raise e, s).
Definition get_state {S} : ST S S := λ s, (Ok s, s).
Definition put_state {S} (s : S) : ST S unit := λ _, (Ok (), s).
Definition lift_result {S A} (r : result A) : ST S A := λ s, (r, s).

(** [for x in xs: body(x)] *)
Fixpoint for_each {S A} (xs : list A) (body : A → ST S unit) : ST S unit :=
  match xs with
  | [] => mret ()
  | x :: xs' => body x ≫= λ _, for_each xs' body
  end.

(** ** Tensors

    A tensor carries its shape, as [torch.Tensor.shape] does, next to its
    entries; the entries are nested lists in row-major order.  The shape is
    stored because an empty batch still has a width. *)

Record Tensor2 (A : Type) : Type := T2 {
  shape2 : nat * nat;
  data2 : list (list A)
}.
Arguments T2 {A} shape2 data2.
Arguments shape2 {A} t.
Arguments data2 {A} t.

Record Tensor3 (A : Type) : Type := T3 {
  shape3 : nat * nat * nat;
  data3 : list (list (list A))
}.
Arguments T3 {A} shape3 data3.
Arguments shape3 {A} t.
Arguments data3 {A} t.

Definition wf2 {A} (t : Tensor2 A) : Prop :=
  length (data2 t) = (shape2 t).1 ∧
  Forall (λ r, length r = (shape2 t).2) (data2 t).

Definition wf3 {A} (t : Tensor3 A) : Prop :=
  length (data3 t) = (shape3 t).1.1 ∧
  Forall (λ m, length m = (shape3 t).1.2 ∧
               Forall (λ r, length r = (shape3 t).2) m) (data3 t).

(** [t.shape[1]] of a 2-d tensor, [t.shape[2]] and [t.size(k)] of a 3-d one *)
Definition shape2_1 {A} (t : Tensor2 A) : nat := (shape2 t).2.
Definition size3_0 {A} (t : Tensor3 A) : nat := (shape3 t).1.1.
Definition size3_1 {A} (t : Tensor3 A) : nat := (shape3 t).1.2.
Definition size3_2 {A} (t : Tensor3 A) : nat := (shape3 t).2.

(** ** [torch.nn.functional.pad] and slicing on 2-d tensors *)

(** One row under [F.pad(input, pad=(0, k, 0, 0), mode="constant", value=v)]:
    a non-negative [k] appends [k] copies of [v], a negative [k] removes
    [-k] entries from the right. *)
Definition pad_row {A} (v : A) (k : Z) (r : list A) : list A :=
  if decide (0 ≤ k) then r ++ replicate (Z.to_nat k) v
  else take (Z.to_nat (Z.of_nat (length r) + k)) r.

(** [F.pad(input=t, pad=(0, k, 0, 0), mode="constant", value=v)]; torch
    refuses a pad that would leave a negative width. *)
Definition F_pad {A} (v : A) (t : Tensor2 A) (k : Z) : result (Tensor2 A) :=
  let w' := Z.of_nat (shape2 t).2 + k in
  if decide (w' < 0) then Raise RuntimeError
  else Ok (T2 ((shape2 t).1, Z.to_nat w') (map (pad_row v k) (data2 t))).

(** [t[:, :n]] for a non-negative [n] *)
Definition slice_cols {A} (t : Tensor2 A) (n : nat) : Tensor2 A :=
  T2 ((shape2 t).1, Nat.min n (shape2 t).2) (map (take n) (data2 t)).

(** [t[:, :, :stop]]: the stop index of a Python slice over [len] entries.
    [None] keeps everything, a negative stop counts from the right. *)
Definition slice_stop (len : nat) (stop : option Z) : nat :=
  match stop with
  | None => len
  | Some k =>
      if decide (k < 0) then Z.to_nat (Z.max 0 (Z.of_nat len + k))
      else Nat.min (Z.to_nat k) len
  end.

Definition slice_time {A} (t : Tensor3 A) (stop : option Z) : Tensor3 A :=
  let n := slice_stop (size3_2 t) stop in
  T3 (size3_0 t, size3_1 t, n) (map (map (take n)) (data3 t)).

(** ** Broadcasting

    Operands of equal rank broadcast dimension by dimension: equal sizes
    pair up, a size of one is repeated, anything else is a shape error. *)
Definition bdim (a b : nat) : result nat :=
  if decide (a = b) then Ok a
  else if decide (a = 1%nat) then Ok b
  else if decide (b = 1%nat) then Ok a
  else Raise RuntimeError.

Definition expand {A} (n : nat) (l : list A) : list A :=
  match l with
  | [x] => replicate n x
  | _ => l
  end.

Definition bzip {A B C} (f : A → B → C) (n : nat) (la : list A) (lb : list B) : list C :=
  zip_with f (expand n la) (expand n lb).

Definition broadcast3 {A} (f : A → A → A) (a b : Tensor3 A) : result (Tensor3 A) :=
  n0 ← bdim (size3_0 a) (size3_0 b);
  n1 ← bdim (size3_1 a) (size3_1 b);
  n2 ← bdim (size3_2 a) (size3_2 b);
  Ok (T3 (n0, n1, n2) (bzip (bzip (bzip f n2) n1) n0 (data3 a) (data3 b))).

Definition map3 {A B} (f : A → B) (t : Tensor3 A) : Tensor3 B :=
  T3 (shape3 t) (map (map (map f)) (data3 t)).

(** [t.unsqueeze(-1)] on a 2-d tensor and [t.unsqueeze(0)] on a 1-d one *)
Definition unsqueeze_last {A} (t : Tensor2 A) : Tensor3 A :=
  T3 ((shape2 t).1, (shape2 t).2, 1%nat) (map (map (λ x, [x])) (data2 t)).

Definition unsqueeze_first {A} (v : list A) : Tensor2 A :=
  T2 (1%nat, length v) [v].

(** ** Absent arguments

    An [Optional] argument that is [None] fails where the code first
    touches it, with the exception Python raises for that use. *)

(** [o.shape], [o.view]: attribute access *)
Definition attr_of {A} (o : option A) : result A :=
  match o with Some a => Ok a | None => Raise AttributeError end.

(** [o[...]]: subscription *)
Definition subscript_of {A} (o : option A) : result A :=
  match o with Some a => Ok a | None => Raise TypeError end.

(** [enumerate(o)]: iteration *)
Definition iter_of {A} (o : option A) : result A :=
  match o with Some a => Ok a | None => Raise TypeError end.

(** ** Index tensors

    Speaker and language ids come as [(B,)] or [(B, 1)]; the code reads
    them through [view(-1)]. *)
Inductive IndexTensor : Type :=
  | Index1 (v : list Z)
  | Index2 (t : Tensor2 Z).

Definition view_flat (t : IndexTensor) : list Z :=
  match t with
  | Index1 v => v
  | Index2 t => concat (data2 t)
  end.

(** ** The libraries underneath

    [Torch] collects what the code takes from PyTorch: the float type and
    its arithmetic, the random source, [F.normalize] and the behaviour of
    the two layer kinds built in [__init__]. *)
Class Torch : Type := {
  float : Type;
  Rng : Type;
  fadd : float → float → float;
  fmul : float → float → float;
  fexp : float → float;
  randn_like : Tensor3 float → Rng → Tensor3 float * Rng;
  F_normalize : Tensor2 float → Tensor2 float;
  Embedding_call : Z → Z → list Z → ST Rng (Tensor2 float);
  Linear_call : Z → Z → Tensor2 float → ST Rng (Tensor2 float)
}.

(** A sub-network call may raise and may draw random numbers (dropout,
    sampling); it has no access to the caller's buffers. *)
Definition Net `{Torch} (A : Type) : Type := ST Rng A.

(** [text_encoder(label, label_lengths, ds, midi, beat)] returns
    [(x, m_p, logs_p, x_mask)]. *)
Definition TextEncoderT `{Torch} : Type :=
  option (Tensor2 Z) → option (list Z) → option (Tensor2 Z) →
  option (Tensor2 Z) → option (Tensor2 Z) →
  Net (Tensor3 float * Tensor3 float * Tensor3 float * Tensor3 float).

(** [decoder(z, g=g)] *)
Definition DecoderT `{Torch} : Type :=
  Tensor3 float → option (Tensor3 float) → Net (Tensor3 float).

(** [posterior_encoder(feats, feats_lengths, g=g)] returns
    [(z, m_q, logs_q, y_mask)]. *)
Definition PosteriorEncoderT `{Torch} : Type :=
  option (Tensor3 float) → option (list Z) → option (Tensor3 float) →
  Net (Tensor3 float * Tensor3 float * Tensor3 float * Tensor3 float).

(** [flow(z, mask, g=g, inverse=inverse)] *)
Definition FlowT `{Torch} : Type :=
  Tensor3 float → Tensor3 float → option (Tensor3 float) → bool →
  Net (Tensor3 float).

(** [project(x, x_mask)] returns [(m_p, logs_p)]. *)
Definition ProjectionT `{Torch} : Type :=
  Tensor3 float → Tensor3 float → Net (Tensor3 float * Tensor3 float).

(** [duration_predictor(x, x_mask, w, g=g, inverse=..., noise_scale=...)] *)
Definition DurationPredictorT `{Torch} : Type :=
  Tensor3 float → Tensor3 float → option (Tensor3 float) →
  option (Tensor3 float) → bool → float → Net (Tensor3 float).

(** [lr(x, midi, beat, beat_lengths)] returns [(x_frame, frame_pitch, x_lengths)]. *)
Definition LengthRegulatorT `{Torch} : Type :=
  Tensor3 float → Tensor2 Z → Tensor2 Z → list Z →
  Net (Tensor3 float * Tensor2 Z * list Z).

(** [maximum_path(neg_x_ent, attn_mask)] *)
Definition MaximumPathT `{Torch} : Type :=
  Tensor3 float → Tensor3 float → Tensor3 float.

(** [Espnet] collects what the code imports from the rest of the
    repository: the constructors of the sub-networks, the delayed import of
    [maximum_path], and [get_random_segments].  A constructor lists the
    arguments [__init__] computes for it; the remaining keyword arguments
    are architecture settings that [__init__] only hands on, and they are
    folded into the constructor. *)
Class Espnet `{Torch} : Type := {
  (* vocabs, attention_dim, midi_dim, beat_dim *)
  TextEncoder : Z → Z → Z → Z → result TextEncoderT;
  (* in_channels, out_channels, global_channels, upsample_scales *)
  HiFiGANGenerator : Z → Z → Z → list Z → result DecoderT;
  (* in_channels, out_channels, hidden_channels, global_channels *)
  PosteriorEncoder : Z → Z → Z → Z → result PosteriorEncoderT;
  (* in_channels, hidden_channels, global_channels *)
  ResidualAffineCouplingBlock : Z → Z → Z → result FlowT;
  (* hidden_channels, out_channels *)
  Projection : Z → Z → result ProjectionT;
  (* channels, global_channels *)
  StochasticDurationPredictor : Z → Z → result DurationPredictorT;
  (* channels, filter_channels, kernel_size, gin_channels *)
  DurationPredictor : Z → Z → Z → Z → result DurationPredictorT;
  LengthRegulator : result LengthRegulatorT;
  import_maximum_path : result MaximumPathT;
  (* get_random_segments(x, x_lengths, segment_size) returns (segments, start_idxs) *)
  get_random_segments : Tensor3 float → list Z → Z → Net (Tensor3 float * list Z)
}.

(** ** Constructor arguments *)

Module Config.
Record t : Type := {
  vocabs : Z;
  midi_dim : Z;
  beat_dim : Z;
  aux_channels : Z;
  hidden_channels : Z;
  spks : option Z;
  langs : option Z;
  spk_embed_dim : option Z;
  global_channels : Z;
  segment_size : Z;
  decoder_upsample_scales : list Z;
  use_sdp : bool
}.
End Config.

(** ** The generator object: the attributes [__init__] sets on [self] *)

Record VITSGenerator `{Torch} : Type := {
  segment_size : Z;
  text_encoder : TextEncoderT;
  decoder : DecoderT;
  posterior_encoder : PosteriorEncoderT;
  flow : FlowT;
  project : ProjectionT;
  use_sdp : bool;
  duration_predictor : DurationPredictorT;
  lr : LengthRegulatorT;
  upsample_factor : Z;
  spks : option Z;
  global_emb : option (list Z → Net (Tensor2 float));
  spk_embed_dim : option Z;
  spemb_proj : option (Tensor2 float → Net (Tensor2 float));
  langs : option Z;
  lang_emb : option (list Z → Net (Tensor2 float));
  maximum_path : MaximumPathT
}.

(** ** Caller-owned buffers

    The length tensors are objects the caller keeps; [forward] receives
    references to them.  A reference is a location, and the heap gives the
    current contents of every location. *)
Abbreviation loc := nat.

Record world `{Torch} : Type := World {
  heap : loc → list Z;
  rng : Rng
}.
Arguments World {_} heap rng.

(** ** Arguments of [forward] *)

Module Fwd.
Record args `{Torch} : Type := {
  text : Tensor2 Z;
  text_lengths : loc;
  feats : Tensor3 float;
  feats_lengths : loc;
  ds : Tensor2 Z;
  label_lab : option (Tensor2 Z);
  label_lab_lengths : option loc;
  label_xml : option (Tensor2 Z);
  label_xml_lengths : option loc;
  midi_lab : option (Tensor2 Z);
  midi_lab_lengths : option loc;
  midi_xml : option (Tensor2 Z);
  midi_xml_lengths : option loc;
  tempo_lab : option (Tensor2 Z);
  tempo_lab_lengths : option loc;
  tempo_xml : option (Tensor2 Z);
  tempo_xml_lengths : option loc;
  beat_lab : option (Tensor2 Z);
  beat_lab_lengths : option loc;
  beat_xml : option (Tensor2 Z);
  beat_xml_lengths : option loc;
  sids : option IndexTensor;
  spembs : option (Tensor2 float);
  lids : option IndexTensor
}.
End Fwd.

(** ** Arguments of [inference]

    [inference] writes to none of its arguments, so it takes the length
    tensors by value. *)

Module Inf.
Record args `{Torch} : Type := {
  text : Tensor2 Z;
  text_lengths : list Z;
  feats : option (Tensor3 float);
  feats_lengths : option (list Z);
  label_lab : option (Tensor2 Z);
  label_xml : option (Tensor2 Z);
  label_xml_lengths : option (list Z);
  midi_lab : option (Tensor2 Z);
  midi_xml : option (Tensor2 Z);
  tempo_lab : option (Tensor2 Z);
  tempo_xml : option (Tensor2 Z);
  beat_lab : option (Tensor2 Z);
  beat_xml : option (Tensor2 Z);
  sids : option IndexTensor;
  spembs : option (list float);
  lids : option IndexTensor;
  dur : option (Tensor3 float);
  noise_scale : float;
  noise_scale_dur : float;
  alpha : float;
  max_len : option Z;
  use_teacher_forcing : bool
}.
End Inf.

(** ** Python values returned by the two entry points *)

Inductive tensor `{Torch} : Type :=
  | IntTensor1 (v : list Z)
  | FloatTensor2 (t : Tensor2 float)
  | FloatTensor3 (t : Tensor3 float).

#[warnings="-register-all"]
Inductive pyval `{Torch} : Type :=
  | PyNone
  | PyTensor (t : tensor)
  | PyTuple (items : list pyval).

(** [wav.squeeze(1)]: the channel axis is dropped when its size is one and
    kept otherwise. *)
Definition squeeze1 `{Torch} (t : Tensor3 float) : tensor :=
  if decide (size3_1 t = 1%nat)
  then FloatTensor2 (T2 (size3_0 t, size3_2 t) (map (λ m, concat m) (data3 t)))
  else FloatTensor3 t.

(** ** [numpy.prod] on a list of machine integers

    [np.prod] multiplies in [int64] and wraps around silently. *)
Definition wrap_int64 (n : Z) : Z := (n + 2 ^ 63) mod 2 ^ 64 - 2 ^ 63.

Definition np_prod (l : list Z) : Z :=
  foldl (λ acc x, wrap_int64 (acc * x)) 1 l.

(** ** [_generate_path]

    Durations are whole frame counts; torch keeps them in [dur.dtype], and
    the entries of [dur], [mask] and the path are modelled as integers. *)

Record Tensor4 (A : Type) : Type := T4 {
  shape4 : nat * nat * nat * nat;
  data4 : list (list (list (list A)))
}.
Arguments T4 {A} shape4 data4.
Arguments shape4 {A} t.
Arguments data4 {A} t.

Definition broadcast4 {A} (f : A → A → A) (a b : Tensor4 A) : result (Tensor4 A) :=
  let '(a0, a1, a2, a3) := shape4 a in
  let '(b0, b1, b2, b3) := shape4 b in
  n0 ← bdim a0 b0;
  n1 ← bdim a1 b1;
  n2 ← bdim a2 b2;
  n3 ← bdim a3 b3;
  Ok (T4 (n0, n1, n2, n3)
        (bzip (bzip (bzip (bzip f n3) n2) n1) n0 (data4 a) (data4 b))).

(** Running sums of a row, [acc] being the sum so far *)
Fixpoint cumsum_from (acc : Z) (l : list Z) : list Z :=
  match l with
  | [] => []
  | x :: l' => (acc + x) :: cumsum_from (acc + x) l'
  end.

(** [torch.cumsum(t, -1)] *)
Definition cumsum_last (t : Tensor3 Z) : Tensor3 Z :=
  T3 (shape3 t) (map (map (cumsum_from 0)) (data3 t)).

(** [t.view(n)]: the entries in row-major order; a shape error unless
    there are [n] of them. *)
Definition view_1d (t : Tensor3 Z) (n : nat) : result (list Z) :=
  if decide (size3_0 t * size3_1 t * size3_2 t = n)%nat
  then Ok (concat (concat (data3 t)))
  else Raise RuntimeError.

(** [torch.arange(t_y).unsqueeze(0) < flat.unsqueeze(1)] *)
Definition arange_lt (t_y : nat) (flat : list Z) : list (list bool) :=
  map (λ c, map (λ j, bool_decide (Z.of_nat j < c)) (seq 0 t_y)) flat.

(** [n] consecutive groups of [k] rows: [rows.view(n, k, -1)] *)
Fixpoint chunks {A} (n k : nat) (rows : list A) : list (list A) :=
  match n with
  | O => []
  | S n' => take k rows :: chunks n' k (drop k rows)
  end.

(** [.to(dtype=mask.dtype)] on a boolean *)
Definition of_bool (b : bool) : Z := if b then 1 else 0.

(** [F.pad(path, [0, 0, 1, 0, 0, 0])[:, :-1]]: one row of zeros in front
    of every batch entry, then the last row cut off. *)
Definition shift_rows (t : Tensor3 Z) : Tensor3 Z :=
  let '(b, t_x, t_y) := shape3 t in
  let n := slice_stop (t_x + 1) (Some (-1)) in
  T3 (b, n, t_y) (map (λ m, take n (replicate t_y 0 :: m)) (data3 t)).

(** Column [j] of a matrix, and the transposed matrix with [cols] rows *)
Definition column {A} (j : nat) (m : list (list A)) : list A :=
  omap (λ r, r !! j) m.

Definition transpose {A} (cols : nat) (m : list (list A)) : list (list A) :=
  map (λ j, column j m) (seq 0 cols).

(** [path.unsqueeze(1).transpose(2, 3)] *)
Definition unsqueeze1_transpose23 {A} (t : Tensor3 A) : Tensor4 A :=
  let '(b, t_x, t_y) := shape3 t in
  T4 (b, 1%nat, t_y, t_x) (map (λ m, [transpose t_y m]) (data3 t)).

(** Lines 722-732: the path before it is transposed and masked *)
Definition path_before_mask (dur : Tensor3 Z) (b t_y t_x : nat)
    : result (Tensor3 Z) :=
  let cum_dur := cumsum_last dur in
  cum_dur_flat ← view_1d cum_dur (b * t_x);
  let path := arange_lt t_y cum_dur_flat in
  let path := T3 (b, t_x, t_y) (chunks b t_x (map (map of_bool) path)) in
  broadcast3 Z.sub path (shift_rows path).

Definition _generate_path (dur : Tensor3 Z) (mask : Tensor4 Z)
    : result (Tensor4 Z) :=
  let '(b, _, t_y, t_x) := shape4 mask in
  path ← path_before_mask dur b t_y t_x;
  broadcast4 Z.mul (unsqueeze1_transpose23 path) mask.

Section Model.
Context `{torch : Torch} `{espnet : !Espnet}.

(** *** Access to the heap and to the sub-networks from [forward] *)

Definition net {A} (m : Net A) : ST world A :=
  λ w, let '(r, g) := m (rng w) in (r, World (heap w) g).

Definition read_buffer (l : loc) : ST world (list Z) :=
  λ w, (Ok (heap w l), w).

(** An optional reference handed to a sub-network: the sub-network sees
    the contents the buffer has at that moment. *)
Definition contents (o : option loc) : ST world (option (list Z)) :=
  λ w, (Ok (heap w <$> o), w).

(** [buf[i]] *)
Definition read_item (l : loc) (i : nat) : ST world Z :=
  λ w, match heap w l !! i with
       | Some v => (Ok v, w)
       | None => (Raise IndexError, w)
       end.

(** [buf[i] = v], in place *)
Definition write_item (l : loc) (i : nat) (v : Z) : ST world unit :=
  λ w, if decide (i < length (heap w l))%nat
       then (Ok (), World (<[l := <[i := v]> (heap w l)]> (heap w)) (rng w))
       else (Raise IndexError, w).

(** *** Lines 365-367: the length-correction loop

<<
    for i, length in enumerate(label_xml_lengths):
        if length == label_xml.shape[1]:
            label_xml_lengths[i] = feats.shape[2]
>>
    Iterating a tensor fixes the number of rounds at the start and hands
    out views, so round [i] reads entry [i] of the buffer as it is then. *)
Definition correct_length_at (label_xml : option (Tensor2 Z)) (l : loc)
    (feats : Tensor3 float) (i : nat) : ST world unit :=
  length ← read_item l i;
  lx ← lift_result (attr_of label_xml);
  if decide (length = Z.of_nat (shape2_1 lx))
  then write_item l i (Z.of_nat (size3_2 feats))
  else mret ().

Definition correct_lengths (label_xml : option (Tensor2 Z))
    (label_xml_lengths : option loc) (feats : Tensor3 float) : ST world unit :=
  l ← lift_result (iter_of label_xml_lengths);
  buf ← read_buffer l;
  for_each (seq 0 (length buf)) (correct_length_at label_xml l feats).

(** *** Lines 368-390: padding or truncating the three xml streams *)
Definition reconcile_xml (label_xml midi_xml beat_xml : option (Tensor2 Z))
    (feats : Tensor3 float) : result (Tensor2 Z * Tensor2 Z * Tensor2 Z) :=
  lx ← attr_of label_xml;
  let T := size3_2 feats in
  if decide (shape2_1 lx < T)%nat then
    label_xml' ← F_pad 0 lx (Z.of_nat T - Z.of_nat (shape2_1 lx));
    mx ← attr_of midi_xml;
    midi_xml' ← F_pad 0 mx (Z.of_nat T - Z.of_nat (shape2_1 mx));
    bx ← attr_of beat_xml;
    beat_xml' ← F_pad 0 bx (Z.of_nat T - Z.of_nat (shape2_1 bx));
    Ok (label_xml', midi_xml', beat_xml')
  else
    let label_xml' := slice_cols lx T in
    mx ← subscript_of midi_xml;
    let midi_xml' := slice_cols mx T in
    bx ← subscript_of beat_xml;
    let beat_xml' := slice_cols bx T in
    Ok (label_xml', midi_xml', beat_xml').

(** *** Lines 399-416 and 610-627: global conditioning

    [spembs_arg] is the argument of [F.normalize] as the caller of this
    block wrote it ([spembs] in [forward], [spembs.unsqueeze(0)] in
    [inference]), or the exception its evaluation raises. *)
Definition add_g (g : option (Tensor3 float)) (g_ : Tensor3 float)
    : result (Tensor3 float) :=
  match g with
  | None => Ok g_
  | Some g => broadcast3 fadd g g_
  end.

Definition global_conditioning (self : VITSGenerator)
    (sids : option IndexTensor) (spembs_arg : result (Tensor2 float))
    (lids : option IndexTensor) : Net (option (Tensor3 float)) :=
  g ← match spks self with
      | Some _ =>
          emb ← lift_result (attr_of (global_emb self));
          ids ← lift_result (attr_of sids);
          e ← emb (view_flat ids);
          mret (Some (unsqueeze_last e))
      | None => mret None
      end;
  g ← match spk_embed_dim self with
      | Some _ =>
          proj ← lift_result (attr_of (spemb_proj self));
          s ← lift_result spembs_arg;
          e ← proj (F_normalize s);
          g' ← lift_result (add_g g (unsqueeze_last e));
          mret (Some g')
      | None => mret g
      end;
  match langs self with
  | Some _ =>
      emb ← lift_result (attr_of (lang_emb self));
      ids ← lift_result (attr_of lids);
      e ← emb (view_flat ids);
      g' ← lift_result (add_g g (unsqueeze_last e));
      mret (Some g')
  | None => mret g
  end.

(** *** Lines 464-476: positional encoding

    The sum [x + pe] is bound to [x], which nothing reads afterwards, so
    only the ways this block can fail matter: the division by [d_model],
    and the assignment of [ceil(d_model / 2)] cosine columns to the
    [floor(d_model / 2)] odd columns of [pe]. *)
Definition positional_encoding (x : Tensor3 float) : result unit :=
  let d_model := size3_1 x in
  let n_terms := Nat.div2 (d_model + 1) in
  let n_odd := Nat.div2 d_model in
  if decide (d_model = 0%nat) then Raise ZeroDivisionError
  else if decide (n_terms = n_odd ∨ n_terms = 1%nat) then Ok ()
  else Raise RuntimeError.

(** *** [forward]

    [forward_tail] is the pass from the text encoder on (lines 393-555),
    given the three reconciled streams; [forward] runs lines 365-390 and
    continues with it. *)
Definition forward_tail (self : VITSGenerator) (a : Fwd.args)
    (label_xml midi_xml beat_xml : Tensor2 Z) : ST world pyval :=
  let feats := Fwd.feats a in
  label_xml_lengths ← contents (Fwd.label_xml_lengths a);
  '(x, m_p, logs_p, x_mask) ← net
    (text_encoder self (Some label_xml) label_xml_lengths
       (Some (Fwd.ds a)) (Some midi_xml) (Some beat_xml));
  g ← net (global_conditioning self (Fwd.sids a) (attr_of (Fwd.spembs a))
             (Fwd.lids a));
  _ ← lift_result (positional_encoding x);
  feats_lengths ← read_buffer (Fwd.feats_lengths a);
  '(z, m_q, logs_q, y_mask) ← net
    (posterior_encoder self (Some feats) (Some feats_lengths) g);
  z_p ← net (flow self z y_mask g false);
  '(z_segments, z_start_idxs) ← net
    (get_random_segments z feats_lengths (segment_size self));
  wav ← net (decoder self z_segments g);
  mret (PyTuple
    [ PyTensor (FloatTensor3 wav);
      PyTensor (IntTensor1 z_start_idxs);
      PyTensor (FloatTensor3 x_mask);
      PyTensor (FloatTensor3 y_mask);
      PyTuple
        [ PyTensor (FloatTensor3 z);
          PyTensor (FloatTensor3 z_p);
          PyTensor (FloatTensor3 m_p);
          PyTensor (FloatTensor3 logs_p);
          PyTensor (FloatTensor3 m_q);
          PyTensor (FloatTensor3 logs_q) ] ]).

Definition forward (self : VITSGenerator) (a : Fwd.args) : ST world pyval :=
  let feats := Fwd.feats a in
  _ ← correct_lengths (Fwd.label_xml a) (Fwd.label_xml_lengths a) feats;
  '(label_xml, midi_xml, beat_xml) ← lift_result
    (reconcile_xml (Fwd.label_xml a) (Fwd.midi_xml a) (Fwd.beat_xml a) feats);
  forward_tail self a label_xml midi_xml beat_xml.

(** *** [inference] *)

(** Line 703: [m_p + torch.randn_like(m_p) * torch.exp(logs_p) * noise_scale] *)
Definition sample_prior (m_p logs_p : Tensor3 float) (noise_scale : float)
    : Net (Tensor3 float) :=
  λ r, let '(noise, r') := randn_like m_p r in
       (scaled ← broadcast3 fmul noise (map3 fexp logs_p);
        broadcast3 fadd m_p (map3 (λ v, fmul v noise_scale) scaled), r').

Definition inference (self : VITSGenerator) (a : Inf.args) : Net pyval :=
  '(x, m_p, logs_p, x_mask) ←
    text_encoder self (Inf.label_xml a) (Inf.label_xml_lengths a) None
      (Inf.midi_xml a) (Inf.beat_xml a);
  g ← global_conditioning self (Inf.sids a)
         (unsqueeze_first <$> attr_of (Inf.spembs a)) (Inf.lids a);
  wav ←
    (if Inf.use_teacher_forcing a then
       '(z, m_q, logs_q, y_mask) ←
         posterior_encoder self (Inf.feats a) (Inf.feats_lengths a) g;
       z_p ← flow self z y_mask g false;
       zm ← lift_result (broadcast3 fmul z y_mask);
       decoder self zm g
     else
       z_p ← sample_prior m_p logs_p (Inf.noise_scale a);
       z ← flow self z_p x_mask g true;
       zm ← lift_result (broadcast3 fmul z x_mask);
       decoder self (slice_time zm (Inf.max_len a)) g);
  mret (PyTuple [ PyTensor (squeeze1 wav); PyNone; PyNone ]).


(** *** [__init__] *)

(** [torch.nn.Embedding(n, d)] and [torch.nn.Linear(n, d)] allocate an
    [n] by [d] weight and fail on a negative size. *)
Definition Embedding (n d : Z) : result (list Z → Net (Tensor2 float)) :=
  if decide (n < 0 ∨ d < 0) then Raise RuntimeError else Ok (Embedding_call n d).

Definition Linear (n d : Z) : result (Tensor2 float → Net (Tensor2 float)) :=
  if decide (n < 0 ∨ d < 0) then Raise RuntimeError else Ok (Linear_call n d).

(** [assert c] *)
Definition assert (c : Prop) `{Decision c} : result unit :=
  if decide c then Ok () else Raise AssertionError.

(** Lines 187-266: the sub-networks *)
Definition build_networks (cfg : Config.t)
    : result (TextEncoderT * DecoderT * PosteriorEncoderT * FlowT *
              ProjectionT * DurationPredictorT * LengthRegulatorT) :=
  let hidden_channels := Config.hidden_channels cfg in
  let global_channels := Config.global_channels cfg in
  text_encoder ← TextEncoder (Config.vocabs cfg) hidden_channels
                   (Config.midi_dim cfg) (Config.beat_dim cfg);
  decoder ← HiFiGANGenerator hidden_channels 1 global_channels
              (Config.decoder_upsample_scales cfg);
  posterior_encoder ← PosteriorEncoder (Config.aux_channels cfg)
                        hidden_channels hidden_channels global_channels;
  flow ← ResidualAffineCouplingBlock hidden_channels hidden_channels
           global_channels;
  project ← Projection hidden_channels hidden_channels;
  duration_predictor ←
    (if Config.use_sdp cfg
     then StochasticDurationPredictor hidden_channels global_channels
     else DurationPredictor hidden_channels 256 3 0);
  lr ← LengthRegulator;
  Ok (text_encoder, decoder, posterior_encoder, flow, project,
      duration_predictor, lr).

(** Lines 269-283, one of the three blocks: the attribute stays [None]
    unless the count exceeds [least]; then the global width is asserted
    positive and the layer is built. *)
Definition conditioning_layer {L} (n : option Z) (least : Z)
    (global_channels : Z) (build : Z → Z → result L)
    : result (option Z * option L) :=
  match n with
  | Some n =>
      if decide (least < n) then
        _ ← assert (0 < global_channels);
        layer ← build n global_channels;
        Ok (Some n, Some layer)
      else Ok (None, None)
  | None => Ok (None, None)
  end.

Definition __init__ (cfg : Config.t) : result VITSGenerator :=
  let global_channels := Config.global_channels cfg in
  '(text_encoder, decoder, posterior_encoder, flow, project,
    duration_predictor, lr) ← build_networks cfg;
  let upsample_factor := np_prod (Config.decoder_upsample_scales cfg) in
  '(spks, global_emb) ←
    conditioning_layer (Config.spks cfg) 1 global_channels Embedding;
  '(spk_embed_dim, spemb_proj) ←
    conditioning_layer (Config.spk_embed_dim cfg) 0 global_channels Linear;
  '(langs, lang_emb) ←
    conditioning_layer (Config.langs cfg) 1 global_channels Embedding;
  maximum_path ← import_maximum_path;
  Ok {| segment_size := Config.segment_size cfg;
        text_encoder := text_encoder;
        decoder := decoder;
        posterior_encoder := posterior_encoder;
        flow := flow;
        project := project;
        use_sdp := Config.use_sdp cfg;
        duration_predictor := duration_predictor;
        lr := lr;
        upsample_factor := upsample_factor;
        spks := spks;
        global_emb := global_emb;
        spk_embed_dim := spk_embed_dim;
        spemb_proj := spemb_proj;
        langs := langs;
        lang_emb := lang_emb;
        maximum_path := maximum_path |}.

End Model.

(** ** A small executable instance

    Integer arithmetic stands in for floats, a counter for the random
    source, and each sub-network is a short function with the shapes its
    contract gives.  The instance is used to run the model on concrete
    batches. *)

Module Toy.

Definition torch : Torch := {|
  float := Z;
  Rng := nat;
  fadd := Z.add;
  fmul := Z.mul;
  fexp := λ v, 2 ^ v;
  randn_like := λ t r, (map3 (λ _, Z.of_nat r) t, S r);
  F_normalize := λ t, t;
  Embedding_call := λ n d ids r,
    (Ok (T2 (length ids, Z.to_nat d) (map (λ i, replicate (Z.to_nat d) i) ids)), r);
  Linear_call := λ n d t r,
    (Ok (T2 ((shape2 t).1, Z.to_nat d)
           (map (λ row, replicate (Z.to_nat d) (foldr Z.add 0 row)) (data2 t))), r)
|}.

(** [(t < length)] as 0 or 1, for [t] below [T] *)
Definition mask_row (T : nat) (len : Z) : list Z :=
  map (λ t, if decide (Z.of_nat t < len) then 1 else 0) (seq 0 T).

Definition mask3 (T : nat) (lens : list Z) : Tensor3 Z :=
  T3 (length lens, 1%nat, T) (map (λ len, [mask_row T len]) lens).

(** Every channel a copy of the given row *)
Definition channels (H : nat) (rows : list (list Z)) (T : nat) : Tensor3 Z :=
  T3 (length rows, H, T) (map (λ r, replicate H r) rows).

Definition toy_text_encoder (H : Z) : TextEncoderT (H := torch) :=
  λ label lens ds midi beat r,
    match label, lens, midi, beat with
    | Some l, Some ls, Some m, Some b =>
        let T := shape2_1 l in
        let h := Z.to_nat H in
        (Ok (channels h (data2 l) T,
             channels h (data2 m) T,
             channels h (data2 b) T,
             mask3 T ls), r)
    | _, _, _, _ => (Raise AttributeError, r)
    end.

Definition toy_posterior_encoder (H : Z) : PosteriorEncoderT (H := torch) :=
  λ feats lens g r,
    match feats, lens with
    | Some f, Some ls =>
        let T := size3_2 f in
        let h := Z.to_nat H in
        let first := map (λ m, default (replicate T 0) (head m)) (data3 f) in
        let m_q := channels h first T in
        let logs_q := channels h (map (map (λ _, 0)) first) T in
        let z := map3 (λ v, v + Z.of_nat r) m_q in
        (Ok (z, m_q, logs_q, mask3 T ls), S r)
    | _, _ => (Raise AttributeError, r)
    end.

Definition toy_flow : FlowT (H := torch) :=
  λ z mask g inverse r,
    (Ok (map3 (λ v, if inverse then v - 1 else v + 1) z), r).

Definition toy_decoder (out_channels : Z) (scales : list Z) : DecoderT (H := torch) :=
  λ z g r,
    let U := Z.to_nat (foldr Z.mul 1 scales) in
    let first := map (λ m, default (replicate (size3_2 z) 0) (head m)) (data3 z) in
    (Ok (T3 (size3_0 z, Z.to_nat out_channels, (size3_2 z * U)%nat)
           (map (λ row, replicate (Z.to_nat out_channels)
                          (concat (map (replicate U) row))) first)), r).

Definition random_segments (z : Tensor3 Z) (lens : list Z) (S : Z)
    : Net (H := torch) (Tensor3 Z * list Z) :=
  λ r,
    let starts := map (λ len, Z.of_nat r mod (Z.max (len - S) 0 + 1)) lens in
    let n := Z.to_nat S in
    (Ok (T3 (size3_0 z, size3_1 z, n)
           (zip_with (λ m s, map (λ row, take n (drop (Z.to_nat s) row)) m)
                     (data3 z) starts),
         starts), Datatypes.S r).

Definition espnet : Espnet (H := torch) := {|
  TextEncoder := λ vocabs attention_dim midi_dim beat_dim,
    Ok (toy_text_encoder attention_dim);
  HiFiGANGenerator := λ in_channels out_channels global_channels scales,
    Ok (toy_decoder out_channels scales);
  PosteriorEncoder := λ in_channels out_channels hidden global_channels,
    Ok (toy_posterior_encoder out_channels);
  ResidualAffineCouplingBlock := λ _ _ _, Ok toy_flow;
  Projection := λ _ _, Ok (λ x x_mask r, (Ok (x, x), r));
  StochasticDurationPredictor := λ _ _, Ok (λ x x_mask w g inverse ns r, (Ok x, r));
  DurationPredictor := λ _ _ _ _, Ok (λ x x_mask w g inverse ns r, (Ok x, r));
  LengthRegulator := Ok (λ x midi beat lens r, (Ok (x, midi, lens), r));
  import_maximum_path := Ok (λ neg_x_ent attn_mask, attn_mask);
  get_random_segments := random_segments
|}.

(** The scenario of the specification: two examples, feature lengths 20
    and 12, segment size 4, hidden width 2, upsampling by 2 * 2. *)
Definition cfg : Config.t := {|
  Config.vocabs := 10;
  Config.midi_dim := 129;
  Config.beat_dim := 128;
  Config.aux_channels := 3;
  Config.hidden_channels := 2;
  Config.spks := None;
  Config.langs := None;
  Config.spk_embed_dim := None;
  Config.global_channels := -1;
  Config.segment_size := 4;
  Config.decoder_upsample_scales := [2; 2];
  Config.use_sdp := false
|}.

(** Streams of width 5, shorter than the 20 feature frames *)
Definition label5 : Tensor2 Z := T2 (2%nat, 5%nat) [[1; 2; 3; 4; 5]; [6; 7; 8; 0; 0]].
Definition midi5 : Tensor2 Z := T2 (2%nat, 5%nat) [[60; 60; 62; 62; 64]; [65; 65; 67; 0; 0]].
Definition beat5 : Tensor2 Z := T2 (2%nat, 5%nat) [[1; 1; 2; 2; 1]; [3; 1; 1; 0; 0]].

Definition feats20 : Tensor3 (float (Torch := torch)) :=
  T3 (2%nat, 3%nat, 20%nat)
     (replicate 2 (replicate 3 (map Z.of_nat (seq 0 20)))).

(** The caller's buffers: location 0 holds [label_xml_lengths], location 1
    [feats_lengths], location 2 [text_lengths]. *)
Definition heap0 : loc → list Z :=
  λ l, match l with
       | 0%nat => [5; 3]
       | 1%nat => [20; 12]
       | 2%nat => [5; 3]
       | _ => []
       end.

Definition world0 : world (H := torch) := @World torch heap0 7%nat.

(** The generator [__init__] builds from [cfg] *)
Definition self : VITSGenerator (H := torch) := {|
  segment_size := 4;
  text_encoder := toy_text_encoder 2;
  decoder := toy_decoder 1 [2; 2];
  posterior_encoder := toy_posterior_encoder 2;
  flow := toy_flow;
  project := λ x x_mask r, (Ok (x, x), r);
  use_sdp := false;
  duration_predictor := λ x x_mask w g inverse ns r, (Ok x, r);
  lr := λ x midi beat lens r, (Ok (x, midi, lens), r);
  upsample_factor := 4;
  spks := None;
  global_emb := None;
  spk_embed_dim := None;
  spemb_proj := None;
  langs := None;
  lang_emb := None;
  maximum_path := λ neg_x_ent attn_mask, attn_mask
|}.

Definition args : Fwd.args (H := torch) := {|
  Fwd.text := T2 (2%nat, 5%nat) [[1; 2; 3; 4; 5]; [6; 7; 8; 0; 0]];
  Fwd.text_lengths := 2%nat;
  Fwd.feats := feats20;
  Fwd.feats_lengths := 1%nat;
  Fwd.ds := T2 (2%nat, 5%nat) [[4; 4; 4; 4; 4]; [4; 4; 4; 0; 0]];
  Fwd.label_lab := None;
  Fwd.label_lab_lengths := None;
  Fwd.label_xml := Some label5;
  Fwd.label_xml_lengths := Some 0%nat;
  Fwd.midi_lab := None;
  Fwd.midi_lab_lengths := None;
  Fwd.midi_xml := Some midi5;
  Fwd.midi_xml_lengths := None;
  Fwd.tempo_lab := None;
  Fwd.tempo_lab_lengths := None;
  Fwd.tempo_xml := None;
  Fwd.tempo_xml_lengths := None;
  Fwd.beat_lab := None;
  Fwd.beat_lab_lengths := None;
  Fwd.beat_xml := Some beat5;
  Fwd.beat_xml_lengths := None;
  Fwd.sids := None;
  Fwd.spembs := None;
  Fwd.lids := None
|}.

End Toy.

(** ** Vocabulary of the statements *)

(** The correction rule of lines 365-367 on the contents of a buffer:
    entries equal to the padded width [W] become the feature length [T]. *)
Definition corrected (W T : nat) (buf : list Z) : list Z :=
  map (λ n, if decide (n = Z.of_nat W) then Z.of_nat T else n) buf.

(** [t'] is [t] brought to width [T]: zeros appended on the right of every
    row when [t] is narrower, rows cut on the right when it is wider. *)
Definition reconciled_to (T : nat) (t t' : Tensor2 Z) : Prop :=
  shape2 t' = ((shape2 t).1, T) ∧
  wf2 t' ∧
  ((shape2_1 t < T)%nat →
     data2 t' = map (λ r, r ++ replicate (T - shape2_1 t) 0) (data2 t)) ∧
  ((T < shape2_1 t)%nat → data2 t' = map (take T) (data2 t)).

(** Entry [(b, c, k)] of a 3-d tensor *)
Definition entry3 {A} (t : Tensor3 A) (b c k : nat) : option A :=
  data3 t !! b ≫= λ m, m !! c ≫= λ r, r !! k.

(** [w'] is [w] after the correction rule has been applied to the buffer
    at [l]: that buffer is corrected, every other buffer and the random
    source are as before. *)
Definition lengths_corrected `{Torch} (w w' : world) (l : loc) (W T : nat) : Prop :=
  rng w' = rng w ∧
  heap w' l = corrected W T (heap w l) ∧
  ∀ l', l' ≠ l → heap w' l' = heap w l'.

(** The index an operand of size [na] is read at for position [i] of a
    broadcast result of size [n]: a size of one is read at 0. *)
Definition bidx (na n i : nat) : nat := if decide (na = n) then i else 0%nat.

(** The buffers as [forward] leaves them *)
Definition heap_after `{Torch} (w : world) (l : loc) (W T : nat) : loc → list Z :=
  <[l := corrected W T (heap w l)]> (heap w).

(** The product of the upsampling scales *)
Definition list_prod (l : list Z) : Z := foldr Z.mul 1 l.

(** One run of the training pass: the reconciled streams, what each
    sub-network returned, and the random source after each call. *)
Record Run `{Torch} : Type := {
  run_label_xml : Tensor2 Z;
  run_midi_xml : Tensor2 Z;
  run_beat_xml : Tensor2 Z;
  run_x : Tensor3 float;
  run_m_p : Tensor3 float;
  run_logs_p : Tensor3 float;
  run_x_mask : Tensor3 float;
  run_g : option (Tensor3 float);
  run_feats_lengths : list Z;
  run_z : Tensor3 float;
  run_m_q : Tensor3 float;
  run_logs_q : Tensor3 float;
  run_y_mask : Tensor3 float;
  run_z_p : Tensor3 float;
  run_z_segments : Tensor3 float;
  run_z_start_idxs : list Z;
  run_wav : Tensor3 float;
  rng_text_encoder : Rng;
  rng_conditioning : Rng;
  rng_posterior_encoder : Rng;
  rng_flow : Rng;
  rng_segments : Rng;
  rng_decoder : Rng
}.

(** A training input is valid when the four xml arguments are present and
    every stage of the pass succeeds on what the stages before it give. *)
Definition valid_run `{torch : Torch} `{espnet : !Espnet}
    (self : VITSGenerator) (a : Fwd.args) (w : world) (t : Run) : Prop :=
  ∃ lx mx bx l,
    Fwd.label_xml a = Some lx ∧
    Fwd.midi_xml a = Some mx ∧
    Fwd.beat_xml a = Some bx ∧
    Fwd.label_xml_lengths a = Some l ∧
    let feats := Fwd.feats a in
    let lengths := heap_after w l (shape2_1 lx) (size3_2 feats) in
    reconcile_xml (Some lx) (Some mx) (Some bx) feats =
      Ok (run_label_xml t, run_midi_xml t, run_beat_xml t) ∧
    text_encoder self (Some (run_label_xml t)) (Some (lengths l))
      (Some (Fwd.ds a)) (Some (run_midi_xml t)) (Some (run_beat_xml t)) (rng w) =
      (Ok (run_x t, run_m_p t, run_logs_p t, run_x_mask t), rng_text_encoder t) ∧
    global_conditioning self (Fwd.sids a) (attr_of (Fwd.spembs a)) (Fwd.lids a)
      (rng_text_encoder t) = (Ok (run_g t), rng_conditioning t) ∧
    positional_encoding (run_x t) = Ok () ∧
    run_feats_lengths t = lengths (Fwd.feats_lengths a) ∧
    posterior_encoder self (Some feats) (Some (run_feats_lengths t))
      (run_g t) (rng_conditioning t) =
      (Ok (run_z t, run_m_q t, run_logs_q t, run_y_mask t), rng_posterior_encoder t) ∧
    flow self (run_z t) (run_y_mask t) (run_g t) false (rng_posterior_encoder t) =
      (Ok (run_z_p t), rng_flow t) ∧
    get_random_segments (run_z t) (run_feats_lengths t)
      (segment_size self) (rng_flow t) =
      (Ok (run_z_segments t, run_z_start_idxs t), rng_segments t) ∧
    decoder self (run_z_segments t) (run_g t) (rng_segments t) =
      (Ok (run_wav t), rng_decoder t).

(** Two generators that differ at most in the parts that serve alignment
    search and duration modelling *)
Definition same_but_alignment_and_duration `{Torch} (self self' : VITSGenerator) : Prop :=
  segment_size self' = segment_size self ∧
  text_encoder self' = text_encoder self ∧
  decoder self' = decoder self ∧
  posterior_encoder self' = posterior_encoder self ∧
  flow self' = flow self ∧
  upsample_factor self' = upsample_factor self ∧
  spks self' = spks self ∧
  global_emb self' = global_emb self ∧
  spk_embed_dim self' = spk_embed_dim self ∧
  spemb_proj self' = spemb_proj self ∧
  langs self' = langs self ∧
  lang_emb self' = lang_emb self.

(** Modelled from the spec: the shape contracts of the sub-networks and of
    [get_random_segments], whose code is in other files.  The decoder
    produces [time * upsample_factor] samples, the factor being the product
    of the configured upsampling scales, on as many channels as it was
    built for; a random segment keeps batch and channels and has the
    segment size as its length; the text encoder gives prior mean and
    log-scale of the hidden width, the posterior encoder gives latent, mean
    and log-scale of its output width, and the flow keeps the shape of what
    it transforms. *)
Definition shape_contracts `{torch : Torch} `{espnet : !Espnet} : Prop :=
  (∀ in_channels out_channels global_channels scales dec,
     HiFiGANGenerator in_channels out_channels global_channels scales = Ok dec →
     ∀ z g r wav r', dec z g r = (Ok wav, r') →
       shape3 wav = (size3_0 z, Z.to_nat out_channels,
                     (size3_2 z * Z.to_nat (list_prod scales))%nat)) ∧
  (∀ z lens S r segs idxs r',
     get_random_segments z lens S r = (Ok (segs, idxs), r') →
     shape3 segs = (size3_0 z, size3_1 z, Z.to_nat S)) ∧
  (∀ vocabs attention_dim midi_dim beat_dim enc,
     TextEncoder vocabs attention_dim midi_dim beat_dim = Ok enc →
     ∀ label lens ds midi beat r x m_p logs_p x_mask r',
       enc label lens ds midi beat r = (Ok (x, m_p, logs_p, x_mask), r') →
       size3_1 m_p = Z.to_nat attention_dim ∧
       size3_1 logs_p = Z.to_nat attention_dim) ∧
  (∀ in_channels out_channels hidden_channels global_channels enc,
     PosteriorEncoder in_channels out_channels hidden_channels global_channels = Ok enc →
     ∀ feats lens g r z m_q logs_q y_mask r',
       enc feats lens g r = (Ok (z, m_q, logs_q, y_mask), r') →
       size3_1 z = Z.to_nat out_channels ∧
       size3_1 m_q = Z.to_nat out_channels ∧
       size3_1 logs_q = Z.to_nat out_channels) ∧
  (∀ in_channels hidden_channels global_channels fl,
     ResidualAffineCouplingBlock in_channels hidden_channels global_channels = Ok fl →
     ∀ z mask g inverse r z' r',
       fl z mask g inverse r = (Ok z', r') → shape3 z' = shape3 z).

(** Some feature that needs global conditioning is configured: more than
    one speaker, a speaker embedding of positive dimension, or more than
    one language. *)
Definition conditioning_configured (cfg : Config.t) : Prop :=
  (∃ n, Config.spks cfg = Some n ∧ 1 < n) ∨
  (∃ n, Config.spk_embed_dim cfg = Some n ∧ 0 < n) ∨
  (∃ n, Config.langs cfg = Some n ∧ 1 < n).

(** The arguments of an inference call with other values for [dur],
    [noise_scale_dur] and [alpha] *)
Definition with_duration_controls `{Torch} (a : Inf.args)
    (dur : option (Tensor3 float)) (noise_scale_dur alpha : float) : Inf.args :=
  {| Inf.text := Inf.text a;
     Inf.text_lengths := Inf.text_lengths a;
     Inf.feats := Inf.feats a;
     Inf.feats_lengths := Inf.feats_lengths a;
     Inf.label_lab := Inf.label_lab a;
     Inf.label_xml := Inf.label_xml a;
     Inf.label_xml_lengths := Inf.label_xml_lengths a;
     Inf.midi_lab := Inf.midi_lab a;
     Inf.midi_xml := Inf.midi_xml a;
     Inf.tempo_lab := Inf.tempo_lab a;
     Inf.tempo_xml := Inf.tempo_xml a;
     Inf.beat_lab := Inf.beat_lab a;
     Inf.beat_xml := Inf.beat_xml a;
     Inf.sids := Inf.sids a;
     Inf.spembs := Inf.spembs a;
     Inf.lids := Inf.lids a;
     Inf.dur := dur;
     Inf.noise_scale := Inf.noise_scale a;
     Inf.noise_scale_dur := noise_scale_dur;
     Inf.alpha := alpha;
     Inf.max_len := Inf.max_len a;
     Inf.use_teacher_forcing := Inf.use_teacher_forcing a |}.

(** [zm] is [z] times a one-channel mask, entry by entry and over the
    whole length of [z]. *)
Definition masked_by `{Torch} (z mask zm : Tensor3 float) : Prop :=
  shape3 zm = shape3 z ∧
  ∀ b c k v mk,
    entry3 z b c k = Some v → entry3 mask b 0%nat k = Some mk →
    entry3 zm b c k = Some (fmul v mk).

(** The sum of the first [i] durations; row [i] of the path matrix; the
    number of ones in a row. *)
Definition cum (d : list Z) (i : nat) : Z := foldr Z.add 0 (take i d).

Definition row3 {A} (t : Tensor3 A) (b i : nat) : option (list A) :=
  data3 t !! b ≫= λ m, m !! i.

Definition count_ones (row : list Z) : nat :=
  length (filter (λ v, v = 1) row).

(** The comparison row [arange(t_y) < c], as numbers *)
Definition step_row (t_y : nat) (c : Z) : list Z :=
  map (λ j, of_bool (bool_decide (Z.of_nat j < c))) (seq 0 t_y).

(** The tensor of comparisons after [view(b, t_x, t_y)] *)
Definition steps (ds : list (list Z)) (t_x t_y : nat) : Tensor3 Z :=
  T3 (length ds, t_x, t_y) (map (λ d, map (step_row t_y) (cumsum_from 0 d)) ds).

(** A value is a float tensor with [H] channels *)
Definition has_channels `{Torch} (H : nat) (v : pyval) : Prop :=
  ∃ t, v = PyTensor (FloatTensor3 t) ∧ size3_1 t = H.

(** ** The instance, continued: one training run and the other inputs *)

Module ToyRun.
Import Toy.

Definition empty3 : Tensor3 (float (Torch := torch)) := T3 (0, 0, 0)%nat [].

Definition empty_run : Run (H := torch) := {|
  run_label_xml := T2 (0, 0)%nat [];
  run_midi_xml := T2 (0, 0)%nat [];
  run_beat_xml := T2 (0, 0)%nat [];
  run_x := empty3;
  run_m_p := empty3;
  run_logs_p := empty3;
  run_x_mask := empty3;
  run_g := None;
  run_feats_lengths := [];
  run_z := empty3;
  run_m_q := empty3;
  run_logs_q := empty3;
  run_y_mask := empty3;
  run_z_p := empty3;
  run_z_segments := empty3;
  run_z_start_idxs := [];
  run_wav := empty3;
  rng_text_encoder := 0%nat;
  rng_conditioning := 0%nat;
  rng_posterior_encoder := 0%nat;
  rng_flow := 0%nat;
  rng_segments := 0%nat;
  rng_decoder := 0%nat
|}.

(** The stages of the pass run one after the other and recorded *)
Definition run_of (self : VITSGenerator (H := torch))
    (a : Fwd.args (H := torch)) (w : world (H := torch))
    : option (Run (H := torch)) :=
  match Fwd.label_xml a, Fwd.label_xml_lengths a with
  | Some lx, Some l =>
    let feats := Fwd.feats a in
    let lengths := heap_after w l (shape2_1 lx) (size3_2 feats) in
    let fl := lengths (Fwd.feats_lengths a) in
    match reconcile_xml (Some lx) (Fwd.midi_xml a) (Fwd.beat_xml a) feats with
    | Ok (lx', mx', bx') =>
      match text_encoder self (Some lx') (Some (lengths l)) (Some (Fwd.ds a))
              (Some mx') (Some bx') (rng w) with
      | (Ok (x, m_p, logs_p, x_mask), r1) =>
        match global_conditioning self (Fwd.sids a) (attr_of (Fwd.spembs a))
                (Fwd.lids a) r1 with
        | (Ok g, r2) =>
          match posterior_encoder self (Some feats) (Some fl) g r2 with
          | (Ok (z, m_q, logs_q, y_mask), r3) =>
            match flow self z y_mask g false r3 with
            | (Ok z_p, r4) =>
              match get_random_segments (Espnet := espnet) z fl
                      (segment_size self) r4 with
              | (Ok (segs, idxs), r5) =>
                match decoder self segs g r5 with
                | (Ok wav, r6) =>
                  Some {| run_label_xml := lx';
                          run_midi_xml := mx';
                          run_beat_xml := bx';
                          run_x := x;
                          run_m_p := m_p;
                          run_logs_p := logs_p;
                          run_x_mask := x_mask;
                          run_g := g;
                          run_feats_lengths := fl;
                          run_z := z;
                          run_m_q := m_q;
                          run_logs_q := logs_q;
                          run_y_mask := y_mask;
                          run_z_p := z_p;
                          run_z_segments := segs;
                          run_z_start_idxs := idxs;
                          run_wav := wav;
                          rng_text_encoder := r1;
                          rng_conditioning := r2;
                          rng_posterior_encoder := r3;
                          rng_flow := r4;
                          rng_segments := r5;
                          rng_decoder := r6 |}
                | _ => None
                end
              | _ => None
              end
            | _ => None
            end
          | _ => None
          end
        | _ => None
        end
      | _ => None
      end
    | _ => None
    end
  | _, _ => None
  end.

Definition run : Run (H := torch) :=
  Eval vm_compute in default empty_run (run_of self args world0).

(** A training call that leaves [midi_xml] at its default *)
Definition args_no_midi : Fwd.args (H := torch) := {|
  Fwd.text := Fwd.text args;
  Fwd.text_lengths := 2%nat;
  Fwd.feats := feats20;
  Fwd.feats_lengths := 1%nat;
  Fwd.ds := Fwd.ds args;
  Fwd.label_lab := None;
  Fwd.label_lab_lengths := None;
  Fwd.label_xml := Some label5;
  Fwd.label_xml_lengths := Some 0%nat;
  Fwd.midi_lab := None;
  Fwd.midi_lab_lengths := None;
  Fwd.midi_xml := None;
  Fwd.midi_xml_lengths := None;
  Fwd.tempo_lab := None;
  Fwd.tempo_lab_lengths := None;
  Fwd.tempo_xml := None;
  Fwd.tempo_xml_lengths := None;
  Fwd.beat_lab := None;
  Fwd.beat_lab_lengths := None;
  Fwd.beat_xml := Some beat5;
  Fwd.beat_xml_lengths := None;
  Fwd.sids := None;
  Fwd.spembs := None;
  Fwd.lids := None
|}.

(** Three speakers, with and without a global channel width *)
Definition cfg_speakers (global_channels : Z) : Config.t := {|
  Config.vocabs := 10;
  Config.midi_dim := 129;
  Config.beat_dim := 128;
  Config.aux_channels := 3;
  Config.hidden_channels := 2;
  Config.spks := Some 3;
  Config.langs := None;
  Config.spk_embed_dim := None;
  Config.global_channels := global_channels;
  Config.segment_size := 4;
  Config.decoder_upsample_scales := [2; 2];
  Config.use_sdp := false
|}.

(** An inference call on the same score, cut to three frames *)
Definition inf_args (use_teacher_forcing : bool) : Inf.args (H := torch) := {|
  Inf.text := Fwd.text args;
  Inf.text_lengths := [5; 3];
  Inf.feats := Some feats20;
  Inf.feats_lengths := Some [20; 12];
  Inf.label_lab := None;
  Inf.label_xml := Some label5;
  Inf.label_xml_lengths := Some [5; 3];
  Inf.midi_lab := None;
  Inf.midi_xml := Some midi5;
  Inf.tempo_lab := None;
  Inf.tempo_xml := None;
  Inf.beat_lab := None;
  Inf.beat_xml := Some beat5;
  Inf.sids := None;
  Inf.spembs := None;
  Inf.lids := None;
  Inf.dur := None;
  Inf.noise_scale := 2;
  Inf.noise_scale_dur := 1;
  Inf.alpha := 1;
  Inf.max_len := Some 3;
  Inf.use_teacher_forcing := use_teacher_forcing
|}.

(** What the toy text encoder gives on that score *)
Definition inf_m_p : Tensor3 (float (Torch := torch)) := channels 2 (data2 midi5) 5.
Definition inf_logs_p : Tensor3 (float (Torch := torch)) := channels 2 (data2 beat5) 5.
Definition inf_x : Tensor3 (float (Torch := torch)) := channels 2 (data2 label5) 5.
Definition inf_x_mask : Tensor3 (float (Torch := torch)) := mask3 5 [5; 3].

(** Durations 2, 2, 1 over three encoder positions *)
Definition dur3 : Tensor3 Z := T3 (1, 1, 3)%nat [[[2; 2; 1]]].

End ToyRun.

(** A computation that writes to no buffer *)
Definition keeps_heap `{Torch} {A} (m : ST world A) : Prop :=
  ∀ w, heap (m w).2 = heap w.

(** ** Vocabulary of the further properties *)

(** Two training calls that agree on the ten arguments [forward] reads *)
Definition same_read_by_forward `{Torch} (a a' : Fwd.args) : Prop :=
  Fwd.feats a' = Fwd.feats a ∧
  Fwd.feats_lengths a' = Fwd.feats_lengths a ∧
  Fwd.ds a' = Fwd.ds a ∧
  Fwd.label_xml a' = Fwd.label_xml a ∧
  Fwd.label_xml_lengths a' = Fwd.label_xml_lengths a ∧
  Fwd.midi_xml a' = Fwd.midi_xml a ∧
  Fwd.beat_xml a' = Fwd.beat_xml a ∧
  Fwd.sids a' = Fwd.sids a ∧
  Fwd.spembs a' = Fwd.spembs a ∧
  Fwd.lids a' = Fwd.lids a.

(** Two inference calls that agree on the score and the conditioning *)
Definition same_score `{Torch} (a a' : Inf.args) : Prop :=
  Inf.label_xml a' = Inf.label_xml a ∧
  Inf.label_xml_lengths a' = Inf.label_xml_lengths a ∧
  Inf.midi_xml a' = Inf.midi_xml a ∧
  Inf.beat_xml a' = Inf.beat_xml a ∧
  Inf.sids a' = Inf.sids a ∧
  Inf.spembs a' = Inf.spembs a ∧
  Inf.lids a' = Inf.lids a.

(** ... and on what the free-running branch reads besides *)
Definition same_for_free_running `{Torch} (a a' : Inf.args) : Prop :=
  same_score a a' ∧
  Inf.noise_scale a' = Inf.noise_scale a ∧
  Inf.max_len a' = Inf.max_len a.

(** ... and on what the teacher-forcing branch reads besides *)
Definition same_for_teacher_forcing `{Torch} (a a' : Inf.args) : Prop :=
  same_score a a' ∧
  Inf.feats a' = Inf.feats a ∧
  Inf.feats_lengths a' = Inf.feats_lengths a.

(** Entries of 2-d and 4-d tensors, and well-formed 4-d tensors *)
Definition entry2 {A} (t : Tensor2 A) (b c : nat) : option A :=
  data2 t !! b ≫= λ r, r !! c.

Definition entry4 {A} (t : Tensor4 A) (b c j i : nat) : option A :=
  data4 t !! b ≫= λ x, x !! c ≫= λ m, m !! j ≫= λ r, r !! i.

Definition wf4 {A} (t : Tensor4 A) : Prop :=
  length (data4 t) = (shape4 t).1.1.1 ∧
  Forall (λ x, length x = (shape4 t).1.1.2 ∧
    Forall (λ m, length m = (shape4 t).1.2 ∧
      Forall (λ r, length r = (shape4 t).2) m) x) (data4 t).

(** The number of entries of a 3-d tensor, by its shape *)
Definition numel3 {A} (t : Tensor3 A) : nat :=
  (size3_0 t * size3_1 t * size3_2 t)%nat.

(** No feature that needs global conditioning is configured: every count
    is absent or at most its least value. *)
Definition no_conditioning (cfg : Config.t) : Prop :=
  (∀ n, Config.spks cfg = Some n → n ≤ 1) ∧
  (∀ n, Config.spk_embed_dim cfg = Some n → n ≤ 0) ∧
  (∀ n, Config.langs cfg = Some n → n ≤ 1).

(** An attribute and its layer are set together: the attribute [None] and
    no layer assigned, or a count above [least] with the layer [make]
    builds for it. *)
Definition paired {L} (attr : option Z) (layer : option L) (configured : option Z)
    (least : Z) (make : Z → L) : Prop :=
  match attr with
  | Some n => configured = Some n ∧ least < n ∧ layer = Some (make n)
  | None => layer = None ∧ ∀ n, configured = Some n → n ≤ least
  end.


(** The value of the path at token [i] and frame [j] for the durations
    [d] of one batch entry: the difference of two steps.  It is 1 on the
    frames from the running sum before token [i] up to the running sum
    after it, and -1 on the frames between the two sums when the second
    is the smaller. *)
Definition path_value (d : list Z) (i j : nat) : Z :=
  of_bool (bool_decide (Z.of_nat j < cum d (S i))) -
  of_bool (bool_decide (Z.of_nat j < cum d i)).

(** A running sum cut to the frames that exist *)
Definition clip (t_y : nat) (c : Z) : Z := Z.max 0 (Z.min c (Z.of_nat t_y)).


(** The arguments of an inference call with another value for [max_len] *)
Definition with_max_len `{Torch} (a : Inf.args) (max_len : option Z) : Inf.args :=
  {| Inf.text := Inf.text a;
     Inf.text_lengths := Inf.text_lengths a;
     Inf.feats := Inf.feats a;
     Inf.feats_lengths := Inf.feats_lengths a;
     Inf.label_lab := Inf.label_lab a;
     Inf.label_xml := Inf.label_xml a;
     Inf.label_xml_lengths := Inf.label_xml_lengths a;
     Inf.midi_lab := Inf.midi_lab a;
     Inf.midi_xml := Inf.midi_xml a;
     Inf.tempo_lab := Inf.tempo_lab a;
     Inf.tempo_xml := Inf.tempo_xml a;
     Inf.beat_lab := Inf.beat_lab a;
     Inf.beat_xml := Inf.beat_xml a;
     Inf.sids := Inf.sids a;
     Inf.spembs := Inf.spembs a;
     Inf.lids := Inf.lids a;
     Inf.dur := Inf.dur a;
     Inf.noise_scale := Inf.noise_scale a;
     Inf.noise_scale_dur := Inf.noise_scale_dur a;
     Inf.alpha := Inf.alpha a;
     Inf.max_len := max_len;
     Inf.use_teacher_forcing := Inf.use_teacher_forcing a |}.


(** More inputs for the instance *)
Module ToyMore.
Import Toy ToyRun.

(** The training call of [Toy.args] with other values for the arguments
    that are not read *)
Definition args_other_text : Fwd.args (H := torch) := {|
  Fwd.text := T2 (1%nat, 1%nat) [[9]];
  Fwd.text_lengths := 5%nat;
  Fwd.feats := feats20;
  Fwd.feats_lengths := 1%nat;
  Fwd.ds := Fwd.ds args;
  Fwd.label_lab := Some midi5;
  Fwd.label_lab_lengths := Some 3%nat;
  Fwd.label_xml := Some label5;
  Fwd.label_xml_lengths := Some 0%nat;
  Fwd.midi_lab := Some beat5;
  Fwd.midi_lab_lengths := Some 4%nat;
  Fwd.midi_xml := Some midi5;
  Fwd.midi_xml_lengths := Some 1%nat;
  Fwd.tempo_lab := Some label5;
  Fwd.tempo_lab_lengths := None;
  Fwd.tempo_xml := Some label5;
  Fwd.tempo_xml_lengths := Some 2%nat;
  Fwd.beat_lab := None;
  Fwd.beat_lab_lengths := Some 0%nat;
  Fwd.beat_xml := Some beat5;
  Fwd.beat_xml_lengths := Some 0%nat;
  Fwd.sids := None;
  Fwd.spembs := None;
  Fwd.lids := None
|}.

(** An inference call without features, with other noise scale and cap *)
Definition inf_args_no_feats (use_teacher_forcing : bool) (noise_scale : Z)
    (max_len : option Z) : Inf.args (H := torch) := {|
  Inf.text := T2 (1%nat, 1%nat) [[9]];
  Inf.text_lengths := [];
  Inf.feats := if use_teacher_forcing then Some feats20 else None;
  Inf.feats_lengths := if use_teacher_forcing then Some [20; 12] else None;
  Inf.label_lab := Some midi5;
  Inf.label_xml := Some label5;
  Inf.label_xml_lengths := Some [5; 3];
  Inf.midi_lab := None;
  Inf.midi_xml := Some midi5;
  Inf.tempo_lab := None;
  Inf.tempo_xml := Some beat5;
  Inf.beat_lab := None;
  Inf.beat_xml := Some beat5;
  Inf.sids := None;
  Inf.spembs := None;
  Inf.lids := None;
  Inf.dur := None;
  Inf.noise_scale := noise_scale;
  Inf.noise_scale_dur := 3;
  Inf.alpha := 2;
  Inf.max_len := max_len;
  Inf.use_teacher_forcing := use_teacher_forcing
|}.

(** The generator of [Toy.self] with a text encoder of the given width *)
Definition self_width (width : Z) : VITSGenerator (H := torch) := {|
  segment_size := 4;
  text_encoder := toy_text_encoder width;
  decoder := toy_decoder 1 [2; 2];
  posterior_encoder := toy_posterior_encoder 2;
  flow := toy_flow;
  project := project self;
  use_sdp := false;
  duration_predictor := duration_predictor self;
  lr := lr self;
  upsample_factor := 4;
  spks := None;
  global_emb := None;
  spk_embed_dim := None;
  spemb_proj := None;
  langs := None;
  lang_emb := None;
  maximum_path := maximum_path self
|}.

(** A generator with the three conditioning features: 3 speakers, speaker
    embeddings of dimension 2, 2 languages, global width 2 *)
Definition self_cond : VITSGenerator (H := torch) := {|
  segment_size := 4;
  text_encoder := toy_text_encoder 2;
  decoder := toy_decoder 1 [2; 2];
  posterior_encoder := toy_posterior_encoder 2;
  flow := toy_flow;
  project := project self;
  use_sdp := false;
  duration_predictor := duration_predictor self;
  lr := lr self;
  upsample_factor := 4;
  spks := Some 3;
  global_emb := Some (Embedding_call (Torch := torch) 3 2);
  spk_embed_dim := Some 2;
  spemb_proj := Some (Linear_call (Torch := torch) 2 2);
  langs := Some 2;
  lang_emb := Some (Embedding_call (Torch := torch) 2 2);
  maximum_path := maximum_path self
|}.

Definition sids2 : IndexTensor := Index1 [0; 2].
Definition lids2 : IndexTensor := Index2 (T2 (2%nat, 1%nat) [[1]; [0]]).
Definition spembs2 : Tensor2 (float (Torch := torch)) :=
  T2 (2%nat, 2%nat) [[1; 2]; [3; 4]].

(** One speaker only, and a non-positive global width *)
Definition cfg_single_speaker : Config.t := {|
  Config.vocabs := 10;
  Config.midi_dim := 129;
  Config.beat_dim := 128;
  Config.aux_channels := 3;
  Config.hidden_channels := 2;
  Config.spks := Some 1;
  Config.langs := Some 0;
  Config.spk_embed_dim := Some 0;
  Config.global_channels := -1;
  Config.segment_size := 4;
  Config.decoder_upsample_scales := [2; 2];
  Config.use_sdp := true
|}.

(** Upsampling scales whose product does not fit 64 bits *)
Definition cfg_scales (scales : list Z) : Config.t := {|
  Config.vocabs := 10;
  Config.midi_dim := 129;
  Config.beat_dim := 128;
  Config.aux_channels := 3;
  Config.hidden_channels := 2;
  Config.spks := None;
  Config.langs := None;
  Config.spk_embed_dim := None;
  Config.global_channels := -1;
  Config.segment_size := 4;
  Config.decoder_upsample_scales := scales;
  Config.use_sdp := false
|}.

(** A label stream as long as the 20 feature frames, next to the midi and
    beat streams of width 5; and the three streams all of width 20 *)
Definition label20 : Tensor2 Z := T2 (2%nat, 20%nat) (replicate 2 (replicate 20 1)).
Definition midi20 : Tensor2 Z := T2 (2%nat, 20%nat) (replicate 2 (replicate 20 60)).
Definition beat20 : Tensor2 Z := T2 (2%nat, 20%nat) (replicate 2 (replicate 20 2)).

Definition args_streams (label midi beat : Tensor2 Z) : Fwd.args (H := torch) := {|
  Fwd.text := Fwd.text args;
  Fwd.text_lengths := 2%nat;
  Fwd.feats := feats20;
  Fwd.feats_lengths := 1%nat;
  Fwd.ds := Fwd.ds args;
  Fwd.label_lab := None;
  Fwd.label_lab_lengths := None;
  Fwd.label_xml := Some label;
  Fwd.label_xml_lengths := Some 0%nat;
  Fwd.midi_lab := None;
  Fwd.midi_lab_lengths := None;
  Fwd.midi_xml := Some midi;
  Fwd.midi_xml_lengths := None;
  Fwd.tempo_lab := None;
  Fwd.tempo_lab_lengths := None;
  Fwd.tempo_xml := None;
  Fwd.tempo_xml_lengths := None;
  Fwd.beat_lab := None;
  Fwd.beat_lab_lengths := None;
  Fwd.beat_xml := Some beat;
  Fwd.beat_xml_lengths := None;
  Fwd.sids := None;
  Fwd.spembs := None;
  Fwd.lids := None
|}.

(** Durations with a negative entry (running sums 3, 2, 4), durations
    whose total 7 exceeds five frames, the durations of [dur3] laid out
    as (1, 3, 1), and two entries only *)
Definition dur_negative : Tensor3 Z := T3 (1, 1, 3)%nat [[[3; -1; 2]]].
Definition dur_long : Tensor3 Z := T3 (1, 1, 3)%nat [[[2; 2; 3]]].
Definition dur_column : Tensor3 Z := T3 (1, 3, 1)%nat [[[2]; [2]; [1]]].
Definition dur_short : Tensor3 Z := T3 (1, 1, 2)%nat [[[2; 2]]].

(** A mask of shape (1, 2, 4, 3): channel 0 open, channel 1 closed *)
Definition mask_open_closed : Tensor4 Z :=
  T4 (1, 2, 4, 3)%nat
     [[replicate 4 (replicate 3 1); replicate 4 (replicate 3 0)]].

(** A label stream of width 25, longer than the 20 feature frames *)
Definition label25 : Tensor2 Z := T2 (2%nat, 25%nat) (replicate 2 (replicate 25 1)).

(** The prior mean in the value [forward] returns: the third item of the
    latent tuple *)
Definition returned_m_p (out : result (pyval (H := torch)) * world (H := torch))
    : option (Tensor3 Z) :=
  match out.1 with
  | Ok (PyTuple [_; _; _; _; PyTuple (_ :: _ :: PyTensor (FloatTensor3 m_p) :: _)]) =>
      Some m_p
  | _ => None
  end.

End ToyMore.

Section Properties.
Context `{torch : Torch} `{espnet : !Espnet}.

(** *** The monad *)

Lemma bind_Ok {S A B} (m : ST S A) (f : A → ST S B) s a s' :
  m s = (Ok a, s') → (m ≫= f) s = f a s'.
Proof. intros E. unfold mbind, ST_bind. by rewrite E. Qed.

Lemma bind_Raise {S A B} (m : ST S A) (f : A → ST S B) s e s' :
  m s = (Raise e, s') → (m ≫= f) s = (Raise e, s').
Proof. intros E. unfold mbind, ST_bind. by rewrite E. Qed.

Lemma lift_result_Ok {S A} (a : A) (s : S) : lift_result (Ok a) s = (Ok a, s).
Proof. done. Qed.

(** *** Padding and truncation of one stream *)

Lemma wf2_width {A} (t : Tensor2 A) r :
  wf2 t → r ∈ data2 t → length r = shape2_1 t.
Proof.
  intros [_ Hrows] Hin. rewrite list.Forall_forall in Hrows.
  unfold shape2_1. by apply Hrows.
Qed.

Lemma pad_row_grow {A} (v : A) (n : nat) r :
  pad_row v (Z.of_nat n) r = r ++ replicate n v.
Proof.
  unfold pad_row. case_decide; [|lia]. by rewrite Nat2Z.id.
Qed.

Lemma pad_row_shrink {A} (v : A) (k : Z) (T : nat) r :
  k < 0 → Z.of_nat (length r) + k = Z.of_nat T → pad_row v k r = take T r.
Proof.
  intros Hk HT. unfold pad_row. case_decide; [lia|].
  by rewrite HT, Nat2Z.id.
Qed.

(** [F.pad] with the amount [T - width] always succeeds and yields width
    [T]: it appends zeros to a narrower tensor and crops a wider one. *)
Lemma F_pad_to_width (T : nat) (t : Tensor2 Z) :
  wf2 t →
  ∃ t', F_pad 0 t (Z.of_nat T - Z.of_nat (shape2_1 t)) = Ok t' ∧
        shape2 t' = ((shape2 t).1, T) ∧ wf2 t' ∧
        ((shape2_1 t ≤ T)%nat →
           data2 t' = map (λ r, r ++ replicate (T - shape2_1 t) 0) (data2 t)) ∧
        ((T < shape2_1 t)%nat → data2 t' = map (take T) (data2 t)).
Proof.
  intros Hwf. unfold F_pad, shape2_1 in *.
  case_decide; [lia|]. eexists. split; [done|]. cbn.
  replace (Z.to_nat (Z.of_nat (shape2 t).2 + (Z.of_nat T - Z.of_nat (shape2 t).2)))
    with T by lia.
  split; [done|].
  assert (Hrow : ∀ r, r ∈ data2 t →
            length (pad_row 0 (Z.of_nat T - Z.of_nat (shape2 t).2) r) = T).
  { intros r Hr. pose proof (wf2_width t r Hwf Hr) as Hl. unfold shape2_1 in Hl.
    destruct (decide ((shape2 t).2 ≤ T)%nat).
    - replace (Z.of_nat T - Z.of_nat (shape2 t).2) with (Z.of_nat (T - (shape2 t).2)) by lia.
      rewrite pad_row_grow, length_app, length_replicate. lia.
    - rewrite (pad_row_shrink _ _ T) by lia. rewrite length_take. lia. }
  split; [|split].
  - destruct Hwf as [Hlen _]. split; cbn.
    + by rewrite length_map.
    + apply Forall_map, list.Forall_forall. intros r Hr. by apply Hrow.
  - intros Hle. apply map_ext_in. intros r Hr%list_elem_of_In.
    replace (Z.of_nat T - Z.of_nat (shape2 t).2) with (Z.of_nat (T - (shape2 t).2)) by lia.
    apply pad_row_grow.
  - intros Hlt. apply map_ext_in. intros r Hr%list_elem_of_In.
    pose proof (wf2_width t r Hwf Hr) as Hl. unfold shape2_1 in Hl.
    apply pad_row_shrink; lia.
Qed.

Lemma F_pad_to_width_any (T : nat) (t : Tensor2 Z) :
  ∃ t', F_pad 0 t (Z.of_nat T - Z.of_nat (shape2_1 t)) = Ok t'.
Proof. unfold F_pad, shape2_1. case_decide; [lia|]. by eexists. Qed.

Lemma slice_cols_wide (T : nat) (t : Tensor2 Z) :
  wf2 t → (T ≤ shape2_1 t)%nat →
  shape2 (slice_cols t T) = ((shape2 t).1, T) ∧ wf2 (slice_cols t T) ∧
  data2 (slice_cols t T) = map (take T) (data2 t).
Proof.
  intros Hwf Hle. unfold slice_cols, shape2_1 in *. cbn.
  rewrite Nat.min_l by done. split; [done|]. split; [|done].
  destruct Hwf as [Hlen Hrows]. split; cbn.
  - by rewrite length_map.
  - apply Forall_map. eapply list.Forall_impl; [exact Hrows|].
    intros r Hr. cbn in *. rewrite length_take. lia.
Qed.

Lemma reconciled_to_pad (T : nat) (t t' : Tensor2 Z) :
  wf2 t → F_pad 0 t (Z.of_nat T - Z.of_nat (shape2_1 t)) = Ok t' →
  reconciled_to T t t'.
Proof.
  intros Hwf Hpad.
  destruct (F_pad_to_width T t Hwf) as (t'' & E & Hs & Hw & Hgrow & Hcut).
  rewrite E in Hpad. injection Hpad as <-.
  repeat split; try done; try apply Hw.
  intros ?. apply Hgrow. lia.
Qed.

Lemma reconciled_to_slice (T : nat) (t : Tensor2 Z) :
  wf2 t → (T ≤ shape2_1 t)%nat → reconciled_to T t (slice_cols t T).
Proof.
  intros Hwf Hle. destruct (slice_cols_wide T t Hwf Hle) as (Hs & Hw & Hd).
  repeat split; try done; try apply Hw. lia.
Qed.

(** *** The length-correction loop *)

Lemma correct_length_at_run lx l feats i w v :
  heap w l !! i = Some v →
  ∃ w', correct_length_at (Some lx) l feats i w = (Ok (), w') ∧
        rng w' = rng w ∧
        (∀ l', l' ≠ l → heap w' l' = heap w l') ∧
        heap w' l = <[i := if decide (v = Z.of_nat (shape2_1 lx))
                           then Z.of_nat (size3_2 feats) else v]> (heap w l).
Proof.
  intros Hv. unfold correct_length_at.
  rewrite (bind_Ok _ _ w v w) by (unfold read_item; by rewrite Hv).
  rewrite (bind_Ok _ _ w lx w) by done.
  case_decide as Heq.
  - unfold write_item. case_decide as Hlt.
    + eexists. split; [done|]. cbn. split; [done|]. split.
      * intros l' Hne. by rewrite fn_lookup_insert_ne.
      * by rewrite fn_lookup_insert.
    + apply lookup_lt_Some in Hv. lia.
  - exists w. split; [done|]. split; [done|]. split; [done|].
    by rewrite list_insert_id.
Qed.

Lemma correct_loop_run lx l feats n : ∀ i w,
  (i + n = length (heap w l))%nat →
  ∃ w', for_each (seq i n) (correct_length_at (Some lx) l feats) w = (Ok (), w') ∧
        rng w' = rng w ∧
        (∀ l', l' ≠ l → heap w' l' = heap w l') ∧
        heap w' l = take i (heap w l) ++
                    corrected (shape2_1 lx) (size3_2 feats) (drop i (heap w l)).
Proof.
  induction n as [|n IH]; intros i w Hlen; cbn [seq for_each].
  - exists w. split; [done|]. split; [done|]. split; [done|].
    rewrite drop_ge by lia. rewrite take_ge by lia. cbn. by rewrite app_nil_r.
  - destruct (lookup_lt_is_Some_2 (heap w l) i) as [v Hv]; [lia|].
    destruct (correct_length_at_run lx l feats i w v Hv) as (w1 & E1 & Hr1 & Hf1 & Hh1).
    rewrite (bind_Ok _ _ w () w1 E1).
    destruct (IH (S i) w1) as (w' & E & Hr & Hf & Hh).
    { rewrite Hh1, length_insert. lia. }
    exists w'. split; [done|]. split; [congruence|]. split.
    { intros l' Hne. rewrite Hf, Hf1; done. }
    rewrite Hh, Hh1.
    set (v' := if decide (v = Z.of_nat (shape2_1 lx))
               then Z.of_nat (size3_2 feats) else v).
    assert (Hv' : <[i:=v']> (heap w l) !! i = Some v')
      by (apply list_lookup_insert_eq; lia).
    rewrite (take_S_r _ _ _ Hv'), take_insert_ge by lia.
    rewrite drop_insert_lt by lia.
    rewrite (drop_S _ _ _ Hv). unfold corrected. cbn [map].
    by rewrite <- app_assoc.
Qed.

Lemma correct_lengths_run lx l feats w :
  ∃ w', correct_lengths (Some lx) (Some l) feats w = (Ok (), w') ∧
        lengths_corrected w w' l (shape2_1 lx) (size3_2 feats).
Proof.
  unfold correct_lengths.
  rewrite (bind_Ok _ _ w l w) by done.
  rewrite (bind_Ok _ _ w (heap w l) w) by done.
  destruct (correct_loop_run lx l feats (length (heap w l)) 0%nat w)
    as (w' & E & Hr & Hf & Hh); [done|].
  exists w'. split; [done|]. split; [done|]. split; [|done].
  by rewrite Hh, take_0, drop_0.
Qed.

(** *** Lines 368-390 on present streams *)

Lemma reconcile_xml_Ok lx mx bx feats :
  ∃ out, reconcile_xml (Some lx) (Some mx) (Some bx) feats = Ok out.
Proof.
  unfold reconcile_xml. cbn. case_decide; [|by eexists].
  unfold F_pad, shape2_1. repeat (case_decide; [lia|]). cbn. by eexists.
Qed.

Lemma reconcile_xml_present lx mx bx feats :
  wf2 lx → wf2 mx → wf2 bx →
  (shape2_1 lx < size3_2 feats)%nat ∨
    ((size3_2 feats ≤ shape2_1 mx)%nat ∧ (size3_2 feats ≤ shape2_1 bx)%nat) →
  ∃ lx' mx' bx',
    reconcile_xml (Some lx) (Some mx) (Some bx) feats = Ok (lx', mx', bx') ∧
    reconciled_to (size3_2 feats) lx lx' ∧
    reconciled_to (size3_2 feats) mx mx' ∧
    reconciled_to (size3_2 feats) bx bx'.
Proof.
  intros Hl Hm Hb Hw. unfold reconcile_xml. cbn. case_decide as Hlt.
  - destruct (F_pad_to_width (size3_2 feats) lx Hl) as (lx' & El & _).
    destruct (F_pad_to_width (size3_2 feats) mx Hm) as (mx' & Emx & _).
    destruct (F_pad_to_width (size3_2 feats) bx Hb) as (bx' & Ebx & _).
    rewrite El. cbn. rewrite Emx. cbn. rewrite Ebx. cbn.
    exists lx', mx', bx'. split; [done|].
    split; [|split]; by apply reconciled_to_pad.
  - destruct Hw as [?|[Hmw Hbw]]; [lia|].
    eexists _, _, _. split; [done|].
    split; [|split]; apply reconciled_to_slice; try done; lia.
Qed.

(** In the slicing branch a stream narrower than the features is left as
    it is: the hypothesis on the widths above cannot be dropped. *)
Lemma reconcile_xml_narrow_midi lx mx bx feats :
  (size3_2 feats ≤ shape2_1 lx)%nat → (shape2_1 mx < size3_2 feats)%nat →
  ∃ lx' mx' bx',
    reconcile_xml (Some lx) (Some mx) (Some bx) feats = Ok (lx', mx', bx') ∧
    shape2_1 mx' = shape2_1 mx.
Proof.
  intros Hl Hm. unfold reconcile_xml. cbn. rewrite decide_False by lia.
  eexists _, _, _. split; [done|]. unfold slice_cols, shape2_1 in *. cbn. lia.
Qed.

(** *** What [forward_tail] leaves alone *)

Lemma keeps_heap_bind {A B} (m : ST world A) (f : A → ST world B) :
  keeps_heap m → (∀ a, keeps_heap (f a)) → keeps_heap (m ≫= f).
Proof.
  intros Hm Hf w. unfold mbind, ST_bind. specialize (Hm w).
  destruct (m w) as [[a|e] w1]; cbn in *; [|done].
  by rewrite Hf.
Qed.

Lemma keeps_heap_net {A} (m : Net A) : keeps_heap (net m).
Proof. intros w. unfold net. by destruct (m (rng w)). Qed.

Lemma keeps_heap_lift {A} (r : result A) : keeps_heap (lift_result r).
Proof. by intros w. Qed.

Lemma keeps_heap_ret {A} (a : A) : keeps_heap (mret a).
Proof. by intros w. Qed.

Lemma keeps_heap_read l : keeps_heap (read_buffer l).
Proof. by intros w. Qed.

Lemma keeps_heap_contents o : keeps_heap (contents o).
Proof. by intros w. Qed.

Lemma forward_tail_keeps_heap self a lx mx bx :
  keeps_heap (forward_tail self a lx mx bx).
Proof.
  unfold forward_tail.
  repeat first
    [ apply keeps_heap_net | apply keeps_heap_lift | apply keeps_heap_ret
    | apply keeps_heap_read | apply keeps_heap_contents
    | apply keeps_heap_bind; [|intros; repeat case_match] ].
Qed.

(** [forward] on present label stream and lengths: the loop runs to its
    end and the pass continues, or fails, on the corrected heap. *)
Lemma forward_after_loop self a w lx l :
  Fwd.label_xml a = Some lx → Fwd.label_xml_lengths a = Some l →
  ∃ w1, lengths_corrected w w1 l (shape2_1 lx) (size3_2 (Fwd.feats a)) ∧
        forward self a w =
          ('(lx', mx', bx') ← lift_result
             (reconcile_xml (Some lx) (Fwd.midi_xml a) (Fwd.beat_xml a)
                (Fwd.feats a));
           forward_tail self a lx' mx' bx') w1.
Proof.
  intros Hlx Hl.
  destruct (correct_lengths_run lx l (Fwd.feats a) w) as (w1 & E & Hc).
  exists w1. split; [done|]. unfold forward. rewrite Hlx, Hl.
  by rewrite (bind_Ok _ _ w () w1 E).
Qed.

(** *** Claims about lines 365-390 *)

(** C1 (amended). In the training-forward pass, when the label stream is
    narrower than the features or the midi and beat streams are at least
    as wide as the features, the three xml streams are brought to the
    feature length before the text encoder runs: a stream narrower than
    the features gets zeros appended on the right, a wider one is cut on
    the right; and every declared length that equals the padded width of
    the label stream is replaced by the feature length.  The condition is
    needed: the width of the label stream alone decides between padding
    and slicing for all three, and slicing leaves a narrower stream as it
    is.  Streams that share their padded width always meet the condition.
    (The statement also covers a label width equal to the feature length,
    where nothing changes.) *)
Theorem C1_xml_streams_reconciled self a w lx mx bx l :
  Fwd.label_xml a = Some lx →
  Fwd.midi_xml a = Some mx →
  Fwd.beat_xml a = Some bx →
  Fwd.label_xml_lengths a = Some l →
  wf2 lx → wf2 mx → wf2 bx →
  (shape2_1 lx < size3_2 (Fwd.feats a))%nat ∨
    ((size3_2 (Fwd.feats a) ≤ shape2_1 mx)%nat ∧
     (size3_2 (Fwd.feats a) ≤ shape2_1 bx)%nat) →
  ∃ lx' mx' bx' w1,
    forward self a w = forward_tail self a lx' mx' bx' w1 ∧
    reconciled_to (size3_2 (Fwd.feats a)) lx lx' ∧
    reconciled_to (size3_2 (Fwd.feats a)) mx mx' ∧
    reconciled_to (size3_2 (Fwd.feats a)) bx bx' ∧
    ∀ i, heap w l !! i = Some (Z.of_nat (shape2_1 lx)) →
         heap w1 l !! i = Some (Z.of_nat (size3_2 (Fwd.feats a))).
Proof.
  intros Hlx Hmx Hbx Hl Wl Wm Wb Hw.
  destruct (forward_after_loop self a w lx l Hlx Hl) as (w1 & (_ & Hh & _) & E).
  destruct (reconcile_xml_present lx mx bx (Fwd.feats a) Wl Wm Wb Hw)
    as (lx' & mx' & bx' & Er & Rl & Rm & Rb).
  exists lx', mx', bx', w1. rewrite E, Hmx, Hbx.
  split; [by rewrite (bind_Ok _ _ w1 _ w1 (f_equal (λ r, (r, w1)) Er))|].
  do 3 (split; [done|]).
  intros i Hi. rewrite Hh. unfold corrected.
  rewrite list_lookup_fmap, Hi. cbn. by rewrite decide_True.
Qed.

(** C8. [forward] writes to the caller's [label_xml_lengths] buffer in
    place: when the pass reaches the text encoder, every entry equal to the
    padded width of [label_xml] holds the feature length, the buffer the
    caller sees after the call holds exactly these contents whether the
    call returns or raises, and every other buffer is as it was. *)
Theorem C8_label_xml_lengths_mutated self a w lx l :
  Fwd.label_xml a = Some lx →
  Fwd.label_xml_lengths a = Some l →
  (∃ w1, heap w1 l =
           corrected (shape2_1 lx) (size3_2 (Fwd.feats a)) (heap w l) ∧
         forward self a w =
           ('(lx', mx', bx') ← lift_result
              (reconcile_xml (Some lx) (Fwd.midi_xml a) (Fwd.beat_xml a)
                 (Fwd.feats a));
            forward_tail self a lx' mx' bx') w1) ∧
  heap (forward self a w).2 l =
    corrected (shape2_1 lx) (size3_2 (Fwd.feats a)) (heap w l) ∧
  ∀ l', l' ≠ l → heap (forward self a w).2 l' = heap w l'.
Proof.
  intros Hlx Hl.
  destruct (forward_after_loop self a w lx l Hlx Hl) as (w1 & (_ & Hh & Hf) & E).
  split; [by exists w1|].
  assert (K : keeps_heap
            ('(lx', mx', bx') ← lift_result
               (reconcile_xml (Some lx) (Fwd.midi_xml a) (Fwd.beat_xml a)
                  (Fwd.feats a));
             forward_tail self a lx' mx' bx')).
  { apply keeps_heap_bind; [apply keeps_heap_lift|].
    intros [[lx' mx'] bx']. apply forward_tail_keeps_heap. }
  rewrite E, (K w1). split; [done|]. exact Hf.
Qed.

(** The loop met with an absent [label_xml] raises at its first round. *)
Lemma correct_lengths_absent_label l feats w :
  (correct_lengths None (Some l) feats w).1 = Ok () ∧
    (correct_lengths None (Some l) feats w).2 = w ∨
  (correct_lengths None (Some l) feats w).1 = Raise AttributeError.
Proof.
  unfold correct_lengths.
  rewrite (bind_Ok _ _ w l w) by done.
  rewrite (bind_Ok _ _ w (heap w l) w) by done.
  destruct (heap w l) as [|v buf] eqn:Hbuf; [by left|right].
  cbn [length seq for_each].
  assert (E : correct_length_at None l feats 0 w = (Raise AttributeError, w)).
  { unfold correct_length_at.
    rewrite (bind_Ok _ _ w v w) by (unfold read_item; by rewrite Hbuf).
    done. }
  by rewrite (bind_Raise _ _ w _ w E).
Qed.

(** C9. The four xml arguments default to [None], yet [forward] iterates
    over the lengths and reads the shape of, pads or slices the streams
    without a test: with any of them absent the call raises a [TypeError]
    or an [AttributeError] and returns nothing. *)
Theorem C9_absent_xml_argument_raises self a w :
  Fwd.label_xml a = None ∨ Fwd.label_xml_lengths a = None ∨
  Fwd.midi_xml a = None ∨ Fwd.beat_xml a = None →
  (forward self a w).1 = Raise TypeError ∨
  (forward self a w).1 = Raise AttributeError.
Proof.
  intros Habsent.
  destruct (Fwd.label_xml_lengths a) as [l|] eqn:Hl; cycle 1.
  { left. unfold forward. by rewrite Hl. }
  destruct (Fwd.label_xml a) as [lx|] eqn:Hlx; cycle 1.
  { right. unfold forward. rewrite Hl, Hlx.
    destruct (correct_lengths_absent_label l (Fwd.feats a) w) as [[E1 E2]|E].
    - unfold mbind at 1, ST_bind.
      destruct (correct_lengths None (Some l) (Fwd.feats a) w) as [r w1].
      cbn in E1, E2. by subst.
    - unfold mbind at 1, ST_bind.
      destruct (correct_lengths None (Some l) (Fwd.feats a) w) as [r w1].
      cbn in E. by subst. }
  destruct (forward_after_loop self a w lx l Hlx Hl) as (w1 & _ & E).
  rewrite E. clear E.
  assert (Hmb : Fwd.midi_xml a = None ∨
                (∃ mx, Fwd.midi_xml a = Some mx) ∧ Fwd.beat_xml a = None).
  { destruct (Fwd.midi_xml a); [|by left]. right. split; [by eexists|].
    destruct Habsent as [?|[?|[?|?]]]; done. }
  unfold reconcile_xml. cbn [attr_of mbind result_bind].
  case_decide as Hlt.
  - right.
    destruct (F_pad_to_width_any (size3_2 (Fwd.feats a)) lx) as (lx' & ->).
    destruct Hmb as [->|[[mx ->] ->]]; [done|]. cbn.
    by destruct (F_pad_to_width_any (size3_2 (Fwd.feats a)) mx) as (mx' & ->).
  - left. by destruct Hmb as [->|[[mx ->] ->]].
Qed.

(** *** The whole training pass *)

Lemma net_Ok {A} (m : Net A) w a r' :
  m (rng w) = (Ok a, r') → net m w = (Ok a, World (heap w) r').
Proof. intros E. unfold net. by rewrite E. Qed.

Lemma lengths_corrected_heap_after w w1 l W T :
  lengths_corrected w w1 l W T → ∀ l', heap w1 l' = heap_after w l W T l'.
Proof.
  intros (_ & Hh & Hf) l'. unfold heap_after.
  destruct (decide (l' = l)) as [->|Hne].
  - by rewrite fn_lookup_insert.
  - rewrite fn_lookup_insert_ne by done. by apply Hf.
Qed.

Lemma forward_returns self a w t :
  valid_run self a w t →
  ∃ w',
    forward self a w =
      (Ok (PyTuple
         [ PyTensor (FloatTensor3 (run_wav t));
           PyTensor (IntTensor1 (run_z_start_idxs t));
           PyTensor (FloatTensor3 (run_x_mask t));
           PyTensor (FloatTensor3 (run_y_mask t));
           PyTuple
             [ PyTensor (FloatTensor3 (run_z t));
               PyTensor (FloatTensor3 (run_z_p t));
               PyTensor (FloatTensor3 (run_m_p t));
               PyTensor (FloatTensor3 (run_logs_p t));
               PyTensor (FloatTensor3 (run_m_q t));
               PyTensor (FloatTensor3 (run_logs_q t)) ] ]), w') ∧
    rng w' = rng_decoder t.
Proof.
  intros (lx & mx & bx & l & Hlx & Hmx & Hbx & Hl &
          Hrec & Henc & Hg & Hpe & Hlens & Hpost & Hflow & Hseg & Hdec).
  destruct (forward_after_loop self a w lx l Hlx Hl) as (w1 & Hc & E).
  pose proof (lengths_corrected_heap_after _ _ _ _ _ Hc) as Hheap.
  destruct Hc as (Hr & _ & _).
  rewrite E, Hmx, Hbx, Hrec. clear E.
  rewrite (bind_Ok _ _ w1 _ w1 (lift_result_Ok _ _)).
  unfold forward_tail. rewrite Hl.
  rewrite (bind_Ok _ _ w1 (Some (heap w1 l)) w1) by done.
  rewrite Hheap.
  erewrite bind_Ok; [|apply net_Ok; rewrite Hr; exact Henc]. cbv beta iota.
  erewrite bind_Ok; [|apply net_Ok; exact Hg]. cbv beta iota.
  erewrite bind_Ok; [|rewrite Hpe; apply lift_result_Ok].
  erewrite bind_Ok; [|reflexivity]. cbn [heap rng].
  rewrite Hheap, <- Hlens.
  erewrite bind_Ok; [|apply net_Ok; exact Hpost]. cbv beta iota.
  erewrite bind_Ok; [|apply net_Ok; exact Hflow]. cbv beta iota.
  erewrite bind_Ok; [|apply net_Ok; exact Hseg]. cbv beta iota.
  erewrite bind_Ok; [|apply net_Ok; exact Hdec].
  eexists. split; [reflexivity|done].
Qed.

Lemma forward_ignores_alignment_and_duration self self' a w :
  same_but_alignment_and_duration self self' →
  forward self' a w = forward self a w.
Proof.
  destruct self, self'. unfold same_but_alignment_and_duration. cbn.
  intros (-> & -> & -> & -> & -> & -> & -> & -> & -> & -> & -> & ->).
  reflexivity.
Qed.

(** C2. On a valid training input [forward] returns, in this order, the
    decoded waveform segment, the segment start indices, the text mask, the
    feature mask, and the tuple (posterior latent, flow-space latent, prior
    mean, prior log-scale, posterior mean, posterior log-scale).  The
    result holds no alignment matrix and no duration loss, and none is
    computed: the pass is the same for any generator that differs only in
    its alignment search, duration predictor, length regulator and
    projection. *)
Theorem C2_forward_return_value self a w t :
  valid_run self a w t →
  (∃ w',
     forward self a w =
       (Ok (PyTuple
          [ PyTensor (FloatTensor3 (run_wav t));
            PyTensor (IntTensor1 (run_z_start_idxs t));
            PyTensor (FloatTensor3 (run_x_mask t));
            PyTensor (FloatTensor3 (run_y_mask t));
            PyTuple
              [ PyTensor (FloatTensor3 (run_z t));
                PyTensor (FloatTensor3 (run_z_p t));
                PyTensor (FloatTensor3 (run_m_p t));
                PyTensor (FloatTensor3 (run_logs_p t));
                PyTensor (FloatTensor3 (run_m_q t));
                PyTensor (FloatTensor3 (run_logs_q t)) ] ]), w')) ∧
  ∀ self', same_but_alignment_and_duration self self' →
           forward self' a w = forward self a w.
Proof.
  intros Hrun. split.
  - destruct (forward_returns self a w t Hrun) as (w' & E & _). by exists w'.
  - intros self'. apply forward_ignores_alignment_and_duration.
Qed.

(** *** [numpy.prod] against the exact product *)

Lemma wrap_int64_range n : - 2 ^ 63 ≤ wrap_int64 n < 2 ^ 63.
Proof.
  unfold wrap_int64.
  pose proof (Z.mod_pos_bound (n + 2 ^ 63) (2 ^ 64) ltac:(lia)). lia.
Qed.

Lemma wrap_int64_congr n : wrap_int64 n mod 2 ^ 64 = n mod 2 ^ 64.
Proof.
  unfold wrap_int64. rewrite Zminus_mod_idemp_l. f_equal. lia.
Qed.

Lemma np_prod_fold_range l : ∀ acc,
  - 2 ^ 63 ≤ acc < 2 ^ 63 →
  - 2 ^ 63 ≤ foldl (λ acc x, wrap_int64 (acc * x)) acc l < 2 ^ 63.
Proof.
  induction l as [|x l IH]; intros acc Hacc; cbn; [done|].
  apply IH, wrap_int64_range.
Qed.

Lemma np_prod_fold_congr l : ∀ acc,
  foldl (λ acc x, wrap_int64 (acc * x)) acc l mod 2 ^ 64 =
  (acc * list_prod l) mod 2 ^ 64.
Proof.
  induction l as [|x l IH]; intros acc; cbn [foldl].
  - unfold list_prod. cbn. by rewrite Z.mul_1_r.
  - change (list_prod (x :: l)) with (x * list_prod l).
    rewrite IH, <- Z.mul_mod_idemp_l, wrap_int64_congr by lia.
    rewrite Z.mul_mod_idemp_l by lia. f_equal. lia.
Qed.

Lemma congr_in_range a b :
  - 2 ^ 63 ≤ a < 2 ^ 63 → - 2 ^ 63 ≤ b < 2 ^ 63 →
  a mod 2 ^ 64 = b mod 2 ^ 64 → a = b.
Proof.
  intros Ha Hb E.
  change (2 ^ 64) with 18446744073709551616 in *.
  change (2 ^ 63) with 9223372036854775808 in *.
  Z.div_mod_to_equations. lia.
Qed.

(** Within [int64] the wrapped product is the product. *)
Lemma np_prod_exact l :
  - 2 ^ 63 ≤ list_prod l < 2 ^ 63 → np_prod l = list_prod l.
Proof.
  intros Hr. apply congr_in_range; [|done|].
  - apply np_prod_fold_range. lia.
  - unfold np_prod. rewrite np_prod_fold_congr. f_equal. lia.
Qed.

Lemma list_prod_pos l : Forall (λ s, 0 < s) l → 0 < list_prod l.
Proof.
  induction 1 as [|x l Hx _ IH]; [done|].
  change (list_prod (x :: l)) with (x * list_prod l). lia.
Qed.

(** *** What [__init__] stores *)

Lemma conditioning_layer_inv {L} n least gc (build : Z → Z → result L) out :
  conditioning_layer n least gc build = Ok out →
  (out = (None, None) ∧ ∀ k, n = Some k → ¬ least < k) ∨
  (∃ k layer, n = Some k ∧ least < k ∧ 0 < gc ∧ build k gc = Ok layer ∧
              out = (Some k, Some layer)).
Proof.
  unfold conditioning_layer. destruct n as [k|]; cycle 1.
  { intros [= <-]. left. split; [done|]. by intros k [=]. }
  case_decide as Hk; cycle 1.
  { intros [= <-]. left. split; [done|]. by intros k' [= <-]. }
  unfold assert. case_decide as Hgc; [|done]. cbn.
  destruct (build k gc) as [layer|e] eqn:Hb; [|done]. cbn.
  intros [= <-]. right. by exists k, layer.
Qed.

Lemma init_inv cfg self :
  __init__ cfg = Ok self →
  TextEncoder (Config.vocabs cfg) (Config.hidden_channels cfg)
    (Config.midi_dim cfg) (Config.beat_dim cfg) = Ok (text_encoder self) ∧
  HiFiGANGenerator (Config.hidden_channels cfg) 1 (Config.global_channels cfg)
    (Config.decoder_upsample_scales cfg) = Ok (decoder self) ∧
  PosteriorEncoder (Config.aux_channels cfg) (Config.hidden_channels cfg)
    (Config.hidden_channels cfg) (Config.global_channels cfg) =
    Ok (posterior_encoder self) ∧
  ResidualAffineCouplingBlock (Config.hidden_channels cfg)
    (Config.hidden_channels cfg) (Config.global_channels cfg) = Ok (flow self) ∧
  segment_size self = Config.segment_size cfg ∧
  upsample_factor self = np_prod (Config.decoder_upsample_scales cfg).
Proof.
  unfold __init__, build_networks.
  destruct (TextEncoder _ _ _ _) as [te|] eqn:Hte; [|done].
  destruct (HiFiGANGenerator _ _ _ _) as [de|] eqn:Hde; [|done].
  destruct (PosteriorEncoder _ _ _ _) as [pe|] eqn:Hpe; [|done].
  destruct (ResidualAffineCouplingBlock _ _ _) as [fl|] eqn:Hfl; [|done].
  destruct (Projection _ _) as [pr|]; [|done].
  cbn [mbind result_bind].
  destruct (if Config.use_sdp cfg then _ else _) as [dp|]; [|done].
  destruct LengthRegulator as [lr'|]; [|done].
  cbn [mbind result_bind].
  destruct (conditioning_layer (Config.spks cfg) _ _ _) as [[? ?]|]; [|done].
  destruct (conditioning_layer (Config.spk_embed_dim cfg) _ _ _) as [[? ?]|]; [|done].
  destruct (conditioning_layer (Config.langs cfg) _ _ _) as [[? ?]|]; [|done].
  cbn [mbind result_bind].
  destruct import_maximum_path as [mp|]; [|done].
  cbn. intros [= <-]. cbn. done.
Qed.

(** C3 (amended). With the sub-networks honouring their shape contracts, a
    training call on a generator built with segment size [S] returns a
    waveform segment of [S * upsample_factor] samples, [upsample_factor]
    being the product of the configured decoder upsample scales, and a
    latent tuple of six tensors that all have the hidden channel count. *)
Theorem C3_forward_shapes cfg self a w t :
  shape_contracts →
  __init__ cfg = Ok self →
  Forall (λ s, 0 < s) (Config.decoder_upsample_scales cfg) →
  list_prod (Config.decoder_upsample_scales cfg) < 2 ^ 63 →
  0 ≤ Config.segment_size cfg →
  valid_run self a w t →
  ∃ wav idxs x_mask y_mask latents w',
    forward self a w =
      (Ok (PyTuple [ PyTensor (FloatTensor3 wav); idxs; x_mask; y_mask;
                     PyTuple latents ]), w') ∧
    upsample_factor self = list_prod (Config.decoder_upsample_scales cfg) ∧
    Z.of_nat (size3_2 wav) = Config.segment_size cfg * upsample_factor self ∧
    length latents = 6%nat ∧
    Forall (has_channels (Z.to_nat (Config.hidden_channels cfg))) latents.
Proof.
  intros (Cdec & Cseg & Cenc & Cpost & Cflow) Hinit Hpos Hmax HS Hrun.
  destruct (init_inv cfg self Hinit) as (Ite & Ide & Ipe & Ifl & Iseg & Iup).
  destruct (forward_returns self a w t Hrun) as (w' & E & _).
  destruct Hrun as (lx & mx & bx & l & _ & _ & _ & _ &
                    _ & Henc & _ & _ & _ & Hpost & Hflow & Hseg & Hdec).
  pose proof (list_prod_pos _ Hpos) as Hprod.
  assert (Hup : upsample_factor self =
                list_prod (Config.decoder_upsample_scales cfg)).
  { rewrite Iup. apply np_prod_exact. lia. }
  pose proof (Cdec _ _ _ _ _ Ide _ _ _ _ _ Hdec) as Swav.
  pose proof (Cseg _ _ _ _ _ _ _ Hseg) as Sseg.
  destruct (Cenc _ _ _ _ _ Ite _ _ _ _ _ _ _ _ _ _ _ Henc) as (Cm & Cl).
  destruct (Cpost _ _ _ _ _ Ipe _ _ _ _ _ _ _ _ _ Hpost) as (Cz & Cmq & Clq).
  pose proof (Cflow _ _ _ _ Ifl _ _ _ _ _ _ _ Hflow) as Szp.
  eexists _, _, _, _, _, w'. split; [exact E|]. split; [exact Hup|].
  split; [|split; [done|]].
  - unfold size3_2 at 1. rewrite Swav. cbn. unfold size3_2. rewrite Sseg. cbn.
    rewrite Hup, Iseg. lia.
  - unfold size3_1 in *.
    repeat (apply list.Forall_cons; split); [..|apply Forall_nil];
      (eexists; split; [reflexivity|]); unfold size3_1; try done.
    by rewrite Szp.
Qed.

(** *** Construction *)

Lemma conditioning_layer_nonpos {L} n least gc (build : Z → Z → result L) :
  gc ≤ 0 →
  (conditioning_layer n least gc build = Raise AssertionError ∧
   ∃ k, n = Some k ∧ least < k) ∨
  (conditioning_layer n least gc build = Ok (None, None) ∧
   ¬ ∃ k, n = Some k ∧ least < k).
Proof.
  intros Hgc. unfold conditioning_layer. destruct n as [k|]; cycle 1.
  { right. split; [done|]. by intros (k & [=] & _). }
  case_decide as Hk.
  - left. unfold assert. rewrite decide_False by lia. split; [done|]. by exists k.
  - right. split; [done|]. by intros (k' & [= <-] & ?).
Qed.

Lemma conditioning_layer_pos {L} n least gc (build : Z → Z → result L) layer :
  0 < gc → (∀ k, least < k → build k gc = Ok (layer k)) →
  ∃ out, conditioning_layer n least gc build = Ok out ∧
         ∀ k, n = Some k → least < k → out = (Some k, Some (layer k)).
Proof.
  intros Hgc Hbuild. unfold conditioning_layer. destruct n as [k|]; cycle 1.
  { eexists. split; [done|]. by intros k [=]. }
  case_decide as Hk.
  - unfold assert. rewrite decide_True by done. cbn.
    rewrite (Hbuild k Hk). cbn. eexists. split; [done|]. by intros k' [= <-] _.
  - eexists. split; [done|]. intros k' [= <-] ?. done.
Qed.

Lemma Embedding_Ok n d : 0 ≤ n → 0 ≤ d → Embedding n d = Ok (Embedding_call n d).
Proof. intros. unfold Embedding. rewrite decide_False; [done|lia]. Qed.

Lemma Linear_Ok n d : 0 ≤ n → 0 ≤ d → Linear n d = Ok (Linear_call n d).
Proof. intros. unfold Linear. rewrite decide_False; [done|lia]. Qed.

(** C4. A feature that depends on global conditioning (more than one
    speaker, a speaker embedding of positive dimension, more than one
    language) cannot be built without a positive global channel width:
    [__init__] then never returns a generator, and once the sub-networks
    are built it stops at the assertion.  With a positive width, and the
    sub-networks and the alignment import available, [__init__] returns a
    generator holding each configured feature with its layer. *)
Theorem C4_conditioning_needs_global_channels cfg :
  conditioning_configured cfg →
  (Config.global_channels cfg ≤ 0 →
     (∃ e, __init__ cfg = Raise e) ∧
     (is_Ok (build_networks cfg) → __init__ cfg = Raise AssertionError)) ∧
  (0 < Config.global_channels cfg →
     is_Ok (build_networks cfg) → is_Ok import_maximum_path →
     ∃ self,
       __init__ cfg = Ok self ∧
       (∀ n, Config.spks cfg = Some n → 1 < n →
          spks self = Some n ∧
          global_emb self = Some (Embedding_call n (Config.global_channels cfg))) ∧
       (∀ n, Config.spk_embed_dim cfg = Some n → 0 < n →
          spk_embed_dim self = Some n ∧
          spemb_proj self = Some (Linear_call n (Config.global_channels cfg))) ∧
       (∀ n, Config.langs cfg = Some n → 1 < n →
          langs self = Some n ∧
          lang_emb self = Some (Embedding_call n (Config.global_channels cfg)))).
Proof.
  intros Hconf. split.
  - intros Hgc.
    assert (Hnets : ∀ nets, build_networks cfg = Ok nets →
                      __init__ cfg = Raise AssertionError).
    { intros [[[[[[te de] pe] fl] pr] dp] lr'] Hb. unfold __init__. rewrite Hb.
      cbn [mbind result_bind].
      destruct (conditioning_layer_nonpos (Config.spks cfg) 1 _ Embedding Hgc)
        as [[-> _]|[-> Hs]]; [done|]. cbn [mbind result_bind].
      destruct (conditioning_layer_nonpos (Config.spk_embed_dim cfg) 0 _ Linear Hgc)
        as [[-> _]|[-> He]]; [done|]. cbn [mbind result_bind].
      destruct (conditioning_layer_nonpos (Config.langs cfg) 1 _ Embedding Hgc)
        as [[-> _]|[-> Hl]]; [done|].
      destruct Hconf as [?|[?|?]]; done. }
    destruct (build_networks cfg) as [nets|e] eqn:Hb.
    + split; [exists AssertionError|intros _]; by apply (Hnets nets).
    + split; [|done]. exists e. unfold __init__. by rewrite Hb.
  - intros Hgc Hb Hmp.
    destruct (build_networks cfg) as [[[[[[[te de] pe] fl] pr] dp] lr']|] eqn:Eb;
      [|done].
    destruct import_maximum_path as [mp|] eqn:Emp; [|done].
    destruct (conditioning_layer_pos (Config.spks cfg) 1
                (Config.global_channels cfg) Embedding
                (λ k, Embedding_call k (Config.global_channels cfg)) Hgc)
      as ([s se] & Es & Hs); [intros; apply Embedding_Ok; lia|].
    destruct (conditioning_layer_pos (Config.spk_embed_dim cfg) 0
                (Config.global_channels cfg) Linear
                (λ k, Linear_call k (Config.global_channels cfg)) Hgc)
      as ([d dp'] & Ed & Hd); [intros; apply Linear_Ok; lia|].
    destruct (conditioning_layer_pos (Config.langs cfg) 1
                (Config.global_channels cfg) Embedding
                (λ k, Embedding_call k (Config.global_channels cfg)) Hgc)
      as ([g ge] & Eg & Hg); [intros; apply Embedding_Ok; lia|].
    eexists. unfold __init__. rewrite Eb. cbn [mbind result_bind].
    rewrite Es. cbn [mbind result_bind]. rewrite Ed. cbn [mbind result_bind].
    rewrite Eg. cbn [mbind result_bind]. rewrite Emp. cbn [mbind result_bind].
    split; [reflexivity|]. cbn.
    split; [|split]; intros n Hn Hlt.
    + by injection (Hs n Hn Hlt) as -> ->.
    + by injection (Hd n Hn Hlt) as -> ->.
    + by injection (Hg n Hn Hlt) as -> ->.
Qed.

(** *** Broadcasting, entry by entry *)

Lemma bdim_inv a b n :
  bdim a b = Ok n → (a = n ∨ a = 1%nat) ∧ (b = n ∨ b = 1%nat).
Proof.
  unfold bdim. repeat case_decide; intros [= <-]; subst; auto.
Qed.

Lemma expand_lookup {A} n (l : list A) i :
  length l = n ∨ length l = 1%nat → (i < n)%nat →
  expand n l !! i = l !! bidx (length l) n i.
Proof.
  intros Hl Hi. unfold bidx. destruct l as [|x [|y l']]; cbn in *.
  - by rewrite !lookup_nil.
  - rewrite lookup_replicate_2 by done. case_decide; [|done].
    by replace i with 0%nat by lia.
  - rewrite decide_True; [done|lia].
Qed.

Lemma bzip_lookup {A B C} (f : A → B → C) n la lb i a b :
  length la = n ∨ length la = 1%nat →
  length lb = n ∨ length lb = 1%nat →
  (i < n)%nat →
  la !! bidx (length la) n i = Some a →
  lb !! bidx (length lb) n i = Some b →
  bzip f n la lb !! i = Some (f a b).
Proof.
  intros Hla Hlb Hi Ha Hb. unfold bzip.
  rewrite lookup_zip_with, !expand_lookup, Ha, Hb by done. done.
Qed.

Lemma wf3_rows {A} (t : Tensor3 A) i m :
  wf3 t → data3 t !! i = Some m →
  length m = size3_1 t ∧ ∀ j r, m !! j = Some r → length r = size3_2 t.
Proof.
  intros [_ Hm] Hi. rewrite Forall_lookup in Hm.
  destruct (Hm i m Hi) as [Hlen Hrows]. split; [done|].
  intros j r Hj. rewrite Forall_lookup in Hrows. by apply (Hrows j r).
Qed.

(** The entry of a broadcast result is [f] of the operands' entries. *)
Lemma broadcast3_entry {A} (f : A → A → A) (a b t : Tensor3 A) i j k x y :
  wf3 a → wf3 b → broadcast3 f a b = Ok t →
  (i < size3_0 t)%nat → (j < size3_1 t)%nat → (k < size3_2 t)%nat →
  entry3 a (bidx (size3_0 a) (size3_0 t) i) (bidx (size3_1 a) (size3_1 t) j)
           (bidx (size3_2 a) (size3_2 t) k) = Some x →
  entry3 b (bidx (size3_0 b) (size3_0 t) i) (bidx (size3_1 b) (size3_1 t) j)
           (bidx (size3_2 b) (size3_2 t) k) = Some y →
  entry3 t i j k = Some (f x y).
Proof.
  intros Wa Wb. unfold broadcast3.
  destruct (bdim (size3_0 a) (size3_0 b)) as [n0|] eqn:E0; [|done].
  destruct (bdim (size3_1 a) (size3_1 b)) as [n1|] eqn:E1; [|done].
  destruct (bdim (size3_2 a) (size3_2 b)) as [n2|] eqn:E2; [|done].
  cbn. intros [= <-]. unfold size3_0, size3_1, size3_2. cbn [shape3 fst snd].
  fold (size3_0 a) (size3_1 a) (size3_2 a) (size3_0 b) (size3_1 b) (size3_2 b).
  intros Hi Hj Hk Hx Hy.
  apply bdim_inv in E0 as [A0 B0], E1 as [A1 B1], E2 as [A2 B2].
  unfold entry3 in *. cbn [data3].
  destruct (data3 a !! bidx (size3_0 a) n0 i) as [ma|] eqn:Ema; [|done].
  destruct (data3 b !! bidx (size3_0 b) n0 i) as [mb|] eqn:Emb; [|done].
  cbn in Hx, Hy.
  destruct (ma !! bidx (size3_1 a) n1 j) as [ra|] eqn:Era; [|done].
  destruct (mb !! bidx (size3_1 b) n1 j) as [rb|] eqn:Erb; [|done].
  cbn in Hx, Hy.
  destruct (wf3_rows a _ ma Wa Ema) as [La Ra].
  destruct (wf3_rows b _ mb Wb Emb) as [Lb Rb].
  pose proof (Ra _ _ Era) as Lra. pose proof (Rb _ _ Erb) as Lrb.
  destruct Wa as [La0 _], Wb as [Lb0 _].
  fold (size3_0 a) in La0. fold (size3_0 b) in Lb0.
  erewrite (bzip_lookup _ n0 (data3 a) (data3 b) i ma mb);
    rewrite ?La0, ?Lb0; try done.
  cbn.
  erewrite (bzip_lookup _ n1 ma mb j ra rb); rewrite ?La, ?Lb; try done.
  cbn.
  apply bzip_lookup; rewrite ?Lra, ?Lrb; done.
Qed.

Lemma broadcast3_same_shape {A} (f : A → A → A) (a b : Tensor3 A) :
  shape3 b = shape3 a →
  ∃ t, broadcast3 f a b = Ok t ∧ shape3 t = shape3 a.
Proof.
  intros Hs. unfold broadcast3, size3_0, size3_1, size3_2. rewrite Hs.
  unfold bdim. rewrite !decide_True by done. cbn.
  eexists. split; [done|]. cbn. by destruct (shape3 a) as [[? ?] ?].
Qed.

Lemma expand_length {A} n (l : list A) :
  length l = n ∨ length l = 1%nat → length (expand n l) = n.
Proof.
  intros Hl. destruct l as [|x [|y l']]; cbn in *; try lia.
  by rewrite length_replicate.
Qed.

Lemma expand_elem {A} n (l : list A) x : x ∈ expand n l → x ∈ l.
Proof.
  destruct l as [|y [|z l']]; cbn; try done.
  intros [-> _]%elem_of_replicate. by left.
Qed.

Lemma bzip_length {A B C} (f : A → B → C) n la lb :
  length la = n ∨ length la = 1%nat →
  length lb = n ∨ length lb = 1%nat →
  length (bzip f n la lb) = n.
Proof.
  intros Ha Hb. unfold bzip. rewrite length_zip_with, !expand_length by done. lia.
Qed.

Lemma bzip_Forall {A B C} (f : A → B → C) (P : C → Prop) n la lb :
  (∀ a b, a ∈ la → b ∈ lb → P (f a b)) → Forall P (bzip f n la lb).
Proof.
  intros H. apply Forall_lookup. intros i c Hc. unfold bzip in Hc.
  apply lookup_zip_with_Some in Hc as (a & b & -> & Ha & Hb).
  apply H; eapply expand_elem, list_elem_of_lookup_2; eauto.
Qed.

Lemma wf3_elem {A} (t : Tensor3 A) m :
  wf3 t → m ∈ data3 t →
  length m = size3_1 t ∧ ∀ r, r ∈ m → length r = size3_2 t.
Proof.
  intros [_ Hm] Hin. rewrite list.Forall_forall in Hm.
  destruct (Hm m Hin) as [Hlen Hrows]. split; [done|].
  intros r Hr. rewrite list.Forall_forall in Hrows. by apply Hrows.
Qed.

Lemma broadcast3_wf {A} (f : A → A → A) (a b t : Tensor3 A) :
  wf3 a → wf3 b → broadcast3 f a b = Ok t → wf3 t.
Proof.
  intros Wa Wb. unfold broadcast3.
  destruct (bdim (size3_0 a) (size3_0 b)) as [n0|] eqn:E0; [|done].
  destruct (bdim (size3_1 a) (size3_1 b)) as [n1|] eqn:E1; [|done].
  destruct (bdim (size3_2 a) (size3_2 b)) as [n2|] eqn:E2; [|done].
  cbn. intros [= <-].
  apply bdim_inv in E0 as [A0 B0], E1 as [A1 B1], E2 as [A2 B2].
  pose proof (proj1 Wa) as La0. pose proof (proj1 Wb) as Lb0.
  fold (size3_0 a) in La0. fold (size3_0 b) in Lb0.
  split; cbn.
  - apply bzip_length; rewrite ?La0, ?Lb0; done.
  - apply bzip_Forall. intros ma mb Hma Hmb.
    destruct (wf3_elem a ma Wa Hma) as [La Ra].
    destruct (wf3_elem b mb Wb Hmb) as [Lb Rb].
    split.
    + apply bzip_length; rewrite ?La, ?Lb; done.
    + apply bzip_Forall. intros ra rb Hra Hrb.
      apply bzip_length; rewrite ?(Ra ra Hra), ?(Rb rb Hrb); done.
Qed.

Lemma map3_wf {A B} (f : A → B) (t : Tensor3 A) : wf3 t → wf3 (map3 f t).
Proof.
  intros [Hlen Hm]. split; cbn.
  - by rewrite length_map.
  - apply Forall_map. eapply list.Forall_impl; [exact Hm|].
    intros m [Hl Hr]. cbn. rewrite length_map. split; [done|].
    apply Forall_map. eapply list.Forall_impl; [exact Hr|].
    intros r Hlr. cbn in *. by rewrite length_map.
Qed.

Lemma map3_entry {A B} (f : A → B) (t : Tensor3 A) b c k :
  entry3 (map3 f t) b c k = f <$> entry3 t b c k.
Proof.
  unfold entry3, map3. cbn. rewrite list_lookup_fmap.
  destruct (data3 t !! b) as [m|]; [|done]. cbn.
  rewrite list_lookup_fmap. destruct (m !! c) as [r|]; [|done]. cbn.
  by rewrite list_lookup_fmap.
Qed.

Lemma entry3_bounds {A} (t : Tensor3 A) b c k x :
  wf3 t → entry3 t b c k = Some x →
  (b < size3_0 t)%nat ∧ (c < size3_1 t)%nat ∧ (k < size3_2 t)%nat.
Proof.
  intros Wt. unfold entry3.
  destruct (data3 t !! b) as [m|] eqn:Em; [|done]. cbn.
  destruct (m !! c) as [r|] eqn:Er; [|done]. cbn. intros Hk.
  destruct (wf3_rows t b m Wt Em) as [Lm Lr].
  pose proof (Lr c r Er) as Lr'.
  apply lookup_lt_Some in Em, Er, Hk.
  destruct Wt as [L0 _]. fold (size3_0 t) in L0. lia.
Qed.

Lemma bidx_same n i : bidx n n i = i.
Proof. unfold bidx. by rewrite decide_True. Qed.

(** *** Line 703: the prior sample *)

Lemma sample_prior_spec m_p logs_p ns r noise r' :
  randn_like m_p r = (noise, r') →
  wf3 m_p → wf3 logs_p → wf3 noise →
  shape3 logs_p = shape3 m_p → shape3 noise = shape3 m_p →
  ∃ z_p,
    sample_prior m_p logs_p ns r = (Ok z_p, r') ∧
    shape3 z_p = shape3 m_p ∧
    wf3 z_p ∧
    ∀ b c k m n l,
      entry3 m_p b c k = Some m →
      entry3 noise b c k = Some n →
      entry3 logs_p b c k = Some l →
      entry3 z_p b c k = Some (fadd m (fmul (fmul n (fexp l)) ns)).
Proof.
  intros Hn Wm Wl Wn Sl Sn. unfold sample_prior. rewrite Hn.
  destruct (broadcast3_same_shape fmul noise (map3 fexp logs_p))
    as (scaled & Es & Ss); [cbn; congruence|].
  rewrite Es. cbn [mbind result_bind].
  destruct (broadcast3_same_shape fadd m_p (map3 (λ v, fmul v ns) scaled))
    as (z_p & Ez & Sz); [cbn; congruence|].
  rewrite Ez. exists z_p. split; [done|]. split; [done|].
  assert (Wsc : wf3 scaled).
  { apply (broadcast3_wf fmul noise (map3 fexp logs_p) scaled);
      [exact Wn|by apply map3_wf|exact Es]. }
  split.
  { apply (broadcast3_wf fadd m_p (map3 (λ v, fmul v ns) scaled) z_p);
      [exact Wm|by apply map3_wf|exact Ez]. }
  intros b c k m n l Hm Hnn Hl.
  destruct (entry3_bounds m_p b c k m Wm Hm) as (Hb & Hc & Hk).
  assert (Hsc : entry3 scaled b c k = Some (fmul n (fexp l))).
  { eapply (broadcast3_entry fmul noise (map3 fexp logs_p) scaled b c k);
      [exact Wn|by apply map3_wf|exact Es|..];
      unfold size3_0, size3_1, size3_2 in *; cbn [map3 shape3];
      rewrite ?Ss, ?Sn, ?Sl, ?bidx_same; try done.
    by rewrite map3_entry, Hl. }
  eapply (broadcast3_entry fadd m_p (map3 (λ v, fmul v ns) scaled) z_p b c k);
    [exact Wm|by apply map3_wf|exact Ez|..];
    unfold size3_0, size3_1, size3_2 in *; cbn [map3 shape3];
    rewrite ?Sz, ?Ss, ?Sn, ?bidx_same; try done.
  by rewrite map3_entry, Hsc.
Qed.

(** *** Masking and cutting before the decoder *)

Lemma mask_multiply z mask :
  wf3 z → wf3 mask →
  shape3 mask = (size3_0 z, 1%nat, size3_2 z) →
  ∃ zm, broadcast3 fmul z mask = Ok zm ∧ masked_by z mask zm.
Proof.
  intros Wz Wm Sm.
  assert (S0 : size3_0 mask = size3_0 z) by (unfold size3_0 at 1; by rewrite Sm).
  assert (S1 : size3_1 mask = 1%nat) by (unfold size3_1; by rewrite Sm).
  assert (S2 : size3_2 mask = size3_2 z) by (unfold size3_2 at 1; by rewrite Sm).
  assert (E1 : bdim (size3_1 z) 1 = Ok (size3_1 z)).
  { unfold bdim. repeat case_decide; congruence. }
  destruct (broadcast3 fmul z mask) as [zm|] eqn:E; cycle 1.
  { exfalso. unfold broadcast3 in E. rewrite S0, S1, S2, E1 in E.
    unfold bdim in E. rewrite !decide_True in E by done. done. }
  exists zm. split; [done|].
  assert (Sz : shape3 zm = shape3 z).
  { unfold broadcast3 in E. rewrite S0, S1, S2, E1 in E.
    unfold bdim in E. rewrite !decide_True in E by done. cbn in E.
    injection E as <-. cbn. unfold size3_0, size3_1, size3_2.
    by destruct (shape3 z) as [[? ?] ?]. }
  split; [done|]. intros b c k v mk Hv Hmk.
  destruct (entry3_bounds z b c k v Wz Hv) as (Hb & Hc & Hk).
  eapply (broadcast3_entry fmul z mask zm b c k); [done|done|exact E|..];
    unfold size3_0, size3_1, size3_2 in *; rewrite ?Sz, ?Sm; cbn [fst snd];
    rewrite ?bidx_same; try done.
  replace (bidx 1 (shape3 z).1.2 c) with 0%nat; [done|].
  unfold bidx. case_decide; [lia|done].
Qed.

Lemma slice_time_entry {A} (t : Tensor3 A) stop b c k :
  (k < size3_2 (slice_time t stop))%nat →
  entry3 (slice_time t stop) b c k = entry3 t b c k.
Proof.
  unfold slice_time, entry3, size3_2 at 1. cbn. intros Hk.
  rewrite list_lookup_fmap. destruct (data3 t !! b) as [m|]; [|done]. cbn.
  rewrite list_lookup_fmap. destruct (m !! c) as [r|]; [|done]. cbn.
  by rewrite lookup_take_lt.
Qed.

Lemma slice_stop_cap len n :
  0 ≤ n → slice_stop len (Some n) = Nat.min (Z.to_nat n) len.
Proof. intros Hn. unfold slice_stop. by rewrite decide_False by lia. Qed.

(** *** [inference] *)

Lemma bind_Ok_inv {S A B} (m : ST S A) (f : A → ST S B) s b s' :
  (m ≫= f) s = (Ok b, s') → ∃ a s1, m s = (Ok a, s1) ∧ f a s1 = (Ok b, s').
Proof.
  unfold mbind, ST_bind. destruct (m s) as [[a|e] s1]; [|done].
  intros E. by exists a, s1.
Qed.

Lemma slice_stop_le len stop : (slice_stop len stop ≤ len)%nat.
Proof. unfold slice_stop. destruct stop as [k|]; [case_decide|]; lia. Qed.

(** The slice is a tensor of its own: every row holds exactly the frames
    below the stop, and nothing from there on. *)
Lemma slice_time_wf {A} (t : Tensor3 A) stop : wf3 t → wf3 (slice_time t stop).
Proof.
  intros [Hl Hr]. pose proof (slice_stop_le (size3_2 t) stop) as Hn.
  unfold slice_time. split; cbn [data3 shape3 fst snd].
  - by rewrite length_map.
  - apply list.Forall_forall. intros m' Hin.
    apply list_elem_of_fmap in Hin as (m & -> & Hm).
    rewrite list.Forall_forall in Hr. destruct (Hr m Hm) as [Hlm Hrows].
    split; [by rewrite length_map|].
    apply list.Forall_forall. intros r' Hin.
    apply list_elem_of_fmap in Hin as (r & -> & Hr').
    rewrite list.Forall_forall in Hrows. rewrite length_take, (Hrows r Hr').
    unfold size3_2 in *. lia.
Qed.

Lemma slice_time_beyond {A} (t : Tensor3 A) stop b c k :
  (size3_2 (slice_time t stop) ≤ k)%nat →
  entry3 (slice_time t stop) b c k = None.
Proof.
  unfold slice_time, entry3, size3_2 at 1. cbn. intros Hk.
  rewrite list_lookup_fmap. destruct (data3 t !! b) as [m|]; [|done]. cbn.
  rewrite list_lookup_fmap. destruct (m !! c) as [r|]; [|done]. cbn.
  by apply lookup_take_ge.
Qed.

(** C5. With teacher forcing off, the flow-space latent is the prior mean
    plus standard-normal noise times exp(prior log-scale) times
    [noise_scale], entry by entry and in the shape the text encoder gave;
    the inverse flow maps it to decoder space; the result is multiplied by
    the text mask, cut to [max_len] frames when a maximum is given, and
    decoded; the squeezed waveform is returned.  What the decoder receives
    is a well-formed tensor of the cut length: it holds the frames of the
    masked latent below the cut and no frame from the cut on. *)
Theorem C5_free_running_inference self a r0 x m_p logs_p x_mask r1 g r2
    noise r3 :
  Inf.use_teacher_forcing a = false →
  text_encoder self (Inf.label_xml a) (Inf.label_xml_lengths a) None
    (Inf.midi_xml a) (Inf.beat_xml a) r0 = (Ok (x, m_p, logs_p, x_mask), r1) →
  global_conditioning self (Inf.sids a)
    (unsqueeze_first <$> attr_of (Inf.spembs a)) (Inf.lids a) r1 = (Ok g, r2) →
  randn_like m_p r2 = (noise, r3) →
  wf3 m_p → wf3 logs_p → wf3 noise →
  shape3 logs_p = shape3 m_p → shape3 noise = shape3 m_p →
  ∃ z_p,
    shape3 z_p = shape3 m_p ∧
    wf3 z_p ∧
    (∀ b c k m n l,
       entry3 m_p b c k = Some m →
       entry3 noise b c k = Some n →
       entry3 logs_p b c k = Some l →
       entry3 z_p b c k =
         Some (fadd m (fmul (fmul n (fexp l)) (Inf.noise_scale a)))) ∧
    ∀ z r4,
      flow self z_p x_mask g true r3 = (Ok z, r4) →
      wf3 z → wf3 x_mask →
      shape3 x_mask = (size3_0 z, 1%nat, size3_2 z) →
      ∃ zm,
        masked_by z x_mask zm ∧
        wf3 zm ∧
        let cut := slice_time zm (Inf.max_len a) in
        (Inf.max_len a = None → size3_2 cut = size3_2 z) ∧
        (∀ n, Inf.max_len a = Some n → 0 ≤ n →
              size3_2 cut = Nat.min (Z.to_nat n) (size3_2 z)) ∧
        (∀ b c k, (k < size3_2 cut)%nat → entry3 cut b c k = entry3 zm b c k) ∧
        wf3 cut ∧
        size3_0 cut = size3_0 z ∧ size3_1 cut = size3_1 z ∧
        (∀ b c k, (size3_2 cut ≤ k)%nat → entry3 cut b c k = None) ∧
        ∀ wav r5,
          decoder self cut g r4 = (Ok wav, r5) →
          inference self a r0 =
            (Ok (PyTuple [ PyTensor (squeeze1 wav); PyNone; PyNone ]), r5).
Proof.
  intros Htf Henc Hg Hn Wm Wl Wn Sl Sn.
  destruct (sample_prior_spec m_p logs_p (Inf.noise_scale a) r2 noise r3
              Hn Wm Wl Wn Sl Sn) as (z_p & Es & Sz & Wzp & Hent).
  exists z_p. split; [done|]. split; [done|]. split; [done|].
  intros z r4 Hflow Wz Wx Sx.
  destruct (mask_multiply z x_mask Wz Wx Sx) as (zm & Em & Hmask).
  pose proof (broadcast3_wf fmul z x_mask zm Wz Wx Em) as Wzm.
  exists zm. split; [done|]. split; [done|].
  assert (Szm : size3_2 zm = size3_2 z).
  { unfold size3_2. by rewrite (proj1 Hmask). }
  cbn zeta. split; [|split; [|split; [|split; [|split; [|split; [|split]]]]]].
  - intros ->. unfold slice_time, size3_2 at 1. cbn [shape3 snd slice_stop]. done.
  - intros n -> Hn0. unfold slice_time, size3_2 at 1. cbn [shape3 snd].
    by rewrite slice_stop_cap, Szm.
  - intros b c k. apply slice_time_entry.
  - by apply slice_time_wf.
  - unfold slice_time, size3_0. cbn [shape3 fst]. unfold size3_0.
    by rewrite (proj1 Hmask).
  - unfold slice_time, size3_1. cbn [shape3 fst snd]. unfold size3_1.
    by rewrite (proj1 Hmask).
  - intros b c k. apply slice_time_beyond.
  - intros wav r5 Hdec. unfold inference.
    rewrite (bind_Ok _ _ r0 _ r1 Henc). cbv beta iota.
    rewrite (bind_Ok _ _ r1 _ r2 Hg). cbv beta. rewrite Htf.
    rewrite (bind_Ok _ _ r2 wav r5); [done|].
    rewrite (bind_Ok _ _ r2 _ r3 Es). cbv beta.
    rewrite (bind_Ok _ _ r3 _ r4 Hflow). cbv beta.
    rewrite (bind_Ok _ _ r4 zm r4); [done|]. by rewrite Em.
Qed.

(** C6. With teacher forcing on, the features go through the posterior
    encoder and the forward flow by the same calls as in training (on the
    same features, lengths, conditioning and random source they give the
    latents of the training run), and the decoder receives the whole
    posterior latent times the feature mask: every frame, no random
    segment. *)
Theorem C6_teacher_forcing_inference self a r0 x m_p logs_p x_mask r1 g r2
    z m_q logs_q y_mask r3 z_p r4 :
  Inf.use_teacher_forcing a = true →
  text_encoder self (Inf.label_xml a) (Inf.label_xml_lengths a) None
    (Inf.midi_xml a) (Inf.beat_xml a) r0 = (Ok (x, m_p, logs_p, x_mask), r1) →
  global_conditioning self (Inf.sids a)
    (unsqueeze_first <$> attr_of (Inf.spembs a)) (Inf.lids a) r1 = (Ok g, r2) →
  posterior_encoder self (Inf.feats a) (Inf.feats_lengths a) g r2 =
    (Ok (z, m_q, logs_q, y_mask), r3) →
  flow self z y_mask g false r3 = (Ok z_p, r4) →
  wf3 z → wf3 y_mask →
  shape3 y_mask = (size3_0 z, 1%nat, size3_2 z) →
  (∃ zm,
     masked_by z y_mask zm ∧
     ∀ wav r5,
       decoder self zm g r4 = (Ok wav, r5) →
       inference self a r0 =
         (Ok (PyTuple [ PyTensor (squeeze1 wav); PyNone; PyNone ]), r5)) ∧
  ∀ fa w t,
    valid_run self fa w t →
    Inf.feats a = Some (Fwd.feats fa) →
    Inf.feats_lengths a = Some (run_feats_lengths t) →
    run_g t = g → rng_conditioning t = r2 →
    run_z t = z ∧ run_m_q t = m_q ∧ run_logs_q t = logs_q ∧
    run_y_mask t = y_mask ∧ run_z_p t = z_p.
Proof.
  intros Htf Henc Hg Hpost Hflow Wz Wy Sy. split.
  - destruct (mask_multiply z y_mask Wz Wy Sy) as (zm & Em & Hmask).
    exists zm. split; [done|]. intros wav r5 Hdec. unfold inference.
    rewrite (bind_Ok _ _ r0 _ r1 Henc). cbv beta iota.
    rewrite (bind_Ok _ _ r1 _ r2 Hg). cbv beta. rewrite Htf.
    rewrite (bind_Ok _ _ r2 wav r5); [done|].
    rewrite (bind_Ok _ _ r2 _ r3 Hpost). cbv beta iota.
    rewrite (bind_Ok _ _ r3 _ r4 Hflow). cbv beta.
    rewrite (bind_Ok _ _ r4 zm r4); [done|]. by rewrite Em.
  - intros fa w t (lx & mx & bx & l & _ & _ & _ & _ &
                   _ & _ & _ & _ & _ & Hpost' & Hflow' & _ & _)
           Hfeats Hlens Hg' Hr'.
    rewrite Hg', Hr', <- Hfeats, <- Hlens, Hpost in Hpost'.
    injection Hpost' as Ez Emq Elq Ey Hr3.
    rewrite Hg', <- Ez, <- Ey, <- Hr3, Hflow in Hflow'.
    by injection Hflow' as Ezp _.
Qed.

(** C10. [dur], [noise_scale_dur] and [alpha] are accepted and never
    read: an inference call with other values for them, on the same random
    source, gives the same result and leaves the same random source.  And
    whatever the arguments, a call that returns gives [None] in second and
    third place. *)
Theorem C10_duration_controls_ignored self a dur' noise_scale_dur' alpha' r :
  inference self (with_duration_controls a dur' noise_scale_dur' alpha') r =
    inference self a r ∧
  ∀ v r', inference self a r = (Ok v, r') →
          ∃ wav, v = PyTuple [ PyTensor wav; PyNone; PyNone ].
Proof.
  split; [reflexivity|].
  intros v r' E. unfold inference in E.
  apply bind_Ok_inv in E as ([[[x m_p] logs_p] x_mask] & r1 & _ & E).
  apply bind_Ok_inv in E as (g & r2 & _ & E).
  apply bind_Ok_inv in E as (wav & r3 & _ & E).
  injection E as <- _. by eexists.
Qed.

(** *** The path generator *)

Lemma lookup_map {A B} (f : A → B) (l : list A) i :
  map f l !! i = f <$> l !! i.
Proof. apply list_lookup_fmap. Qed.

Lemma cumsum_from_length d : ∀ acc, length (cumsum_from acc d) = length d.
Proof. induction d as [|x d IH]; intros acc; cbn; [done|]. by rewrite IH. Qed.

Lemma cumsum_from_lookup d : ∀ acc i,
  (i < length d)%nat → cumsum_from acc d !! i = Some (acc + cum d (S i)).
Proof.
  induction d as [|x d IH]; intros acc i Hi; cbn in *; [lia|].
  destruct i as [|i]; cbn.
  - rewrite take_0. cbn. f_equal. lia.
  - rewrite IH by lia. f_equal. unfold cum. cbn. lia.
Qed.

Lemma cum_step d i di : d !! i = Some di → cum d (S i) = cum d i + di.
Proof.
  intros Hi. unfold cum. rewrite (take_S_r _ _ _ Hi).
  generalize (take i d). intros l. induction l as [|x l IH]; cbn; lia.
Qed.

Lemma cum_ge d i : (length d ≤ i)%nat → cum d i = foldr Z.add 0 d.
Proof. intros Hi. unfold cum. by rewrite take_ge. Qed.

Lemma cum_mono d : Forall (λ v, 0 ≤ v) d → ∀ i i', (i ≤ i')%nat → cum d i ≤ cum d i'.
Proof.
  intros Hd i i' Hle. induction Hle as [|i' Hle IH]; [done|].
  destruct (d !! i') as [di|] eqn:Hi.
  - rewrite (cum_step d i' di Hi).
    rewrite Forall_lookup in Hd. specialize (Hd i' di Hi). cbn in Hd. lia.
  - apply lookup_ge_None in Hi. rewrite (cum_ge d (S i')) by lia.
    by rewrite <- (cum_ge d i') by lia.
Qed.

Lemma chunks_concat {A} k (LL : list (list A)) :
  Forall (λ l, length l = k) LL → chunks (length LL) k (concat LL) = LL.
Proof.
  induction 1 as [|l LL Hl _ IH]; cbn; [done|].
  rewrite take_app_length' by done. rewrite drop_app_length' by done.
  by rewrite IH.
Qed.

Lemma step_row_length t_y c : length (step_row t_y c) = t_y.
Proof. unfold step_row. by rewrite length_map, length_seq. Qed.

Lemma step_row_lookup t_y c j :
  (j < t_y)%nat →
  step_row t_y c !! j = Some (of_bool (bool_decide (Z.of_nat j < c))).
Proof.
  intros Hj. unfold step_row. rewrite list_lookup_fmap.
  by rewrite lookup_seq_lt.
Qed.

(** A duration tensor of shape [(b, 1, t_x)] is a list of [b] rows. *)
Lemma dur_rows (dur : Tensor3 Z) b t_x :
  wf3 dur → shape3 dur = (b, 1%nat, t_x) →
  ∃ ds, data3 dur = map (λ d, [d]) ds ∧ length ds = b ∧
        Forall (λ d, length d = t_x) ds.
Proof.
  intros [Hlen Hm] Hs. rewrite Hs in Hlen, Hm. cbn in Hlen, Hm.
  clear Hs. revert b Hlen. induction Hm as [|m ms [Hl Hr] _ IH]; intros b Hb.
  - exists []. by rewrite <- Hb.
  - destruct (IH (length ms) eq_refl) as (ds & E & Hds & Hall).
    destruct m as [|d [|? ?]]; try done.
    exists (d :: ds). cbn. rewrite E. split; [done|]. split.
    + cbn in Hb. by rewrite Hds.
    + constructor; [|done]. by inversion Hr.
Qed.

Lemma path_before_mask_unfold (dur : Tensor3 Z) ds t_x t_y :
  shape3 dur = (length ds, 1%nat, t_x) →
  data3 dur = map (λ d, [d]) ds →
  Forall (λ d, length d = t_x) ds →
  path_before_mask dur (length ds) t_y t_x =
    broadcast3 Z.sub (steps ds t_x t_y) (shift_rows (steps ds t_x t_y)).
Proof.
  intros Hs Hd Hall. unfold path_before_mask, view_1d, cumsum_last.
  unfold size3_0, size3_1, size3_2. cbn [shape3]. rewrite Hs. cbn [fst snd].
  rewrite decide_True by lia. cbn [mbind result_bind data3].
  assert (E : chunks (length ds) t_x
                (map (map of_bool)
                   (arange_lt t_y
                      (concat (concat (map (map (cumsum_from 0)) (data3 dur)))))) =
              map (λ d, map (step_row t_y) (cumsum_from 0 d)) ds);
    [|by rewrite E].
  rewrite Hd, map_map. cbn [map].
  assert (E : concat (map (λ d, [cumsum_from 0 d]) ds) = map (cumsum_from 0) ds).
  { clear. induction ds as [|d ds IH]; cbn; [done|]. by rewrite IH. }
  rewrite E. clear E.
  assert (E : map (map of_bool) (arange_lt t_y (concat (map (cumsum_from 0) ds))) =
              concat (map (λ d, map (step_row t_y) (cumsum_from 0 d)) ds)).
  { unfold arange_lt. rewrite map_map.
    clear. induction ds as [|d ds IH]; cbn; [done|].
    rewrite map_app, IH. f_equal. apply map_ext. intros c.
    unfold step_row. by rewrite map_map. }
  rewrite E. clear E.
  rewrite <- (length_map (λ d, map (step_row t_y) (cumsum_from 0 d)) ds) at 1.
  apply chunks_concat. apply Forall_map.
  eapply list.Forall_impl; [exact Hall|]. intros d Hl. cbn.
  by rewrite length_map, cumsum_from_length.
Qed.

Lemma steps_wf ds t_x t_y :
  Forall (λ d, length d = t_x) ds → wf3 (steps ds t_x t_y).
Proof.
  intros Hall. split; cbn.
  - by rewrite length_map.
  - apply Forall_map. eapply list.Forall_impl; [exact Hall|].
    intros d Hd. cbn. rewrite length_map, cumsum_from_length. split; [done|].
    apply Forall_map, list.Forall_forall. intros c _. apply step_row_length.
Qed.

Lemma steps_entry ds t_x t_y k d i j :
  ds !! k = Some d → (i < length d)%nat → (j < t_y)%nat →
  entry3 (steps ds t_x t_y) k i j =
    Some (of_bool (bool_decide (Z.of_nat j < cum d (S i)))).
Proof.
  intros Hk Hi Hj. unfold entry3, steps. cbn.
  rewrite list_lookup_fmap, Hk. cbn.
  rewrite list_lookup_fmap, cumsum_from_lookup by done. cbn.
  rewrite step_row_lookup by done. by rewrite Z.add_0_l.
Qed.

Lemma shift_rows_steps ds t_x t_y :
  shift_rows (steps ds t_x t_y) =
    T3 (length ds, t_x, t_y)
       (map (λ m, take t_x (replicate t_y 0 :: m)) (data3 (steps ds t_x t_y))).
Proof.
  unfold shift_rows, steps. cbn [shape3 data3].
  replace (slice_stop (t_x + 1) (Some (-1))) with t_x; [done|].
  unfold slice_stop. rewrite decide_True by lia. lia.
Qed.

Lemma shift_rows_steps_wf ds t_x t_y :
  Forall (λ d, length d = t_x) ds → wf3 (shift_rows (steps ds t_x t_y)).
Proof.
  intros Hall. rewrite shift_rows_steps. split; cbn.
  - by rewrite !length_map.
  - rewrite map_map. apply Forall_map. eapply list.Forall_impl; [exact Hall|].
    intros d Hd. cbn. split.
    + destruct t_x; [done|]. cbn.
      rewrite length_take, length_map, cumsum_from_length. lia.
    + apply list.Forall_forall. intros r Hr.
      apply (subseteq_take t_x) in Hr.
      apply elem_of_cons in Hr as [->|Hr]; [by rewrite length_replicate|].
      apply list_elem_of_fmap in Hr as (c & -> & _). apply step_row_length.
Qed.

Lemma shifted_lookup {A} (z : list A) (m : list (list A)) n i :
  (i < n)%nat →
  take n (z :: m) !! i = match i with O => Some z | S i' => m !! i' end.
Proof. intros Hi. rewrite lookup_take_lt by done. by destruct i. Qed.

Lemma shift_rows_steps_entry ds t_x t_y k d i j :
  ds !! k = Some d → length d = t_x → (i < t_x)%nat → (j < t_y)%nat →
  entry3 (shift_rows (steps ds t_x t_y)) k i j =
    Some (of_bool (bool_decide (Z.of_nat j < cum d i))).
Proof.
  intros Hk Hd Hi Hj. rewrite shift_rows_steps. unfold entry3, steps. cbn.
  rewrite map_map, list_lookup_fmap, Hk. cbn.
  rewrite shifted_lookup by done.
  destruct i as [|i]; cbv beta iota.
  - cbn. rewrite lookup_replicate_2 by done. unfold cum. rewrite take_0. cbn.
    by rewrite bool_decide_eq_false_2 by lia.
  - rewrite lookup_map, cumsum_from_lookup by lia. cbn.
    rewrite step_row_lookup by done. by rewrite Z.add_0_l.
Qed.

Lemma count_ones_interval lo hi n :
  0 ≤ lo ≤ hi →
  Z.of_nat (count_ones
    (map (λ j, of_bool (bool_decide (Z.of_nat j < hi)) -
               of_bool (bool_decide (Z.of_nat j < lo))) (seq 0 n))) =
  Z.min hi (Z.of_nat n) - Z.min lo (Z.of_nat n).
Proof.
  intros Hlo. unfold count_ones. induction n as [|n IH]; [cbn; lia|].
  rewrite seq_S, map_app, list.filter_app, length_app, Nat2Z.inj_add, IH.
  cbn [map Nat.add]. rewrite filter_cons, filter_nil.
  repeat case_bool_decide; unfold of_bool; case_decide; cbn [length]; lia.
Qed.

(** C7. For non-negative whole durations whose sum fits in the [t_y]
    feature frames, cumulative sum and first difference give, before the
    mask is applied, a matrix of zeros and ones in which row [i] has
    exactly [d[i]] ones, no feature column has more than one, and the
    encoder index of the ones does not decrease along the feature axis.
    [_generate_path] returns this matrix, transposed, times the mask. *)
Theorem C7_path_rows_and_monotonicity (dur : Tensor3 Z) (b t_y t_x : nat) :
  wf3 dur →
  shape3 dur = (b, 1%nat, t_x) →
  (∀ k d, data3 dur !! k = Some [d] →
     Forall (λ v, 0 ≤ v) d ∧ foldr Z.add 0 d ≤ Z.of_nat t_y) →
  ∃ path,
    path_before_mask dur b t_y t_x = Ok path ∧
    (∀ mask c, shape4 mask = (b, c, t_y, t_x) →
       _generate_path dur mask =
         broadcast4 Z.mul (unsqueeze1_transpose23 path) mask) ∧
    shape3 path = (b, t_x, t_y) ∧
    wf3 path ∧
    (∀ k i j v, entry3 path k i j = Some v → v = 0 ∨ v = 1) ∧
    (∀ k d i di row,
       data3 dur !! k = Some [d] → d !! i = Some di →
       row3 path k i = Some row → Z.of_nat (count_ones row) = di) ∧
    (∀ k i i' j,
       entry3 path k i j = Some 1 → entry3 path k i' j = Some 1 → i = i') ∧
    (∀ k i i' j j',
       entry3 path k i j = Some 1 → entry3 path k i' j' = Some 1 →
       (j ≤ j')%nat → (i ≤ i')%nat).
Proof.
  intros Wd Hs Hdur.
  destruct (dur_rows dur b t_x Wd Hs) as (ds & Hd & <- & Hall).
  pose proof (steps_wf ds t_x t_y Hall) as WA.
  pose proof (shift_rows_steps_wf ds t_x t_y Hall) as WS.
  destruct (broadcast3_same_shape Z.sub (steps ds t_x t_y)
              (shift_rows (steps ds t_x t_y))) as (path & E & Sp).
  { by rewrite shift_rows_steps. }
  cbn in Sp.
  pose proof (broadcast3_wf _ _ _ _ WA WS E) as Wp.
  assert (Hrow : ∀ k d, ds !! k = Some d →
            length d = t_x ∧ Forall (λ v, 0 ≤ v) d ∧
            foldr Z.add 0 d ≤ Z.of_nat t_y).
  { intros k d Hk. split.
    - rewrite Forall_lookup in Hall. by apply (Hall k d).
    - apply (Hdur k). by rewrite Hd, list_lookup_fmap, Hk. }
  assert (Hentry : ∀ k i j v, entry3 path k i j = Some v →
            ∃ d, ds !! k = Some d ∧ (i < t_x)%nat ∧ (j < t_y)%nat ∧
                 v = of_bool (bool_decide (Z.of_nat j < cum d (S i))) -
                     of_bool (bool_decide (Z.of_nat j < cum d i))).
  { intros k i j v Hv.
    destruct (entry3_bounds path k i j v Wp Hv) as (Hk & Hi & Hj).
    unfold size3_0, size3_1, size3_2 in Hk, Hi, Hj. rewrite Sp in Hk, Hi, Hj.
    cbn in Hk, Hi, Hj.
    destruct (lookup_lt_is_Some_2 ds k Hk) as [d Hdk].
    destruct (Hrow k d Hdk) as (Hld & _ & _).
    exists d. do 3 (split; [done|]).
    assert (Hv' : entry3 path k i j =
              Some (of_bool (bool_decide (Z.of_nat j < cum d (S i))) -
                    of_bool (bool_decide (Z.of_nat j < cum d i)))).
    { apply (broadcast3_entry Z.sub (steps ds t_x t_y)
               (shift_rows (steps ds t_x t_y)) path k i j); try done;
        unfold size3_0, size3_1, size3_2; rewrite ?Sp; cbn [fst snd]; try done;
        rewrite ?shift_rows_steps; cbn [steps shape3 fst snd];
        rewrite !bidx_same.
      - apply steps_entry; [done|lia|done].
      - rewrite <- shift_rows_steps. by apply shift_rows_steps_entry. }
    congruence. }
  assert (Hmono : ∀ k i i' j j',
            entry3 path k i j = Some 1 → entry3 path k i' j' = Some 1 →
            (j ≤ j')%nat → (i ≤ i')%nat).
  { intros k i i' j j' H1 H2 Hjj.
    destruct (Hentry k i j 1 H1) as (d & Hk & Hi & Hj & E1).
    destruct (Hentry k i' j' 1 H2) as (d' & Hk' & Hi' & Hj' & E2).
    assert (d' = d) as -> by (rewrite Hk in Hk'; by injection Hk').
    destruct (Hrow k d Hk) as (_ & Hnn & _).
    destruct (decide (i ≤ i')%nat) as [|Hgt]; [done|exfalso].
    pose proof (cum_mono d Hnn (S i') i ltac:(lia)).
    pose proof (cum_mono d Hnn i (S i) ltac:(lia)).
    pose proof (cum_mono d Hnn i' (S i') ltac:(lia)).
    revert E1 E2. repeat case_bool_decide; unfold of_bool; lia. }
  exists path. split.
  { rewrite (path_before_mask_unfold dur ds t_x t_y); done. }
  split.
  { intros mask c Hm. unfold _generate_path. rewrite Hm.
    rewrite (path_before_mask_unfold dur ds t_x t_y) by done. by rewrite E. }
  split; [done|]. split; [done|]. split; [|split; [|split]].
  - intros k i j v Hv. destruct (Hentry k i j v Hv) as (d & Hk & Hi & Hj & ->).
    destruct (Hrow k d Hk) as (_ & Hnn & _).
    pose proof (cum_mono d Hnn i (S i) ltac:(lia)).
    repeat case_bool_decide; unfold of_bool; lia.
  - intros k d i di row Hk Hi Hr.
    rewrite Hd, list_lookup_fmap in Hk.
    destruct (ds !! k) as [d'|] eqn:Hdk; [|done]. injection Hk as ->.
    destruct (Hrow k d Hdk) as (Hld & Hnn & Hsum).
    assert (Hlr : length row = t_y).
    { unfold row3 in Hr. destruct (data3 path !! k) as [m|] eqn:Em; [|done].
      cbn in Hr. destruct (wf3_rows path k m Wp Em) as [_ Hrows].
      rewrite (Hrows i row Hr). unfold size3_2. by rewrite Sp. }
    assert (Erow : row =
              map (λ j, of_bool (bool_decide (Z.of_nat j < cum d (S i))) -
                        of_bool (bool_decide (Z.of_nat j < cum d i)))
                  (seq 0 t_y)).
    { apply list_eq. intros j. rewrite list_lookup_fmap.
      destruct (decide (j < t_y)%nat) as [Hj|Hj].
      - rewrite lookup_seq_lt by done. cbn.
        destruct (lookup_lt_is_Some_2 row j) as [v Hv]; [lia|].
        rewrite Hv. f_equal.
        assert (Hv' : entry3 path k i j = Some v).
        { unfold entry3. unfold row3 in Hr.
          destruct (data3 path !! k) as [m|]; [|done]. cbn in *.
          by rewrite Hr. }
        destruct (Hentry k i j v Hv') as (d' & Hk' & _ & _ & ->).
        rewrite Hdk in Hk'. by injection Hk' as ->.
      - rewrite lookup_ge_None_2 by lia.
        by rewrite lookup_seq_ge by lia. }
    rewrite Erow, count_ones_interval.
    + pose proof (cum_mono d Hnn (S i) (length d) ltac:(apply lookup_lt_Some in Hi; lia)).
      rewrite (cum_ge d (length d)) in H by done.
      pose proof (cum_mono d Hnn i (S i) ltac:(lia)).
      rewrite (cum_step d i di Hi) in *. lia.
    + pose proof (cum_mono d Hnn 0 i ltac:(lia)) as H0.
      pose proof (cum_mono d Hnn i (S i) ltac:(lia)).
      unfold cum at 1 in H0. rewrite take_0 in H0. cbn in H0. lia.
  - intros k i i' j H1 H2.
    pose proof (Hmono k i i' j j H1 H2 ltac:(lia)).
    pose proof (Hmono k i' i j j H2 H1 ltac:(lia)). lia.
  - exact Hmono.
Qed.

End Properties.

(** ** The claims on the instance *)

Lemma toy_wf_label : wf2 Toy.label5 ∧ wf2 Toy.midi5 ∧ wf2 Toy.beat5.
Proof. repeat split; repeat constructor. Qed.

Lemma toy_valid_run :
  valid_run (espnet := Toy.espnet) Toy.self Toy.args Toy.world0 ToyRun.run.
Proof.
  exists Toy.label5, Toy.midi5, Toy.beat5, 0%nat.
  repeat split; vm_compute; reflexivity.
Qed.

Lemma toy_shape_contracts : shape_contracts (espnet := Toy.espnet).
Proof.
  unfold shape_contracts. split; [|split; [|split; [|split]]].
  - intros ? ? ? ? dec [= <-] z g r wav r' [= <- _]. reflexivity.
  - intros z lens S r segs idxs r' [= <- _ _]. reflexivity.
  - intros ? hid ? ? enc [= <-] label lens ds m b r x m_p logs_p x_mask r' E.
    unfold Toy.toy_text_encoder in E.
    destruct label, lens, m, b; simplify_eq. split; reflexivity.
  - intros ? hid ? ? enc [= <-] feats lens g r z m_q logs_q y_mask r' E.
    unfold Toy.toy_posterior_encoder in E.
    destruct feats, lens; simplify_eq. repeat split; reflexivity.
  - intros ? ? ? fl [= <-] z mask g inverse r z' r' [= <- _]. reflexivity.
Qed.

(** C1 on the instance: streams of width 5 against 20 feature frames *)
Lemma C1_witness :
  ∃ lx' mx' bx' w1,
    forward (espnet := Toy.espnet) Toy.self Toy.args Toy.world0 =
      forward_tail (espnet := Toy.espnet) Toy.self Toy.args lx' mx' bx' w1 ∧
    reconciled_to 20 Toy.label5 lx' ∧
    reconciled_to 20 Toy.midi5 mx' ∧
    reconciled_to 20 Toy.beat5 bx' ∧
    ∀ i, Toy.heap0 0%nat !! i = Some 5 → heap w1 0%nat !! i = Some 20.
Proof.
  apply (C1_xml_streams_reconciled (espnet := Toy.espnet) Toy.self Toy.args
           Toy.world0 Toy.label5 Toy.midi5 Toy.beat5 0%nat);
    try reflexivity; try (split; [reflexivity|repeat constructor]).
  left. repeat constructor.
Defined.

Lemma C1_counterexample :
  (wf2 ToyMore.label25 ∧ wf2 Toy.midi5 ∧ wf2 Toy.beat5 ∧
   shape2_1 ToyMore.label25 ≠ size3_2 Toy.feats20 ∧
   ∃ w1,
     forward (espnet := Toy.espnet) Toy.self
       (ToyMore.args_streams ToyMore.label25 Toy.midi5 Toy.beat5) Toy.world0 =
     forward_tail (espnet := Toy.espnet) Toy.self
       (ToyMore.args_streams ToyMore.label25 Toy.midi5 Toy.beat5)
       (slice_cols ToyMore.label25 20) Toy.midi5 Toy.beat5 w1) ∧
  ¬ ∃ lx' mx' bx' w1,
      forward (espnet := Toy.espnet) Toy.self
        (ToyMore.args_streams ToyMore.label25 Toy.midi5 Toy.beat5) Toy.world0 =
      forward_tail (espnet := Toy.espnet) Toy.self
        (ToyMore.args_streams ToyMore.label25 Toy.midi5 Toy.beat5)
        lx' mx' bx' w1 ∧
      reconciled_to 20 ToyMore.label25 lx' ∧
      reconciled_to 20 Toy.midi5 mx' ∧
      reconciled_to 20 Toy.beat5 bx'.
Proof.
  split.
  - split; [split; [reflexivity|repeat constructor]|].
    split; [split; [reflexivity|repeat constructor]|].
    split; [split; [reflexivity|repeat constructor]|].
    split; [discriminate|].
    destruct (forward_after_loop (espnet := Toy.espnet) Toy.self
                (ToyMore.args_streams ToyMore.label25 Toy.midi5 Toy.beat5)
                Toy.world0 ToyMore.label25 0%nat eq_refl eq_refl)
      as (w1 & _ & E).
    exists w1. exact E.
  - intros (lx' & mx' & bx' & w1 & E & _ & (_ & _ & Hpad & _) & _).
    apply (f_equal ToyMore.returned_m_p) in E.
    specialize (Hpad ltac:(cbn; lia)).
    assert (El : ToyMore.returned_m_p
              (forward (espnet := Toy.espnet) Toy.self
                 (ToyMore.args_streams ToyMore.label25 Toy.midi5 Toy.beat5)
                 Toy.world0) =
            Some (Toy.channels 2 (data2 Toy.midi5) 20)) by (vm_compute; reflexivity).
    rewrite El in E. clear El.
    unfold forward_tail, ToyMore.returned_m_p in E.
    destruct mx' as [smx dmx]. cbn in Hpad. subst dmx.
    vm_compute in E. discriminate E.
Qed.

(** C8 on the instance: the buffer at location 0 goes from [5; 3] to
    [20; 3]; the other buffers stay. *)
Lemma C8_witness :
  heap (forward (espnet := Toy.espnet) Toy.self Toy.args Toy.world0).2 0%nat =
    [20; 3] ∧
  ∀ l', l' ≠ 0%nat →
    heap (forward (espnet := Toy.espnet) Toy.self Toy.args Toy.world0).2 l' =
    Toy.heap0 l'.
Proof.
  destruct (C8_label_xml_lengths_mutated (espnet := Toy.espnet) Toy.self
              Toy.args Toy.world0 Toy.label5 0%nat eq_refl eq_refl)
    as (_ & Hl & Hframe).
  split; [exact Hl|exact Hframe].
Defined.

(** C9 on the instance: [midi_xml] left at [None] *)
Lemma C9_witness :
  (forward (espnet := Toy.espnet) Toy.self ToyRun.args_no_midi Toy.world0).1 =
    Raise TypeError ∨
  (forward (espnet := Toy.espnet) Toy.self ToyRun.args_no_midi Toy.world0).1 =
    Raise AttributeError.
Proof.
  apply (C9_absent_xml_argument_raises (espnet := Toy.espnet) Toy.self
           ToyRun.args_no_midi Toy.world0).
  right. right. left. reflexivity.
Defined.

(** C2 on the instance *)
Lemma C2_witness :
  (∃ w',
     forward (espnet := Toy.espnet) Toy.self Toy.args Toy.world0 =
       (Ok (PyTuple
          [ PyTensor (FloatTensor3 (run_wav ToyRun.run));
            PyTensor (IntTensor1 (run_z_start_idxs ToyRun.run));
            PyTensor (FloatTensor3 (run_x_mask ToyRun.run));
            PyTensor (FloatTensor3 (run_y_mask ToyRun.run));
            PyTuple
              [ PyTensor (FloatTensor3 (run_z ToyRun.run));
                PyTensor (FloatTensor3 (run_z_p ToyRun.run));
                PyTensor (FloatTensor3 (run_m_p ToyRun.run));
                PyTensor (FloatTensor3 (run_logs_p ToyRun.run));
                PyTensor (FloatTensor3 (run_m_q ToyRun.run));
                PyTensor (FloatTensor3 (run_logs_q ToyRun.run)) ] ]), w')) ∧
  ∀ self', same_but_alignment_and_duration Toy.self self' →
           forward (espnet := Toy.espnet) self' Toy.args Toy.world0 =
           forward (espnet := Toy.espnet) Toy.self Toy.args Toy.world0.
Proof.
  apply (C2_forward_return_value (espnet := Toy.espnet) Toy.self Toy.args
           Toy.world0 ToyRun.run).
  exists Toy.label5, Toy.midi5, Toy.beat5, 0%nat.
  repeat split; vm_compute; reflexivity.
Defined.

(** C3 on the instance: segment size 4, scales 2 and 2, hidden width 2 *)
Lemma C3_witness :
  ∃ wav idxs x_mask y_mask latents w',
    forward (espnet := Toy.espnet) Toy.self Toy.args Toy.world0 =
      (Ok (PyTuple [ PyTensor (FloatTensor3 wav); idxs; x_mask; y_mask;
                     PyTuple latents ]), w') ∧
    upsample_factor Toy.self = 2 * 2 ∧
    Z.of_nat (size3_2 wav) = 4 * upsample_factor Toy.self ∧
    length latents = 6%nat ∧
    Forall (has_channels 2) latents.
Proof.
  apply (C3_forward_shapes (espnet := Toy.espnet) Toy.cfg Toy.self Toy.args
           Toy.world0 ToyRun.run).
  - exact toy_shape_contracts.
  - reflexivity.
  - repeat constructor.
  - reflexivity.
  - discriminate.
  - exists Toy.label5, Toy.midi5, Toy.beat5, 0%nat.
    repeat split; vm_compute; reflexivity.
Defined.

(** C3 as stated fails on the instance: the call returns a latent tuple
    of six tensors, so no latent tuple of five. *)
Lemma C3_counterexample :
  (∃ wav idxs x_mask y_mask latents w',
     forward (espnet := Toy.espnet) Toy.self Toy.args Toy.world0 =
       (Ok (PyTuple [ PyTensor (FloatTensor3 wav); idxs; x_mask; y_mask;
                      PyTuple latents ]), w') ∧
     Z.of_nat (size3_2 wav) = 4 * upsample_factor Toy.self ∧
     length latents = 6%nat) ∧
  ¬ ∃ wav idxs x_mask y_mask latents w',
     forward (espnet := Toy.espnet) Toy.self Toy.args Toy.world0 =
       (Ok (PyTuple [ PyTensor (FloatTensor3 wav); idxs; x_mask; y_mask;
                      PyTuple latents ]), w') ∧
     Z.of_nat (size3_2 wav) = 4 * upsample_factor Toy.self ∧
     length latents = 5%nat ∧
     ∃ H, Forall (has_channels H) latents.
Proof.
  destruct (forward_returns (espnet := Toy.espnet) Toy.self Toy.args Toy.world0
              ToyRun.run toy_valid_run) as (w' & E & _).
  split.
  - eexists _, _, _, _, _, w'. split; [exact E|]. split; reflexivity.
  - intros (wav & idxs & x_mask & y_mask & latents & w'' & E' & _ & Hlen & _).
    rewrite E in E'. injection E' as _ _ _ _ <- _. discriminate Hlen.
Qed.

(** C4 on the instance: three speakers, global width -1 and 8 *)
Lemma C4_witness :
  __init__ (espnet := Toy.espnet) (ToyRun.cfg_speakers (-1)) =
    Raise AssertionError ∧
  ∃ self, __init__ (espnet := Toy.espnet) (ToyRun.cfg_speakers 8) = Ok self ∧
          spks self = Some 3 ∧
          global_emb self = Some (Embedding_call (Torch := Toy.torch) 3 8).
Proof.
  split.
  - destruct (C4_conditioning_needs_global_channels (espnet := Toy.espnet)
                (ToyRun.cfg_speakers (-1))) as [Hbad _].
    { left. exists 3. split; [reflexivity|reflexivity]. }
    destruct Hbad as [_ Hassert]; [discriminate|]. apply Hassert. exact I.
  - destruct (C4_conditioning_needs_global_channels (espnet := Toy.espnet)
                (ToyRun.cfg_speakers 8)) as [_ Hgood].
    { left. exists 3. split; [reflexivity|reflexivity]. }
    destruct (Hgood eq_refl I I) as (self & E & Hs & _).
    exists self. split; [exact E|]. exact (Hs 3 eq_refl eq_refl).
Defined.

(** C5 on the instance: noise 7 everywhere, noise scale 2, at most three
    frames; the first entry is 60 + 7 * 2 ^ 1 * 2. *)
Lemma C5_witness :
  ∃ z_p,
    shape3 z_p = (2, 2, 5)%nat ∧
    entry3 z_p 0 0 0 = Some 88 ∧
    ∃ wav r5,
      inference (torch := Toy.torch) Toy.self (ToyRun.inf_args false) 7%nat =
        (Ok (PyTuple [ PyTensor (squeeze1 wav); PyNone; PyNone ]), r5).
Proof.
  destruct (C5_free_running_inference (torch := Toy.torch) Toy.self
              (ToyRun.inf_args false) 7%nat
              ToyRun.inf_x ToyRun.inf_m_p ToyRun.inf_logs_p ToyRun.inf_x_mask
              7%nat None 7%nat (map3 (λ _, 7) ToyRun.inf_m_p) 8%nat)
    as (z_p & Hs & Wz & He & Hrest);
    try reflexivity; try (split; [reflexivity|repeat constructor]).
  exists z_p. split; [exact Hs|].
  split; [exact (He 0%nat 0%nat 0%nat 60 7 1 eq_refl eq_refl eq_refl)|].
  destruct (Hrest (map3 (λ v, v - 1) z_p) 8%nat eq_refl)
    as (zm & _ & _ & _ & _ & _ & _ & _ & _ & _ & Hdec).
  - by apply map3_wf.
  - split; [reflexivity|repeat constructor].
  - assert (E : @shape3 Z z_p = (2, 2, 5)%nat) by exact Hs.
    unfold size3_0, size3_2, map3. cbn [shape3]. rewrite E. reflexivity.
  - eexists _, _. apply Hdec. reflexivity.
Defined.

(** C6 on the instance: the latents are those of the training run *)
Lemma C6_witness :
  ∃ zm,
    masked_by (run_z ToyRun.run) (run_y_mask ToyRun.run) zm ∧
    ∃ wav r5,
      inference (torch := Toy.torch) Toy.self (ToyRun.inf_args true) 7%nat =
        (Ok (PyTuple [ PyTensor (squeeze1 wav); PyNone; PyNone ]), r5).
Proof.
  destruct (C6_teacher_forcing_inference (espnet := Toy.espnet) Toy.self
              (ToyRun.inf_args true) 7%nat
              ToyRun.inf_x ToyRun.inf_m_p ToyRun.inf_logs_p ToyRun.inf_x_mask
              7%nat None 7%nat
              (run_z ToyRun.run) (run_m_q ToyRun.run) (run_logs_q ToyRun.run)
              (run_y_mask ToyRun.run) 8%nat (run_z_p ToyRun.run) 8%nat)
    as ((zm & Hmask & Hdec) & _);
    try reflexivity; try (split; [reflexivity|repeat constructor]).
  exists zm. split; [exact Hmask|].
  eexists _, _. apply Hdec. reflexivity.
Defined.

(** C7 on the instance: durations 2, 2, 1 over five feature frames *)
Lemma C7_witness :
  ∃ path,
    path_before_mask ToyRun.dur3 1 5 3 = Ok path ∧
    shape3 path = (1, 3, 5)%nat ∧
    (∀ k i j v, entry3 path k i j = Some v → v = 0 ∨ v = 1) ∧
    (∀ row, row3 path 0 1 = Some row → Z.of_nat (count_ones row) = 2) ∧
    (∀ k i i' j,
       entry3 path k i j = Some 1 → entry3 path k i' j = Some 1 → i = i') ∧
    (∀ k i i' j j',
       entry3 path k i j = Some 1 → entry3 path k i' j' = Some 1 →
       (j ≤ j')%nat → (i ≤ i')%nat).
Proof.
  destruct (C7_path_rows_and_monotonicity ToyRun.dur3 1 5 3)
    as (path & E & _ & Hs & _ & Hbin & Hrows & Hcol & Hmono).
  - split; [reflexivity|repeat constructor].
  - reflexivity.
  - intros k d Hk. destruct k as [|k]; [|destruct k; discriminate Hk].
    injection Hk as <-. split; [repeat constructor; discriminate|discriminate].
  - exists path. split; [exact E|]. split; [exact Hs|]. split; [exact Hbin|].
    split; [|split; [exact Hcol|exact Hmono]].
    intros row Hr.
    exact (Hrows 0%nat [2; 2; 1] 1%nat 2 row eq_refl eq_refl Hr).
Defined.

(** ** Further properties of the code *)

Section Further.
Context `{torch : Torch} `{espnet : !Espnet}.

(** *** Arguments that are accepted and not read *)

(** X1. [forward] reads ten of its arguments: the features and their
    lengths, [ds], the three xml streams with the label lengths, and the
    three conditioning inputs.  [text], [text_lengths], every [*_lab]
    argument, the tempo streams and the other length tensors have no
    effect on the result, the buffers or the random source. *)
Theorem X1_forward_reads_ten_arguments self a a' w :
  same_read_by_forward a a' → forward self a' w = forward self a w.
Proof.
  destruct a, a'. unfold same_read_by_forward. cbn.
  intros (-> & -> & -> & -> & -> & -> & -> & -> & -> & ->). reflexivity.
Qed.

(** X2. What [inference] reads depends on the branch.  Without teacher
    forcing the features and their lengths are not read; with teacher
    forcing [noise_scale] and [max_len] are not read, so the waveform is
    never cut there.  [text] and [text_lengths], the [*_lab] arguments and
    the tempo streams are read in neither branch. *)
Theorem X2_inference_reads_by_branch self a a' r :
  Inf.use_teacher_forcing a' = Inf.use_teacher_forcing a →
  (if Inf.use_teacher_forcing a
   then same_for_teacher_forcing a a'
   else same_for_free_running a a') →
  inference self a' r = inference self a r.
Proof.
  destruct a, a'. unfold same_for_teacher_forcing, same_for_free_running,
    same_score. cbn. intros ->.
  destruct use_teacher_forcing;
    intros ((-> & -> & -> & -> & -> & -> & ->) & -> & ->); reflexivity.
Qed.

(** *** Lines 464-476: widths the positional encoding accepts *)

Lemma positional_encoding_cases x :
  (size3_1 x = 0%nat → positional_encoding x = Raise ZeroDivisionError) ∧
  (Nat.Odd (size3_1 x) → (3 ≤ size3_1 x)%nat →
     positional_encoding x = Raise RuntimeError) ∧
  (size3_1 x = 1%nat ∨ (Nat.Even (size3_1 x) ∧ size3_1 x ≠ 0%nat) →
     positional_encoding x = Ok ()).
Proof.
  unfold positional_encoding. generalize (size3_1 x). intros d.
  split; [|split].
  - intros ->. done.
  - intros [m ->] Hm. rewrite decide_False by lia.
    replace (2 * m + 1 + 1)%nat with (2 * (m + 1))%nat by lia.
    replace (2 * m + 1)%nat with (S (2 * m)) by lia.
    rewrite Nat.div2_double, Nat.div2_succ_double.
    rewrite decide_False by lia. done.
  - intros [->|[[m ->] Hm]]; [done|].
    rewrite decide_False by lia.
    replace (2 * m + 1)%nat with (S (2 * m)) by lia.
    rewrite Nat.div2_double, Nat.div2_succ_double.
    by rewrite decide_True by (by left).
Qed.

(** [forward] up to the call of the text encoder: the pass continues on
    the corrected buffers and the random source the encoder left. *)
Lemma forward_after_encoder self a w lx mx bx l lx' mx' bx' out r1 :
  Fwd.label_xml a = Some lx →
  Fwd.midi_xml a = Some mx →
  Fwd.beat_xml a = Some bx →
  Fwd.label_xml_lengths a = Some l →
  reconcile_xml (Some lx) (Some mx) (Some bx) (Fwd.feats a) =
    Ok (lx', mx', bx') →
  text_encoder self (Some lx')
    (Some (heap_after w l (shape2_1 lx) (size3_2 (Fwd.feats a)) l))
    (Some (Fwd.ds a)) (Some mx') (Some bx') (rng w) = (Ok out, r1) →
  ∃ w1,
    (∀ l', heap w1 l' = heap_after w l (shape2_1 lx) (size3_2 (Fwd.feats a)) l') ∧
    forward self a w =
      (out ← net (text_encoder self (Some lx') (Some (heap w1 l))
                    (Some (Fwd.ds a)) (Some mx') (Some bx'));
       (let '(x, m_p, logs_p, x_mask) := out in
        g ← net (global_conditioning self (Fwd.sids a)
                   (attr_of (Fwd.spembs a)) (Fwd.lids a));
        _ ← lift_result (positional_encoding x);
        feats_lengths ← read_buffer (Fwd.feats_lengths a);
        '(z, m_q, logs_q, y_mask) ← net
          (posterior_encoder self (Some (Fwd.feats a)) (Some feats_lengths) g);
        z_p ← net (flow self z y_mask g false);
        '(z_segments, z_start_idxs) ← net
          (get_random_segments z feats_lengths (segment_size self));
        wav ← net (decoder self z_segments g);
        mret (PyTuple
          [ PyTensor (FloatTensor3 wav);
            PyTensor (IntTensor1 z_start_idxs);
            PyTensor (FloatTensor3 x_mask);
            PyTensor (FloatTensor3 y_mask);
            PyTuple
              [ PyTensor (FloatTensor3 z);
                PyTensor (FloatTensor3 z_p);
                PyTensor (FloatTensor3 m_p);
                PyTensor (FloatTensor3 logs_p);
                PyTensor (FloatTensor3 m_q);
                PyTensor (FloatTensor3 logs_q) ] ])) : ST world pyval) w1 ∧
    net (text_encoder self (Some lx') (Some (heap w1 l))
           (Some (Fwd.ds a)) (Some mx') (Some bx')) w1 =
      (Ok out, World (heap w1) r1).
Proof.
  intros Hlx Hmx Hbx Hl Hrec Henc.
  destruct (forward_after_loop self a w lx l Hlx Hl) as (w1 & Hc & E).
  pose proof (lengths_corrected_heap_after _ _ _ _ _ Hc) as Hheap.
  destruct Hc as (Hr & _ & _).
  exists w1. split; [done|]. split.
  - rewrite E, Hmx, Hbx, Hrec.
    rewrite (bind_Ok _ _ w1 _ w1 (lift_result_Ok _ _)).
    unfold forward_tail. rewrite Hl.
    rewrite (bind_Ok _ _ w1 (Some (heap w1 l)) w1) by done.
    reflexivity.
  - apply net_Ok. rewrite Hheap, Hr. exact Henc.
Qed.

(** X3. The positional-encoding block of [forward] divides by the hidden
    width of the text encoder's output and fills the odd columns of a
    table with one cosine column per even column.  A hidden width of 0
    raises [ZeroDivisionError], an odd width of 3 or more raises
    [RuntimeError]; in both cases the text encoder and the conditioning
    layers have run and the posterior encoder has not.  Width 1 and every
    positive even width pass. *)
Theorem X3_forward_hidden_width self a w lx mx bx l lx' mx' bx'
    x m_p logs_p x_mask r1 g r2 :
  Fwd.label_xml a = Some lx →
  Fwd.midi_xml a = Some mx →
  Fwd.beat_xml a = Some bx →
  Fwd.label_xml_lengths a = Some l →
  reconcile_xml (Some lx) (Some mx) (Some bx) (Fwd.feats a) =
    Ok (lx', mx', bx') →
  text_encoder self (Some lx')
    (Some (heap_after w l (shape2_1 lx) (size3_2 (Fwd.feats a)) l))
    (Some (Fwd.ds a)) (Some mx') (Some bx') (rng w) =
    (Ok (x, m_p, logs_p, x_mask), r1) →
  global_conditioning self (Fwd.sids a) (attr_of (Fwd.spembs a)) (Fwd.lids a) r1 =
    (Ok g, r2) →
  (size3_1 x = 0%nat →
     (forward self a w).1 = Raise ZeroDivisionError ∧
     rng (forward self a w).2 = r2) ∧
  (Nat.Odd (size3_1 x) → (3 ≤ size3_1 x)%nat →
     (forward self a w).1 = Raise RuntimeError ∧
     rng (forward self a w).2 = r2) ∧
  (size3_1 x = 1%nat ∨ (Nat.Even (size3_1 x) ∧ size3_1 x ≠ 0%nat) →
     positional_encoding x = Ok ()).
Proof.
  intros Hlx Hmx Hbx Hl Hrec Henc Hg.
  destruct (forward_after_encoder self a w lx mx bx l lx' mx' bx' _ r1
              Hlx Hmx Hbx Hl Hrec Henc) as (w1 & Hheap & E & Hnet).
  destruct (positional_encoding_cases x) as (H0 & Hodd & Hok).
  assert (Hraise : ∀ e, positional_encoding x = Raise e →
            (forward self a w).1 = Raise e ∧ rng (forward self a w).2 = r2).
  { intros e He. rewrite E.
    rewrite (bind_Ok _ _ w1 _ _ Hnet). cbv beta iota.
    erewrite bind_Ok; [|apply net_Ok; exact Hg]. cbv beta iota.
    erewrite bind_Raise; [|rewrite He; reflexivity]. done. }
  split; [|split; [|done]].
  - intros Hd. apply Hraise. by apply H0.
  - intros Hd H3. apply Hraise. by apply Hodd.
Qed.

(** *** Lines 399-416 and 610-627: global conditioning *)

Lemma global_conditioning_no_sids self n spembs_arg lids r :
  spks self = Some n →
  global_conditioning self None spembs_arg lids r = (Raise AttributeError, r).
Proof.
  intros Hs. unfold global_conditioning. rewrite Hs.
  destruct (global_emb self) as [emb|]; reflexivity.
Qed.

(** X4. A generator with a speaker count reads [sids] without a test.
    Called without [sids], [forward] and [inference] raise
    [AttributeError] once the text encoder has run; no later sub-network
    is called. *)
Theorem X4_speaker_ids_required self n :
  spks self = Some n →
  (∀ a w lx mx bx l lx' mx' bx' out r1,
     Fwd.sids a = None →
     Fwd.label_xml a = Some lx →
     Fwd.midi_xml a = Some mx →
     Fwd.beat_xml a = Some bx →
     Fwd.label_xml_lengths a = Some l →
     reconcile_xml (Some lx) (Some mx) (Some bx) (Fwd.feats a) =
       Ok (lx', mx', bx') →
     text_encoder self (Some lx')
       (Some (heap_after w l (shape2_1 lx) (size3_2 (Fwd.feats a)) l))
       (Some (Fwd.ds a)) (Some mx') (Some bx') (rng w) = (Ok out, r1) →
     (forward self a w).1 = Raise AttributeError ∧
     rng (forward self a w).2 = r1) ∧
  (∀ a r out r1,
     Inf.sids a = None →
     text_encoder self (Inf.label_xml a) (Inf.label_xml_lengths a) None
       (Inf.midi_xml a) (Inf.beat_xml a) r = (Ok out, r1) →
     inference self a r = (Raise AttributeError, r1)).
Proof.
  intros Hs. split.
  - intros a w lx mx bx l lx' mx' bx' [[[x m_p] logs_p] x_mask] r1
      Hsid Hlx Hmx Hbx Hl Hrec Henc.
    destruct (forward_after_encoder self a w lx mx bx l lx' mx' bx' _ r1
                Hlx Hmx Hbx Hl Hrec Henc) as (w1 & Hheap & E & Hnet).
    rewrite E, (bind_Ok _ _ w1 _ _ Hnet). cbv beta iota.
    erewrite bind_Raise; cycle 1.
    { unfold net. cbn [rng]. rewrite Hsid.
      by rewrite (global_conditioning_no_sids self n _ _ _ Hs). }
    done.
  - intros a r [[[x m_p] logs_p] x_mask] r1 Hsid Henc.
    unfold inference.
    rewrite (bind_Ok _ _ r _ r1 Henc). cbv beta iota.
    rewrite (bind_Raise _ _ r1 AttributeError r1); [done|].
    rewrite Hsid. by apply (global_conditioning_no_sids self n).
Qed.

Lemma unsqueeze_last_entry {A} (t : Tensor2 A) b c :
  entry3 (unsqueeze_last t) b c 0 = entry2 t b c.
Proof.
  unfold entry3, entry2, unsqueeze_last. cbn [data3].
  rewrite lookup_map. destruct (data2 t !! b) as [row|]; [|done]. cbn.
  rewrite lookup_map. by destruct (row !! c).
Qed.

Lemma unsqueeze_last_wf {A} (t : Tensor2 A) : wf2 t → wf3 (unsqueeze_last t).
Proof.
  intros [Hl Hr]. split; cbn.
  - by rewrite length_map.
  - apply list.Forall_forall. intros m Hm.
    apply list_elem_of_fmap in Hm as (row & -> & Hrow).
    rewrite list.Forall_forall in Hr. split.
    + rewrite length_map. by apply Hr.
    + apply list.Forall_forall. intros r Hin.
      apply list_elem_of_fmap in Hin as (v & -> & _). done.
Qed.

Lemma entry2_bounds {A} (t : Tensor2 A) b c v :
  wf2 t → entry2 t b c = Some v → (b < (shape2 t).1)%nat ∧ (c < (shape2 t).2)%nat.
Proof.
  intros [Hl Hr] Hv. unfold entry2 in Hv.
  destruct (data2 t !! b) as [row|] eqn:Hb; [|done]. cbn in Hv.
  split.
  - rewrite <- Hl. by eapply lookup_lt_Some.
  - rewrite list.Forall_forall in Hr.
    rewrite <- (Hr row) by (by eapply list_elem_of_lookup_2).
    by eapply lookup_lt_Some.
Qed.

(** The sum of two conditioning vectors of one shape *)
Lemma add_g_same_shape (g g_ : Tensor3 float) :
  wf3 g → wf3 g_ → shape3 g_ = shape3 g →
  ∃ s, add_g (Some g) g_ = Ok s ∧ shape3 s = shape3 g ∧ wf3 s ∧
       ∀ b c k v v_, entry3 g b c k = Some v → entry3 g_ b c k = Some v_ →
                     entry3 s b c k = Some (fadd v v_).
Proof.
  intros Wg Wg_ Hs. unfold add_g.
  destruct (broadcast3_same_shape fadd g g_ Hs) as (s & E & Ss).
  exists s. split; [done|]. split; [done|].
  split; [by apply (broadcast3_wf fadd g g_)|].
  intros b c k v v_ Hv Hv_.
  destruct (entry3_bounds g b c k v Wg Hv) as (Hb & Hc & Hk).
  assert (S0 : size3_0 s = size3_0 g) by (unfold size3_0; by rewrite Ss).
  assert (S1 : size3_1 s = size3_1 g) by (unfold size3_1; by rewrite Ss).
  assert (S2 : size3_2 s = size3_2 g) by (unfold size3_2; by rewrite Ss).
  assert (T0 : size3_0 g_ = size3_0 g) by (unfold size3_0; by rewrite Hs).
  assert (T1 : size3_1 g_ = size3_1 g) by (unfold size3_1; by rewrite Hs).
  assert (T2' : size3_2 g_ = size3_2 g) by (unfold size3_2; by rewrite Hs).
  apply (broadcast3_entry fadd g g_ s b c k v v_ Wg Wg_ E); try lia.
  - rewrite S0, S1, S2, !bidx_same. exact Hv.
  - rewrite S0, S1, S2, T0, T1, T2', !bidx_same. exact Hv_.
Qed.

(** X5. With speakers, speaker embeddings and languages all configured,
    the global conditioning is the entry-wise sum, in this order, of the
    speaker-id embedding, the projected normalised speaker embedding and
    the language-id embedding, as a tensor of shape (B, global_channels, 1);
    the three layers are called in that order on one random source. *)
Theorem X5_global_conditioning_sum self n1 n2 n3 emb proj lemb
    sids s lids e1 e2 e3 r r1 r2 r3 B C :
  spks self = Some n1 → global_emb self = Some emb →
  spk_embed_dim self = Some n2 → spemb_proj self = Some proj →
  langs self = Some n3 → lang_emb self = Some lemb →
  emb (view_flat sids) r = (Ok e1, r1) →
  proj (F_normalize s) r1 = (Ok e2, r2) →
  lemb (view_flat lids) r2 = (Ok e3, r3) →
  wf2 e1 → wf2 e2 → wf2 e3 →
  shape2 e1 = (B, C) → shape2 e2 = (B, C) → shape2 e3 = (B, C) →
  ∃ g,
    global_conditioning self (Some sids) (Ok s) (Some lids) r = (Ok (Some g), r3) ∧
    shape3 g = (B, C, 1%nat) ∧
    wf3 g ∧
    ∀ b c v1 v2 v3,
      entry2 e1 b c = Some v1 → entry2 e2 b c = Some v2 →
      entry2 e3 b c = Some v3 →
      entry3 g b c 0 = Some (fadd (fadd v1 v2) v3).
Proof.
  intros Hs He Hd Hp Hl Hle E1 E2 E3 W1 W2 W3 S1 S2 S3.
  pose proof (unsqueeze_last_wf e1 W1) as U1.
  pose proof (unsqueeze_last_wf e2 W2) as U2.
  pose proof (unsqueeze_last_wf e3 W3) as U3.
  destruct (add_g_same_shape (unsqueeze_last e1) (unsqueeze_last e2) U1 U2)
    as (g12 & A12 & S12 & W12 & H12).
  { cbn. by rewrite S1, S2. }
  destruct (add_g_same_shape g12 (unsqueeze_last e3) W12 U3)
    as (g & A3 & Sg & Wg & Hg).
  { rewrite S12. cbn. by rewrite S1, S3. }
  exists g. split; [|split; [|split; [done|]]].
  - unfold global_conditioning. rewrite Hs, He, Hd, Hp, Hl, Hle. cbn [attr_of].
    unfold mbind, ST_bind, lift_result, mret, ST_ret.
    rewrite E1, E2, A12, E3, A3. reflexivity.
  - rewrite Sg, S12. cbn. by rewrite S1.
  - intros b c v1 v2 v3 H1 H2 H3. apply Hg.
    + apply H12; by rewrite unsqueeze_last_entry.
    + by rewrite unsqueeze_last_entry.
Qed.

(** *** Lines 268-283: what [__init__] stores *)

Lemma conditioning_layer_least {L} n least gc (build : Z → Z → result L) :
  (∀ k, n = Some k → k ≤ least) →
  conditioning_layer n least gc build = Ok (None, None).
Proof.
  intros Hn. unfold conditioning_layer. destruct n as [k|]; [|done].
  rewrite decide_False; [done|]. specialize (Hn k eq_refl). lia.
Qed.

(** X6. Without a feature that needs it, [__init__] never looks at
    [global_channels]: with at most one speaker, no speaker-embedding
    dimension above 0 and at most one language, it builds a generator for
    any global width, the three attributes are [None] and no layer is
    assigned, and the global conditioning of that generator is [None]
    whatever ids and embeddings are passed, without a call to the random
    source. *)
Theorem X6_no_conditioning_without_features cfg :
  no_conditioning cfg →
  is_Ok (build_networks cfg) → is_Ok import_maximum_path →
  ∃ self,
    __init__ cfg = Ok self ∧
    spks self = None ∧ global_emb self = None ∧
    spk_embed_dim self = None ∧ spemb_proj self = None ∧
    langs self = None ∧ lang_emb self = None ∧
    ∀ sids spembs_arg lids r,
      global_conditioning self sids spembs_arg lids r = (Ok None, r).
Proof.
  intros (Hs & He & Hl) Hnets Himp. unfold __init__.
  destruct (build_networks cfg) as [[[[[[[te de] pe] fl] pr] dp] lr']|]; [|done].
  cbn [mbind result_bind].
  rewrite (conditioning_layer_least _ 1 _ Embedding Hs).
  rewrite (conditioning_layer_least _ 0 _ Linear He).
  rewrite (conditioning_layer_least _ 1 _ Embedding Hl).
  cbn [mbind result_bind].
  destruct import_maximum_path as [mp|]; [|done].
  eexists. split; [reflexivity|]. cbn. repeat (split; [done|]). done.
Qed.

(** X7. In a generator built by [__init__] every conditioning attribute
    comes with its layer: [spks] is set exactly when more than one speaker
    is configured and then [global_emb] is the embedding of that many
    speakers into [global_channels] (likewise [spk_embed_dim] with
    [spemb_proj] above 0 and [langs] with [lang_emb] above 1), and
    [global_channels] is positive as soon as one of them is set.  So the
    conditioning block never meets a set attribute with a missing layer. *)
Theorem X7_init_pairs_attribute_and_layer cfg self :
  __init__ cfg = Ok self →
  let gc := Config.global_channels cfg in
  paired (spks self) (global_emb self) (Config.spks cfg) 1
    (λ n, Embedding_call n gc) ∧
  paired (spk_embed_dim self) (spemb_proj self) (Config.spk_embed_dim cfg) 0
    (λ n, Linear_call n gc) ∧
  paired (langs self) (lang_emb self) (Config.langs cfg) 1
    (λ n, Embedding_call n gc) ∧
  (is_Some (spks self) ∨ is_Some (spk_embed_dim self) ∨ is_Some (langs self) →
   0 < gc).
Proof.
  unfold __init__.
  destruct (build_networks cfg) as [[[[[[[te de] pe] fl] pr] dp] lr']|]; [|done].
  cbn [mbind result_bind].
  destruct (conditioning_layer (Config.spks cfg) _ _ _) as [[a1 l1]|] eqn:E1;
    [|done].
  destruct (conditioning_layer (Config.spk_embed_dim cfg) _ _ _) as [[a2 l2]|]
    eqn:E2; [|done].
  destruct (conditioning_layer (Config.langs cfg) _ _ _) as [[a3 l3]|] eqn:E3;
    [|done].
  cbn [mbind result_bind].
  destruct import_maximum_path as [mp|]; [|done].
  intros [= <-]. cbn.
  assert (P : ∀ {L} n least (build : Z → Z → result L) make a ly,
            conditioning_layer n least (Config.global_channels cfg) build =
              Ok (a, ly) →
            (∀ k l, build k (Config.global_channels cfg) = Ok l → l = make k) →
            paired a ly n least make ∧
            (is_Some a → 0 < Config.global_channels cfg)).
  { intros L n least build make a ly E Hb.
    destruct (conditioning_layer_inv _ _ _ _ _ E)
      as [[[= -> ->] Hn]|(k & layer & -> & Hk & Hgc & Hl & [= -> ->])].
    - split; [|by intros [? [=]]]. split; [done|].
      intros k Hk. specialize (Hn k Hk). lia.
    - split; [|done]. cbn. by rewrite (Hb _ _ Hl). }
  destruct (P _ _ _ _ (λ n, Embedding_call n (Config.global_channels cfg))
              _ _ E1) as [P1 G1].
  { intros k l. unfold Embedding. case_decide; [done|]. by intros [= <-]. }
  destruct (P _ _ _ _ (λ n, Linear_call n (Config.global_channels cfg))
              _ _ E2) as [P2 G2].
  { intros k l. unfold Linear. case_decide; [done|]. by intros [= <-]. }
  destruct (P _ _ _ _ (λ n, Embedding_call n (Config.global_channels cfg))
              _ _ E3) as [P3 G3].
  { intros k l. unfold Embedding. case_decide; [done|]. by intros [= <-]. }
  do 3 (split; [done|]). intros [?|[?|?]]; auto.
Qed.

(** X8. [upsample_factor] is [int(np.prod(decoder_upsample_scales))]: the
    product taken in 64-bit integers.  For scales that are 64-bit integers
    the stored factor lies in the 64-bit range and agrees with the exact
    product modulo 2^64; it is the exact product whenever that fits, and a
    wrapped value, with no error raised, when it does not. *)
Theorem X8_upsample_factor_wraps cfg self :
  __init__ cfg = Ok self →
  Forall (λ s, - 2 ^ 63 ≤ s < 2 ^ 63) (Config.decoder_upsample_scales cfg) →
  - 2 ^ 63 ≤ upsample_factor self < 2 ^ 63 ∧
  upsample_factor self mod 2 ^ 64 =
    list_prod (Config.decoder_upsample_scales cfg) mod 2 ^ 64 ∧
  (- 2 ^ 63 ≤ list_prod (Config.decoder_upsample_scales cfg) < 2 ^ 63 →
   upsample_factor self = list_prod (Config.decoder_upsample_scales cfg)).
Proof.
  intros Hinit _.
  destruct (init_inv cfg self Hinit) as (_ & _ & _ & _ & _ & ->).
  split; [|split].
  - apply np_prod_fold_range. lia.
  - unfold np_prod. rewrite np_prod_fold_congr. f_equal. lia.
  - apply np_prod_exact.
Qed.

(** *** Lines 365-390: the correction and the streams, further cases *)

Lemma corrected_idempotent W T buf :
  corrected W T (corrected W T buf) = corrected W T buf.
Proof.
  unfold corrected. rewrite map_map. apply map_ext. intros n.
  repeat case_decide; congruence.
Qed.

Lemma corrected_same_width T buf : corrected T T buf = buf.
Proof.
  unfold corrected. rewrite <- (map_id buf) at 2. apply map_ext. intros n.
  by case_decide.
Qed.

(** The buffers after [forward] when label stream and lengths are present *)
Lemma forward_heap_present self a w lx l :
  Fwd.label_xml a = Some lx → Fwd.label_xml_lengths a = Some l →
  ∀ l', heap (forward self a w).2 l' =
        heap_after w l (shape2_1 lx) (size3_2 (Fwd.feats a)) l'.
Proof.
  intros Hlx Hl l'.
  destruct (forward_after_loop self a w lx l Hlx Hl) as (w1 & Hc & E).
  assert (K : keeps_heap
            ('(lx', mx', bx') ← lift_result
               (reconcile_xml (Some lx) (Fwd.midi_xml a) (Fwd.beat_xml a)
                  (Fwd.feats a));
             forward_tail self a lx' mx' bx')).
  { apply keeps_heap_bind; [apply keeps_heap_lift|].
    intros [[lx' mx'] bx']. apply forward_tail_keeps_heap. }
  rewrite E, (K w1). by apply lengths_corrected_heap_after.
Qed.

(** ... and when one of them is absent: the call raises and has written
    nothing. *)
Lemma forward_state_absent self a w :
  Fwd.label_xml a = None ∨ Fwd.label_xml_lengths a = None →
  heap (forward self a w).2 = heap w.
Proof.
  intros Habs. unfold forward.
  destruct (Fwd.label_xml_lengths a) as [l|] eqn:Hl; cycle 1.
  { by rewrite (bind_Raise _ _ w TypeError w). }
  destruct Habs as [Hlx|[=]]. rewrite Hlx.
  assert (E : (correct_lengths None (Some l) (Fwd.feats a) w).2 = w).
  { unfold correct_lengths.
    rewrite (bind_Ok _ _ w l w) by done.
    rewrite (bind_Ok _ _ w (heap w l) w) by done.
    destruct (heap w l) as [|v buf] eqn:Hbuf; [done|].
    cbn [length seq for_each].
    assert (E : correct_length_at None l (Fwd.feats a) 0 w =
                (Raise AttributeError, w)).
    { unfold correct_length_at.
      rewrite (bind_Ok _ _ w v w) by (unfold read_item; by rewrite Hbuf).
      done. }
    by rewrite (bind_Raise _ _ w _ w E). }
  destruct (correct_lengths None (Some l) (Fwd.feats a) w) as [[[]|e] w'] eqn:Ec;
    cbn in E; subst w'.
  - rewrite (bind_Ok _ _ w () w Ec).
    by rewrite (bind_Raise _ _ w AttributeError w).
  - by rewrite (bind_Raise _ _ w e w Ec).
Qed.

(** X9. The in-place correction of [label_xml_lengths] is idempotent: a
    second call of [forward] on the same arguments, as in the two turns of
    one adversarial training step, leaves every buffer of the caller as
    the first call left it, whether the calls return or raise. *)
Theorem X9_forward_twice_same_buffers self a w l' :
  heap (forward self a (forward self a w).2).2 l' =
  heap (forward self a w).2 l'.
Proof.
  destruct (Fwd.label_xml a) as [lx|] eqn:Hlx; cycle 1.
  { by rewrite (forward_state_absent self a (forward self a w).2) by (by left). }
  destruct (Fwd.label_xml_lengths a) as [l|] eqn:Hl; cycle 1.
  { by rewrite (forward_state_absent self a (forward self a w).2) by (by right). }
  rewrite (forward_heap_present self a _ lx l Hlx Hl).
  unfold heap_after at 1.
  destruct (decide (l' = l)) as [->|Hne].
  - rewrite fn_lookup_insert.
    rewrite !(forward_heap_present self a w lx l Hlx Hl).
    unfold heap_after. rewrite fn_lookup_insert.
    apply corrected_idempotent.
  - by rewrite fn_lookup_insert_ne.
Qed.

Lemma slice_cols_id {A} (t : Tensor2 A) n :
  wf2 t → (shape2_1 t ≤ n)%nat → slice_cols t n = t.
Proof.
  destruct t as [[r c] d]. unfold wf2, shape2_1, slice_cols. cbn.
  intros [_ Hrows] Hn. f_equal.
  - f_equal. lia.
  - induction Hrows as [|row d Hrow _ IH]; [done|]. cbn.
    rewrite IH. f_equal. apply take_ge. lia.
Qed.

(** X10. When the three xml streams already have the feature length,
    [forward] changes nothing before the text encoder: the pass continues
    on the streams as given, and every buffer and the random source are
    as before the call. *)
Theorem X10_aligned_streams_unchanged self a w lx mx bx l :
  Fwd.label_xml a = Some lx →
  Fwd.midi_xml a = Some mx →
  Fwd.beat_xml a = Some bx →
  Fwd.label_xml_lengths a = Some l →
  wf2 lx → wf2 mx → wf2 bx →
  shape2_1 lx = size3_2 (Fwd.feats a) →
  shape2_1 mx = size3_2 (Fwd.feats a) →
  shape2_1 bx = size3_2 (Fwd.feats a) →
  ∃ w1, forward self a w = forward_tail self a lx mx bx w1 ∧
        rng w1 = rng w ∧ ∀ l', heap w1 l' = heap w l'.
Proof.
  intros Hlx Hmx Hbx Hl Wl Wm Wb Sl Sm Sb.
  destruct (forward_after_loop self a w lx l Hlx Hl) as (w1 & Hc & E).
  exists w1. split; [|split].
  - rewrite E, Hmx, Hbx. unfold reconcile_xml. cbn [attr_of mbind result_bind].
    rewrite decide_False by lia. cbn [subscript_of mbind result_bind].
    rewrite !slice_cols_id by (done || lia). done.
  - by destruct Hc.
  - intros l'. rewrite (lengths_corrected_heap_after _ _ _ _ _ Hc).
    unfold heap_after. rewrite Sl, corrected_same_width.
    destruct (decide (l' = l)) as [->|Hne].
    + by rewrite fn_lookup_insert.
    + by rewrite fn_lookup_insert_ne.
Qed.

(** X11. The width of the label stream alone chooses between padding and
    slicing.  With a label stream at least as long as the features and a
    narrower midi stream, the label and beat streams are sliced and the
    midi stream is passed on as it is: the text encoder receives a label
    stream of the feature length and a shorter midi stream. *)
Theorem X11_narrow_midi_not_padded self a w lx mx bx l :
  Fwd.label_xml a = Some lx →
  Fwd.midi_xml a = Some mx →
  Fwd.beat_xml a = Some bx →
  Fwd.label_xml_lengths a = Some l →
  wf2 mx →
  (size3_2 (Fwd.feats a) ≤ shape2_1 lx)%nat →
  (shape2_1 mx < size3_2 (Fwd.feats a))%nat →
  ∃ w1,
    forward self a w =
      forward_tail self a (slice_cols lx (size3_2 (Fwd.feats a))) mx
        (slice_cols bx (size3_2 (Fwd.feats a))) w1 ∧
    shape2_1 (slice_cols lx (size3_2 (Fwd.feats a))) = size3_2 (Fwd.feats a) ∧
    (shape2_1 mx < size3_2 (Fwd.feats a))%nat.
Proof.
  intros Hlx Hmx Hbx Hl Wm Sl Sm.
  destruct (forward_after_loop self a w lx l Hlx Hl) as (w1 & Hc & E).
  exists w1. split; [|split; [|done]].
  - rewrite E, Hmx, Hbx. unfold reconcile_xml. cbn [attr_of mbind result_bind].
    rewrite decide_False by lia. cbn [subscript_of mbind result_bind].
    rewrite (slice_cols_id mx) by (done || lia). done.
  - unfold shape2_1, slice_cols in *. cbn. lia.
Qed.

(** *** [_generate_path], for any integer durations *)

Lemma path_before_mask_entries (dur : Tensor3 Z) b t_y t_x :
  wf3 dur → shape3 dur = (b, 1%nat, t_x) →
  ∃ path,
    path_before_mask dur b t_y t_x = Ok path ∧
    shape3 path = (b, t_x, t_y) ∧
    wf3 path ∧
    ∀ k d i j, data3 dur !! k = Some [d] → (i < t_x)%nat → (j < t_y)%nat →
      entry3 path k i j = Some (path_value d i j).
Proof.
  intros Wd Hs.
  destruct (dur_rows dur b t_x Wd Hs) as (ds & Hd & <- & Hall).
  pose proof (steps_wf ds t_x t_y Hall) as WA.
  pose proof (shift_rows_steps_wf ds t_x t_y Hall) as WS.
  destruct (broadcast3_same_shape Z.sub (steps ds t_x t_y)
              (shift_rows (steps ds t_x t_y))) as (path & E & Sp).
  { by rewrite shift_rows_steps. }
  cbn in Sp.
  pose proof (broadcast3_wf _ _ _ _ WA WS E) as Wp.
  exists path. split; [by rewrite (path_before_mask_unfold dur ds t_x t_y)|].
  split; [done|]. split; [done|].
  intros k d i j Hk Hi Hj.
  rewrite Hd, list_lookup_fmap in Hk.
  destruct (ds !! k) as [d'|] eqn:Hdk; [|done]. injection Hk as ->.
  assert (Hld : length d = t_x).
  { rewrite Forall_lookup in Hall. by apply (Hall k d). }
  pose proof (lookup_lt_Some _ _ _ Hdk) as Hkb.
  apply (broadcast3_entry Z.sub (steps ds t_x t_y)
           (shift_rows (steps ds t_x t_y)) path k i j); try done;
    unfold size3_0, size3_1, size3_2; rewrite ?Sp; cbn [fst snd]; try done;
    rewrite ?shift_rows_steps; cbn [steps shape3 fst snd];
    rewrite !bidx_same.
  - apply steps_entry; [done|lia|done].
  - rewrite <- shift_rows_steps. by apply shift_rows_steps_entry.
Qed.

Lemma path_value_cases d i j :
  (cum d i ≤ Z.of_nat j < cum d (S i) ∧ path_value d i j = 1) ∨
  (cum d (S i) ≤ Z.of_nat j < cum d i ∧ path_value d i j = -1) ∨
  (¬ (cum d i ≤ Z.of_nat j < cum d (S i)) ∧
   ¬ (cum d (S i) ≤ Z.of_nat j < cum d i) ∧ path_value d i j = 0).
Proof.
  unfold path_value. repeat case_bool_decide; unfold of_bool; lia.
Qed.

Lemma column_lookup {A} j (m : list (list A)) :
  Forall (λ r, (j < length r)%nat) m →
  ∀ i, column j m !! i = m !! i ≫= λ r, r !! j.
Proof.
  induction 1 as [|r m Hr _ IH]; intros i; [done|].
  destruct (lookup_lt_is_Some_2 r j Hr) as [v Hv].
  unfold column in *. cbn. rewrite Hv. cbn.
  destruct i as [|i]; cbn; [done|]. apply IH.
Qed.

Lemma column_length {A} j (m : list (list A)) :
  Forall (λ r, (j < length r)%nat) m → length (column j m) = length m.
Proof.
  induction 1 as [|r m Hr _ IH]; [done|].
  destruct (lookup_lt_is_Some_2 r j Hr) as [v Hv].
  unfold column in *. cbn. rewrite Hv. cbn. by rewrite IH.
Qed.

Lemma transpose_lookup {A} cols (m : list (list A)) j :
  (j < cols)%nat → transpose cols m !! j = Some (column j m).
Proof.
  intros Hj. unfold transpose. rewrite lookup_map.
  by rewrite lookup_seq_lt.
Qed.

Lemma wf4_lookup {A} (t : Tensor4 A) k x :
  wf4 t → data4 t !! k = Some x →
  length x = (shape4 t).1.1.2 ∧
  ∀ c m, x !! c = Some m →
    length m = (shape4 t).1.2 ∧
    ∀ j r, m !! j = Some r → length r = (shape4 t).2.
Proof.
  intros [_ H] Hk. rewrite Forall_lookup in H.
  destruct (H k x Hk) as [Hx Hm]. split; [done|].
  intros c m Hc. rewrite Forall_lookup in Hm.
  destruct (Hm c m Hc) as [Hlm Hr]. split; [done|].
  intros j r Hj. rewrite Forall_lookup in Hr. by apply (Hr j r).
Qed.

Lemma unsqueeze1_transpose23_entry {A} (path : Tensor3 A) b t_x t_y k i j :
  wf3 path → shape3 path = (b, t_x, t_y) → (j < t_y)%nat →
  entry4 (unsqueeze1_transpose23 path) k 0 j i = entry3 path k i j.
Proof.
  intros Wp Hs Hj. unfold unsqueeze1_transpose23. rewrite Hs.
  unfold entry4, entry3. cbn [data4]. rewrite lookup_map.
  destruct (data3 path !! k) as [m|] eqn:Hm; [|done]. cbn.
  rewrite transpose_lookup by done. cbn.
  rewrite column_lookup; [done|].
  destruct (wf3_rows path k m Wp Hm) as [_ Hrows].
  apply Forall_lookup. intros i' r Hr. rewrite (Hrows i' r Hr).
  unfold size3_2. by rewrite Hs.
Qed.

Lemma unsqueeze1_transpose23_wf {A} (path : Tensor3 A) b t_x t_y :
  wf3 path → shape3 path = (b, t_x, t_y) →
  wf4 (unsqueeze1_transpose23 path) ∧
  shape4 (unsqueeze1_transpose23 path) = (b, 1%nat, t_y, t_x).
Proof.
  intros Wp Hs. unfold unsqueeze1_transpose23. rewrite Hs.
  split; [|done]. split; cbn.
  - rewrite length_map. destruct Wp as [Hl _]. by rewrite Hl, Hs.
  - apply Forall_lookup. intros k x Hx. rewrite lookup_map in Hx.
    destruct (data3 path !! k) as [m|] eqn:Hm; [|done]. injection Hx as <-.
    destruct (wf3_rows path k m Wp Hm) as [Hlm Hrows].
    split; [done|]. apply list.Forall_cons. split; [|done].
    unfold transpose. split; [by rewrite length_map, length_seq|].
    apply Forall_lookup. intros j r Hr. rewrite lookup_map in Hr.
    destruct (seq 0 t_y !! j) as [j'|] eqn:Hj; [|done]. injection Hr as <-.
    apply lookup_seq in Hj as [-> Hj].
    rewrite column_length.
    + rewrite Hlm. unfold size3_1. by rewrite Hs.
    + apply Forall_lookup. intros i' r Hr. rewrite (Hrows i' r Hr).
      unfold size3_2. rewrite Hs. cbn. lia.
Qed.

Lemma bzip_lookup_same {A B C} (f : A → B → C) n la lb i a b :
  length la = n → length lb = n →
  la !! i = Some a → lb !! i = Some b →
  bzip f n la lb !! i = Some (f a b).
Proof.
  intros Ha Hb Hla Hlb. pose proof (lookup_lt_Some _ _ _ Hla).
  apply bzip_lookup; [by left|by left|lia|..].
  - by rewrite Ha, bidx_same.
  - by rewrite Hb, bidx_same.
Qed.

Lemma bzip_lookup_one {A B C} (f : A → B → C) n la lb i a b :
  length la = 1%nat → length lb = n →
  la !! 0%nat = Some a → lb !! i = Some b →
  bzip f n la lb !! i = Some (f a b).
Proof.
  intros Ha Hb Hla Hlb. pose proof (lookup_lt_Some _ _ _ Hlb).
  apply bzip_lookup; [by right|by left|lia|..].
  - rewrite Ha. unfold bidx. case_decide; [|done].
    by replace i with 0%nat by lia.
  - by rewrite Hb, bidx_same.
Qed.

Lemma bdim_same n : bdim n n = Ok n.
Proof. unfold bdim. by rewrite decide_True. Qed.

Lemma bdim_one n : bdim 1 n = Ok n.
Proof.
  unfold bdim. case_decide as H; [by rewrite <- H|]. by rewrite decide_True.
Qed.

(** A one-channel tensor times a [c]-channel tensor of the same other
    sizes: the one channel is repeated *)
Lemma broadcast4_channels {A} (f : A → A → A) (a m : Tensor4 A) b c t_y t_x :
  wf4 a → wf4 m →
  shape4 a = (b, 1%nat, t_y, t_x) → shape4 m = (b, c, t_y, t_x) →
  ∃ out, broadcast4 f a m = Ok out ∧ shape4 out = (b, c, t_y, t_x) ∧
    ∀ k c' j i x y,
      entry4 a k 0 j i = Some x → entry4 m k c' j i = Some y →
      entry4 out k c' j i = Some (f x y).
Proof.
  intros Wa Wm Sa Sm. unfold broadcast4. rewrite Sa, Sm.
  rewrite !bdim_same, bdim_one. cbn [mbind result_bind].
  eexists. split; [reflexivity|]. split; [done|].
  intros k c' j i x y Hx Hy. unfold entry4 in *. cbn [data4].
  destruct (data4 a !! k) as [ak|] eqn:Eak; [|done].
  destruct (data4 m !! k) as [mk|] eqn:Emk; [|done]. cbn in Hx, Hy.
  destruct (ak !! 0%nat) as [a0|] eqn:Ea0; [|done].
  destruct (mk !! c') as [mc|] eqn:Emc; [|done]. cbn in Hx, Hy.
  destruct (a0 !! j) as [ar|] eqn:Ear; [|done].
  destruct (mc !! j) as [mr|] eqn:Emr; [|done]. cbn in Hx, Hy.
  destruct (wf4_lookup a k ak Wa Eak) as [La1 Ha1].
  destruct (Ha1 _ _ Ea0) as [La2 Ha2]. pose proof (Ha2 _ _ Ear) as La3.
  destruct (wf4_lookup m k mk Wm Emk) as [Lm1 Hm1].
  destruct (Hm1 _ _ Emc) as [Lm2 Hm2]. pose proof (Hm2 _ _ Emr) as Lm3.
  rewrite Sa in La1, La2, La3. rewrite Sm in Lm1, Lm2, Lm3.
  cbn in La1, La2, La3, Lm1, Lm2, Lm3.
  destruct Wa as [La0 _], Wm as [Lm0 _]. rewrite Sa in La0. rewrite Sm in Lm0.
  cbn in La0, Lm0.
  rewrite (bzip_lookup_same _ b _ _ k ak mk La0 Lm0 Eak Emk). cbn.
  rewrite (bzip_lookup_one _ c _ _ c' a0 mc La1 Lm1 Ea0 Emc). cbn.
  rewrite (bzip_lookup_same _ t_y _ _ j ar mr La2 Lm2 Ear Emr). cbn.
  by rewrite (bzip_lookup_same _ t_x _ _ i x y La3 Lm3 Hx Hy).
Qed.

Lemma entry4_bounds {A} (t : Tensor4 A) k c j i v :
  wf4 t → entry4 t k c j i = Some v →
  (k < (shape4 t).1.1.1)%nat ∧ (c < (shape4 t).1.1.2)%nat ∧
  (j < (shape4 t).1.2)%nat ∧ (i < (shape4 t).2)%nat.
Proof.
  intros Wt Hv. unfold entry4 in Hv.
  destruct (data4 t !! k) as [x|] eqn:Ex; [|done]. cbn in Hv.
  destruct (x !! c) as [m|] eqn:Em; [|done]. cbn in Hv.
  destruct (m !! j) as [r|] eqn:Er; [|done]. cbn in Hv.
  destruct (wf4_lookup t k x Wt Ex) as [L1 H1].
  destruct (H1 _ _ Em) as [L2 H2]. pose proof (H2 _ _ Er) as L3.
  destruct Wt as [L0 _].
  rewrite <- L0, <- L1, <- L2, <- L3.
  repeat split; by eapply lookup_lt_Some.
Qed.

(** X12. For a duration tensor of shape (b, 1, t_x) and a mask of shape
    (b, c, t_y, t_x), [_generate_path] returns a tensor of the shape of
    the mask; its entry at batch [k], channel [c'], frame [j] and token
    [i] is the path value of token [i] at frame [j] times the mask entry,
    the one path being repeated over the channels of the mask.  This
    holds for any integer durations; where the mask is 0 the result is 0. *)
Theorem X12_generate_path_masked (dur : Tensor3 Z) (mask : Tensor4 Z)
    (b c t_y t_x : nat) :
  wf3 dur → shape3 dur = (b, 1%nat, t_x) →
  wf4 mask → shape4 mask = (b, c, t_y, t_x) →
  ∃ out,
    _generate_path dur mask = Ok out ∧
    shape4 out = (b, c, t_y, t_x) ∧
    (∀ k c' j i d m,
       data3 dur !! k = Some [d] → entry4 mask k c' j i = Some m →
       entry4 out k c' j i = Some (path_value d i j * m)) ∧
    (∀ k c' j i,
       (k < b)%nat → entry4 mask k c' j i = Some 0 →
       entry4 out k c' j i = Some 0).
Proof.
  intros Wd Sd Wm Sm.
  destruct (path_before_mask_entries dur b t_y t_x Wd Sd)
    as (path & Ep & Sp & Wp & Hent).
  destruct (unsqueeze1_transpose23_wf path b t_x t_y Wp Sp) as [Wu Su].
  destruct (broadcast4_channels Z.mul _ mask b c t_y t_x Wu Wm Su Sm)
    as (out & Eo & So & Ho).
  assert (Hval : ∀ k c' j i d m,
            data3 dur !! k = Some [d] → entry4 mask k c' j i = Some m →
            entry4 out k c' j i = Some (path_value d i j * m)).
  { intros k c' j i d m Hd Hm.
    destruct (entry4_bounds mask k c' j i m Wm Hm) as (_ & _ & Hj & Hi).
    rewrite Sm in Hj, Hi. cbn in Hj, Hi.
    apply Ho; [|done].
    rewrite (unsqueeze1_transpose23_entry path b t_x t_y) by done.
    by apply Hent. }
  exists out. split; [|split; [done|split; [done|]]].
  - unfold _generate_path. rewrite Sm, Ep. exact Eo.
  - intros k c' j i Hk Hm.
    destruct (dur_rows dur b t_x Wd Sd) as (ds & Hd & Hb & _).
    destruct (lookup_lt_is_Some_2 ds k) as [d Hdk]; [lia|].
    rewrite (Hval k c' j i d 0); [f_equal; lia| |done].
    by rewrite Hd, list_lookup_fmap, Hdk.
Qed.

Lemma dur_row_lookup (dur : Tensor3 Z) b t_x k d :
  wf3 dur → shape3 dur = (b, 1%nat, t_x) → data3 dur !! k = Some [d] →
  (k < b)%nat ∧ length d = t_x.
Proof.
  intros Wd Sd Hk. destruct (wf3_rows dur k [d] Wd Hk) as [_ Hr].
  destruct Wd as [Hl _]. rewrite Sd in Hl. cbn in Hl. split.
  - rewrite <- Hl. by eapply lookup_lt_Some.
  - rewrite (Hr 0%nat d eq_refl). unfold size3_2. by rewrite Sd.
Qed.

Lemma dur_row_exists (dur : Tensor3 Z) b t_x k :
  wf3 dur → shape3 dur = (b, 1%nat, t_x) → (k < b)%nat →
  ∃ d, data3 dur !! k = Some [d].
Proof.
  intros Wd Sd Hk. destruct (dur_rows dur b t_x Wd Sd) as (ds & Hd & Hb & _).
  destruct (lookup_lt_is_Some_2 ds k) as [d Hdk]; [lia|].
  exists d. by rewrite Hd, list_lookup_fmap, Hdk.
Qed.

(** X13. Without any assumption on the durations the path before the
    mask has entries -1, 0 and 1 only.  Token [i] with duration [di] has
    a 1 on exactly the frames from its running sum up to that sum plus
    [di], and a -1 on exactly the frames from the sum plus [di] up to
    the sum: a negative duration marks the frames it takes back with -1
    instead of raising. *)
Theorem X13_path_of_any_durations (dur : Tensor3 Z) (b t_y t_x : nat) :
  wf3 dur → shape3 dur = (b, 1%nat, t_x) →
  ∃ path,
    path_before_mask dur b t_y t_x = Ok path ∧
    (∀ k i j v, entry3 path k i j = Some v → v = -1 ∨ v = 0 ∨ v = 1) ∧
    (∀ k d i di j,
       data3 dur !! k = Some [d] → d !! i = Some di → (j < t_y)%nat →
       (entry3 path k i j = Some 1 ↔
          cum d i ≤ Z.of_nat j < cum d i + di) ∧
       (entry3 path k i j = Some (-1) ↔
          cum d i + di ≤ Z.of_nat j < cum d i)).
Proof.
  intros Wd Sd.
  destruct (path_before_mask_entries dur b t_y t_x Wd Sd)
    as (path & Ep & Sp & Wp & Hent).
  exists path. split; [done|]. split.
  - intros k i j v Hv.
    destruct (entry3_bounds path k i j v Wp Hv) as (Hk & Hi & Hj).
    unfold size3_0, size3_1, size3_2 in Hk, Hi, Hj. rewrite Sp in Hk, Hi, Hj.
    cbn in Hk, Hi, Hj.
    destruct (dur_row_exists dur b t_x k Wd Sd Hk) as [d Hd].
    rewrite (Hent k d i j Hd Hi Hj) in Hv. injection Hv as <-.
    destruct (path_value_cases d i j) as [[_ ->]|[[_ ->]|(_ & _ & ->)]]; auto.
  - intros k d i di j Hd Hi Hj.
    destruct (dur_row_lookup dur b t_x k d Wd Sd Hd) as [_ Hld].
    pose proof (lookup_lt_Some _ _ _ Hi) as Hi'.
    rewrite (Hent k d i j Hd ltac:(lia) Hj).
    pose proof (cum_step d i di Hi) as Hc.
    destruct (path_value_cases d i j) as [[? ->]|[[? ->]|(? & ? & ->)]];
      split; split; intros H'; try lia; try done; by injection H'.
Qed.

Lemma path_row (path : Tensor3 Z) b t_x t_y k i d row :
  wf3 path → shape3 path = (b, t_x, t_y) →
  (∀ j, (j < t_y)%nat → entry3 path k i j = Some (path_value d i j)) →
  row3 path k i = Some row →
  row = map (path_value d i) (seq 0 t_y).
Proof.
  intros Wp Sp Hent Hr.
  assert (Hlr : length row = t_y).
  { unfold row3 in Hr. destruct (data3 path !! k) as [m|] eqn:Em; [|done].
    cbn in Hr. destruct (wf3_rows path k m Wp Em) as [_ Hrows].
    rewrite (Hrows i row Hr). unfold size3_2. by rewrite Sp. }
  apply list_eq. intros j. rewrite lookup_map.
  destruct (decide (j < t_y)%nat) as [Hj|Hj].
  - rewrite lookup_seq_lt by done. cbn.
    rewrite <- (Hent j Hj). unfold entry3. unfold row3 in Hr.
    destruct (data3 path !! k) as [m|]; [|done]. cbn in *. by rewrite Hr.
  - rewrite lookup_ge_None_2 by lia. by rewrite lookup_seq_ge by lia.
Qed.

Lemma cum_0 d : cum d 0 = 0.
Proof. unfold cum. by rewrite take_0. Qed.

Lemma cum_le_total d i :
  Forall (λ v, 0 ≤ v) d → 0 ≤ cum d i ≤ foldr Z.add 0 d.
Proof.
  intros Hnn. split.
  - rewrite <- (cum_0 d). apply cum_mono; [done|lia].
  - destruct (decide (i ≤ length d)%nat).
    + rewrite <- (cum_ge d (length d)) by done. by apply cum_mono.
    + rewrite cum_ge by lia. done.
Qed.

Lemma row3_exists {A} (path : Tensor3 A) b t_x t_y k i :
  wf3 path → shape3 path = (b, t_x, t_y) → (k < b)%nat → (i < t_x)%nat →
  ∃ row, row3 path k i = Some row ∧ length row = t_y.
Proof.
  intros Wp Sp Hk Hi. pose proof Wp as [Hl _]. rewrite Sp in Hl. cbn in Hl.
  destruct (lookup_lt_is_Some_2 (data3 path) k) as [m Hm]; [lia|].
  destruct (wf3_rows path k m Wp Hm) as [Hlm Hrows].
  unfold size3_1 in Hlm. rewrite Sp in Hlm. cbn in Hlm.
  destruct (lookup_lt_is_Some_2 m i) as [row Hrow]; [lia|].
  exists row. split.
  - unfold row3. by rewrite Hm.
  - rewrite (Hrows i row Hrow). unfold size3_2. by rewrite Sp.
Qed.

(** X14. For non-negative durations of any total, the path has one row
    of [t_y] frames for every token, and row [i] holds as many ones as
    frames lie between the running sums before and after token [i], both
    cut at the last frame [t_y].  A token that ends within the frames has
    its full duration; a token that starts at or after [t_y] has no frame
    at all, and nothing is raised. *)
Theorem X14_rows_cut_at_last_frame (dur : Tensor3 Z) (b t_y t_x : nat) :
  wf3 dur → shape3 dur = (b, 1%nat, t_x) →
  (∀ k d, data3 dur !! k = Some [d] → Forall (λ v, 0 ≤ v) d) →
  ∃ path,
    path_before_mask dur b t_y t_x = Ok path ∧
    shape3 path = (b, t_x, t_y) ∧
    wf3 path ∧
    ∀ k d i di,
      data3 dur !! k = Some [d] → d !! i = Some di →
      ∃ row,
        row3 path k i = Some row ∧
        length row = t_y ∧
        Z.of_nat (count_ones row) =
          Z.min (cum d (S i)) (Z.of_nat t_y) - Z.min (cum d i) (Z.of_nat t_y) ∧
        (cum d (S i) ≤ Z.of_nat t_y → Z.of_nat (count_ones row) = di) ∧
        (Z.of_nat t_y ≤ cum d i → count_ones row = 0%nat).
Proof.
  intros Wd Sd Hnn.
  destruct (path_before_mask_entries dur b t_y t_x Wd Sd)
    as (path & Ep & Sp & Wp & Hent).
  exists path. split; [done|]. split; [done|]. split; [done|].
  intros k d i di Hd Hi.
  destruct (dur_row_lookup dur b t_x k d Wd Sd Hd) as [Hk Hld].
  pose proof (lookup_lt_Some _ _ _ Hi) as Hi'.
  destruct (row3_exists path b t_x t_y k i Wp Sp Hk ltac:(lia))
    as (row & Hr & Hlr).
  exists row. split; [done|]. split; [done|].
  specialize (Hnn k d Hd).
  pose proof (cum_le_total d i Hnn) as [H0 _].
  pose proof (cum_mono d Hnn i (S i) ltac:(lia)) as Hm.
  pose proof (cum_step d i di Hi) as Hs.
  assert (E : Z.of_nat (count_ones row) =
            Z.min (cum d (S i)) (Z.of_nat t_y) - Z.min (cum d i) (Z.of_nat t_y)).
  { rewrite (path_row path b t_x t_y k i d row Wp Sp);
      [|intros; apply Hent; [done|lia|done]|done].
    unfold path_value. by apply count_ones_interval. }
  split; [done|]. split; lia.
Qed.

Lemma find_token d (j : Z) :
  Forall (λ v, 0 ≤ v) d → ∀ n,
  0 ≤ j < cum d n → ∃ i, (i < n)%nat ∧ cum d i ≤ j < cum d (S i).
Proof.
  intros Hnn. induction n as [|n IH]; intros Hj.
  - rewrite cum_0 in Hj. lia.
  - destruct (decide (j < cum d n)) as [Hlt|Hge].
    + destruct IH as (i & Hi & Hc); [lia|]. exists i. split; [lia|done].
    + exists n. split; lia.
Qed.

(** X15. For non-negative durations every frame below the total
    duration, and below [t_y], is given to exactly one token, and a frame
    at or above the total duration is given to none: its column of the
    path is zero. *)
Theorem X15_frames_covered_once (dur : Tensor3 Z) (b t_y t_x : nat) :
  wf3 dur → shape3 dur = (b, 1%nat, t_x) →
  (∀ k d, data3 dur !! k = Some [d] → Forall (λ v, 0 ≤ v) d) →
  ∃ path,
    path_before_mask dur b t_y t_x = Ok path ∧
    ∀ k d j,
      data3 dur !! k = Some [d] → (j < t_y)%nat →
      (Z.of_nat j < foldr Z.add 0 d →
         ∃ i, entry3 path k i j = Some 1 ∧
              ∀ i', entry3 path k i' j = Some 1 → i' = i) ∧
      (foldr Z.add 0 d ≤ Z.of_nat j →
         ∀ i v, entry3 path k i j = Some v → v = 0).
Proof.
  intros Wd Sd Hnn.
  destruct (path_before_mask_entries dur b t_y t_x Wd Sd)
    as (path & Ep & Sp & Wp & Hent).
  exists path. split; [done|].
  intros k d j Hd Hj. specialize (Hnn k d Hd).
  destruct (dur_row_lookup dur b t_x k d Wd Sd Hd) as [Hk Hld].
  assert (Hin : ∀ i v, entry3 path k i j = Some v →
            (i < t_x)%nat ∧ v = path_value d i j).
  { intros i v Hv.
    destruct (entry3_bounds path k i j v Wp Hv) as (_ & Hi & _).
    unfold size3_1 in Hi. rewrite Sp in Hi. cbn in Hi. split; [done|].
    rewrite (Hent k d i j Hd Hi Hj) in Hv. by injection Hv. }
  split.
  - intros Hlt.
    destruct (find_token d (Z.of_nat j) Hnn t_x) as (i & Hi & Hc).
    { rewrite cum_ge by lia. lia. }
    exists i. split.
    + rewrite (Hent k d i j Hd Hi Hj). f_equal.
      destruct (path_value_cases d i j) as [[_ ->]|[[? _]|(? & _)]]; [done|lia..].
    + intros i' Hv. destruct (Hin i' 1 Hv) as [Hi' E].
      destruct (path_value_cases d i' j) as [[Hc' _]|[[_ E']|(_ & _ & E')]];
        [|rewrite E' in E; lia..].
      destruct (decide (i' = i)) as [|Hne]; [done|exfalso].
      destruct (decide (i' < i)%nat).
      * pose proof (cum_mono d Hnn (S i') i ltac:(lia)). lia.
      * pose proof (cum_mono d Hnn (S i) i' ltac:(lia)). lia.
  - intros Hge i v Hv. destruct (Hin i v Hv) as [Hi ->].
    pose proof (cum_le_total d i Hnn). pose proof (cum_le_total d (S i) Hnn).
    destruct (path_value_cases d i j) as [[? _]|[[? _]|(_ & _ & ->)]];
      [lia..|done].
Qed.

Lemma shift_rows_shape (t : Tensor3 Z) b t_x t_y :
  shape3 t = (b, t_x, t_y) → shape3 (shift_rows t) = (b, t_x, t_y).
Proof.
  intros Hs. unfold shift_rows. rewrite Hs. cbn [shape3]. f_equal. f_equal.
  unfold slice_stop. rewrite decide_True by lia. lia.
Qed.

(** X16. The only test [_generate_path] makes on the durations is the
    number of entries, through [view(b * t_x)]: with another number of
    entries it raises [RuntimeError], and with [b * t_x] entries it
    returns a tensor whatever the layout of [dur] is. *)
Theorem X16_generate_path_checks_entry_count (dur : Tensor3 Z)
    (mask : Tensor4 Z) (b c t_y t_x : nat) :
  shape4 mask = (b, c, t_y, t_x) →
  (numel3 dur = (b * t_x)%nat → is_Ok (_generate_path dur mask)) ∧
  (numel3 dur ≠ (b * t_x)%nat → _generate_path dur mask = Raise RuntimeError).
Proof.
  intros Sm. unfold _generate_path, path_before_mask, view_1d, numel3.
  rewrite Sm. cbn [cumsum_last shape3 size3_0 size3_1 size3_2].
  unfold size3_0, size3_1, size3_2. cbn [shape3]. split; intros Hn.
  - rewrite decide_True by done. cbn [mbind result_bind].
    set (p := T3 (b, t_x, t_y) _).
    destruct (broadcast3_same_shape Z.sub p (shift_rows p)) as (path & -> & Sp).
    { by rewrite (shift_rows_shape p b t_x t_y). }
    unfold p in Sp. cbn [shape3] in Sp.
    cbn [mbind result_bind]. unfold unsqueeze1_transpose23, broadcast4.
    rewrite Sp. cbn [shape3 shape4]. rewrite Sm.
    rewrite !bdim_same, bdim_one. done.
  - by rewrite decide_False by done.
Qed.

(** *** Line 705: the cut of the free-running branch *)

Lemma slice_time_same_stop {A} (t : Tensor3 A) s s' :
  slice_stop (size3_2 t) s = slice_stop (size3_2 t) s' →
  slice_time t s = slice_time t s'.
Proof. intros E. unfold slice_time. by rewrite E. Qed.

Lemma inference_free_running self a r0 x m_p logs_p x_mask r1 g r2 z_p r3
    z r4 zm :
  Inf.use_teacher_forcing a = false →
  text_encoder self (Inf.label_xml a) (Inf.label_xml_lengths a) None
    (Inf.midi_xml a) (Inf.beat_xml a) r0 = (Ok (x, m_p, logs_p, x_mask), r1) →
  global_conditioning self (Inf.sids a)
    (unsqueeze_first <$> attr_of (Inf.spembs a)) (Inf.lids a) r1 = (Ok g, r2) →
  sample_prior m_p logs_p (Inf.noise_scale a) r2 = (Ok z_p, r3) →
  flow self z_p x_mask g true r3 = (Ok z, r4) →
  broadcast3 fmul z x_mask = Ok zm →
  inference self a r0 =
    (wav ← decoder self (slice_time zm (Inf.max_len a)) g;
     mret (PyTuple [ PyTensor (squeeze1 wav); PyNone; PyNone ])) r4.
Proof.
  intros Htf Henc Hg Hz Hflow Hzm. unfold inference.
  rewrite (bind_Ok _ _ r0 _ r1 Henc). cbv beta iota.
  rewrite (bind_Ok _ _ r1 _ r2 Hg). cbv beta. rewrite Htf.
  destruct (decoder self (slice_time zm (Inf.max_len a)) g r4)
    as [[wav|e] r5] eqn:Hdec.
  - rewrite (bind_Ok _ _ r4 wav r5 Hdec).
    rewrite (bind_Ok _ _ r2 wav r5); [done|].
    rewrite (bind_Ok _ _ r2 _ r3 Hz). cbv beta.
    rewrite (bind_Ok _ _ r3 _ r4 Hflow). cbv beta.
    rewrite (bind_Ok _ _ r4 zm r4); [done|]. by rewrite Hzm.
  - rewrite (bind_Raise _ _ r4 e r5 Hdec).
    rewrite (bind_Raise _ _ r2 e r5); [done|].
    rewrite (bind_Ok _ _ r2 _ r3 Hz). cbv beta.
    rewrite (bind_Ok _ _ r3 _ r4 Hflow). cbv beta.
    rewrite (bind_Ok _ _ r4 zm r4); [done|]. by rewrite Hzm.
Qed.

Lemma slice_time_id {A} (t : Tensor3 A) stop :
  wf3 t → slice_stop (size3_2 t) stop = size3_2 t → slice_time t stop = t.
Proof.
  destruct t as [[[s0 s1] s2] d]. unfold slice_time, wf3, size3_0, size3_1, size3_2.
  cbn [shape3 data3 fst snd]. intros [_ Hr] ->. f_equal.
  induction Hr as [|m d [_ Hm] _ IH]; [done|]. cbn. rewrite IH. f_equal.
  clear IH. induction Hm as [|r m Hlr _ IH]; [done|]. cbn. rewrite IH.
  f_equal. apply take_ge. lia.
Qed.

(** X17. [max_len] is used as the stop of a Python slice on the frames
    of the masked latent, not as a cap.  In the free-running branch the
    decoder is called on that slice, a well-formed tensor that holds the
    frames of the masked latent below the stop and no frame from the stop
    on, whatever [max_len] is.  A value at or above the number of frames
    leaves the masked latent as it is, like [None]; a negative value
    [-k] leaves [T - k] frames, like the stop [max(0, T - k)]; and 0
    leaves no frame. *)
Theorem X17_max_len_is_a_slice_stop self a r0 x m_p logs_p x_mask r1 g r2
    z_p r3 z r4 zm :
  Inf.use_teacher_forcing a = false →
  text_encoder self (Inf.label_xml a) (Inf.label_xml_lengths a) None
    (Inf.midi_xml a) (Inf.beat_xml a) r0 = (Ok (x, m_p, logs_p, x_mask), r1) →
  global_conditioning self (Inf.sids a)
    (unsqueeze_first <$> attr_of (Inf.spembs a)) (Inf.lids a) r1 = (Ok g, r2) →
  sample_prior m_p logs_p (Inf.noise_scale a) r2 = (Ok z_p, r3) →
  flow self z_p x_mask g true r3 = (Ok z, r4) →
  broadcast3 fmul z x_mask = Ok zm →
  wf3 z → wf3 x_mask →
  let T := Z.of_nat (size3_2 zm) in
  (∀ stop,
     let cut := slice_time zm stop in
     inference self (with_max_len a stop) r0 =
       (wav ← decoder self cut g;
        mret (PyTuple [ PyTensor (squeeze1 wav); PyNone; PyNone ])) r4 ∧
     wf3 cut ∧
     size3_0 cut = size3_0 zm ∧ size3_1 cut = size3_1 zm ∧
     (∀ b c k, (k < size3_2 cut)%nat → entry3 cut b c k = entry3 zm b c k) ∧
     (∀ b c k, (size3_2 cut ≤ k)%nat → entry3 cut b c k = None)) ∧
  (∀ n, T ≤ n →
     slice_time zm (Some n) = zm ∧ slice_time zm None = zm ∧
     inference self (with_max_len a (Some n)) r0 =
     inference self (with_max_len a None) r0) ∧
  (∀ k, 0 < k →
     size3_2 (slice_time zm (Some (- k))) = Z.to_nat (T - k) ∧
     slice_time zm (Some (- k)) = slice_time zm (Some (Z.max 0 (T - k))) ∧
     inference self (with_max_len a (Some (- k))) r0 =
     inference self (with_max_len a (Some (Z.max 0 (T - k)))) r0) ∧
  size3_2 (slice_time zm (Some 0)) = 0%nat.
Proof.
  intros Htf Henc Hg Hz Hflow Hzm Wz Wx T.
  pose proof (broadcast3_wf fmul z x_mask zm Wz Wx Hzm) as Wzm.
  assert (Hinf : ∀ stop,
            inference self (with_max_len a stop) r0 =
              (wav ← decoder self (slice_time zm stop) g;
               mret (PyTuple [ PyTensor (squeeze1 wav); PyNone; PyNone ])) r4).
  { intros stop.
    by rewrite (inference_free_running self (with_max_len a stop) r0 x m_p
                  logs_p x_mask r1 g r2 z_p r3 z r4 zm). }
  assert (Hsame : ∀ s s',
            slice_stop (size3_2 zm) s = slice_stop (size3_2 zm) s' →
            slice_time zm s = slice_time zm s' ∧
            inference self (with_max_len a s) r0 =
            inference self (with_max_len a s') r0).
  { intros s s' E. pose proof (slice_time_same_stop zm s s' E) as Ecut.
    split; [done|]. by rewrite !Hinf, Ecut. }
  split; [|split; [|split]].
  - intros stop. cbn zeta. split; [apply Hinf|].
    split; [by apply slice_time_wf|]. split; [done|]. split; [done|].
    split; intros b c k.
    + apply slice_time_entry.
    + apply slice_time_beyond.
  - intros n Hn.
    assert (E : slice_stop (size3_2 zm) (Some n) = size3_2 zm).
    { unfold slice_stop. rewrite decide_False by lia. lia. }
    split; [by apply slice_time_id|]. split; [by apply slice_time_id|].
    by apply Hsame.
  - intros k Hk. split.
    + unfold slice_time, size3_2 at 1. cbn [shape3 snd]. unfold slice_stop.
      rewrite decide_True by lia. fold T. lia.
    + apply Hsame. unfold slice_stop.
      rewrite decide_True by lia. rewrite decide_False by lia. lia.
  - unfold slice_time, size3_2 at 1. cbn [shape3 snd]. unfold slice_stop.
    rewrite decide_False by lia. lia.
Qed.

End Further.

(** ** The further properties on the instance *)

Lemma X1_witness :
  forward (espnet := Toy.espnet) Toy.self ToyMore.args_other_text Toy.world0 =
  forward (espnet := Toy.espnet) Toy.self Toy.args Toy.world0.
Proof.
  apply (X1_forward_reads_ten_arguments (espnet := Toy.espnet)).
  repeat split; reflexivity.
Defined.

Lemma X2_witness :
  inference (torch := Toy.torch) Toy.self
    (ToyMore.inf_args_no_feats false 2 (Some 3)) 7%nat =
    inference (torch := Toy.torch) Toy.self (ToyRun.inf_args false) 7%nat ∧
  inference (torch := Toy.torch) Toy.self
    (ToyMore.inf_args_no_feats true 5 None) 7%nat =
    inference (torch := Toy.torch) Toy.self (ToyRun.inf_args true) 7%nat.
Proof.
  split; apply (X2_inference_reads_by_branch (torch := Toy.torch));
    try reflexivity; repeat split; reflexivity.
Defined.

Lemma X3_witness :
  (forward (espnet := Toy.espnet) (ToyMore.self_width 3) Toy.args Toy.world0).1 =
    Raise RuntimeError ∧
  (forward (espnet := Toy.espnet) (ToyMore.self_width 0) Toy.args Toy.world0).1 =
    Raise ZeroDivisionError.
Proof.
  split.
  - edestruct (X3_forward_hidden_width (espnet := Toy.espnet)
                 (ToyMore.self_width 3) Toy.args Toy.world0
                 Toy.label5 Toy.midi5 Toy.beat5 0%nat) as (_ & Hodd & _);
      [reflexivity..|].
    apply Hodd; [by exists 1%nat|vm_compute; lia].
  - edestruct (X3_forward_hidden_width (espnet := Toy.espnet)
                 (ToyMore.self_width 0) Toy.args Toy.world0
                 Toy.label5 Toy.midi5 Toy.beat5 0%nat) as (H0 & _);
      [reflexivity..|].
    by apply H0.
Defined.

Lemma X4_witness :
  (forward (espnet := Toy.espnet) ToyMore.self_cond Toy.args Toy.world0).1 =
    Raise AttributeError ∧
  (inference (torch := Toy.torch) ToyMore.self_cond (ToyRun.inf_args false) 7%nat).1 =
    Raise AttributeError.
Proof.
  destruct (X4_speaker_ids_required (espnet := Toy.espnet) ToyMore.self_cond 3
              eq_refl) as [Hf Hi].
  split.
  - eapply (Hf Toy.args Toy.world0 Toy.label5 Toy.midi5 Toy.beat5 0%nat);
      reflexivity.
  - erewrite (Hi (ToyRun.inf_args false) 7%nat); reflexivity.
Defined.

Lemma X5_witness :
  ∃ g, global_conditioning (torch := Toy.torch) ToyMore.self_cond
         (Some ToyMore.sids2) (Ok ToyMore.spembs2) (Some ToyMore.lids2) 7%nat =
         (Ok (Some g), 7%nat) ∧
       shape3 g = (2, 2, 1)%nat ∧
       entry3 g 1 0 0 = Some 9.
Proof.
  edestruct (X5_global_conditioning_sum (torch := Toy.torch) ToyMore.self_cond
               3 2 2 (Embedding_call (Torch := Toy.torch) 3 2)
               (Linear_call (Torch := Toy.torch) 2 2)
               (Embedding_call (Torch := Toy.torch) 2 2)
               ToyMore.sids2 ToyMore.spembs2 ToyMore.lids2
               (T2 (2, 2)%nat [[0; 0]; [2; 2]])
               (T2 (2, 2)%nat [[3; 3]; [7; 7]])
               (T2 (2, 2)%nat [[1; 1]; [0; 0]])
               7%nat 7%nat 7%nat 7%nat 2%nat 2%nat)
    as (g & E & Sg & _ & Hent);
    [reflexivity..| | | | | | |].
  1-3: split; [reflexivity|repeat constructor].
  1-3: reflexivity.
  exists g. split; [exact E|]. split; [exact Sg|].
  apply (Hent 1%nat 0%nat 2 7 0); reflexivity.
Defined.

Lemma X6_witness :
  ∃ self,
    __init__ (espnet := Toy.espnet) ToyMore.cfg_single_speaker = Ok self ∧
    spks self = None ∧ global_emb self = None ∧
    spk_embed_dim self = None ∧ spemb_proj self = None ∧
    langs self = None ∧ lang_emb self = None ∧
    ∀ sids spembs_arg lids r,
      global_conditioning self sids spembs_arg lids r = (Ok None, r).
Proof.
  apply (X6_no_conditioning_without_features (espnet := Toy.espnet)
           ToyMore.cfg_single_speaker).
  - repeat split; intros n [= <-]; lia.
  - exact I.
  - exact I.
Defined.

Lemma X7_witness :
  ∃ self,
    __init__ (espnet := Toy.espnet) (ToyRun.cfg_speakers 8) = Ok self ∧
    paired (spks self) (global_emb self) (Some 3) 1
      (λ n, Embedding_call (Torch := Toy.torch) n 8) ∧
    paired (langs self) (lang_emb self) None 1
      (λ n, Embedding_call (Torch := Toy.torch) n 8).
Proof.
  eexists. split; [reflexivity|].
  destruct (X7_init_pairs_attribute_and_layer (espnet := Toy.espnet)
              (ToyRun.cfg_speakers 8) _ eq_refl) as (P1 & _ & P3 & _).
  split; [exact P1|exact P3].
Defined.

Lemma X8_witness :
  ∃ self,
    __init__ (espnet := Toy.espnet)
      (ToyMore.cfg_scales [4294967296; 4294967296]) = Ok self ∧
    list_prod [4294967296; 4294967296] = 2 ^ 64 ∧
    upsample_factor self mod 2 ^ 64 = 0 ∧
    - 2 ^ 63 ≤ upsample_factor self < 2 ^ 63.
Proof.
  eexists. split; [reflexivity|]. split; [reflexivity|].
  destruct (X8_upsample_factor_wraps (espnet := Toy.espnet)
              (ToyMore.cfg_scales [4294967296; 4294967296]) _ eq_refl)
    as (Hr & Hm & _).
  { repeat constructor; cbn; lia. }
  split; [exact Hm|exact Hr].
Defined.

Lemma X10_witness :
  ∃ w1,
    forward (espnet := Toy.espnet) Toy.self
      (ToyMore.args_streams ToyMore.label20 ToyMore.midi20 ToyMore.beat20)
      Toy.world0 =
    forward_tail (espnet := Toy.espnet) Toy.self
      (ToyMore.args_streams ToyMore.label20 ToyMore.midi20 ToyMore.beat20)
      ToyMore.label20 ToyMore.midi20 ToyMore.beat20 w1 ∧
    rng w1 = 7%nat ∧ ∀ l', heap w1 l' = Toy.heap0 l'.
Proof.
  apply (X10_aligned_streams_unchanged (espnet := Toy.espnet) Toy.self
           (ToyMore.args_streams ToyMore.label20 ToyMore.midi20 ToyMore.beat20)
           Toy.world0 ToyMore.label20 ToyMore.midi20 ToyMore.beat20 0%nat);
    try reflexivity; (split; [reflexivity|repeat constructor]).
Defined.

Lemma X11_witness :
  ∃ w1,
    forward (espnet := Toy.espnet) Toy.self
      (ToyMore.args_streams ToyMore.label20 Toy.midi5 Toy.beat5) Toy.world0 =
    forward_tail (espnet := Toy.espnet) Toy.self
      (ToyMore.args_streams ToyMore.label20 Toy.midi5 Toy.beat5)
      (slice_cols ToyMore.label20 20) Toy.midi5 (slice_cols Toy.beat5 20) w1 ∧
    shape2_1 (slice_cols ToyMore.label20 20) = 20%nat ∧
    (shape2_1 Toy.midi5 < 20)%nat.
Proof.
  apply (X11_narrow_midi_not_padded (espnet := Toy.espnet) Toy.self
           (ToyMore.args_streams ToyMore.label20 Toy.midi5 Toy.beat5)
           Toy.world0 ToyMore.label20 Toy.midi5 Toy.beat5 0%nat);
    try reflexivity; try (cbn; lia).
  split; [reflexivity|repeat constructor].
Defined.

Lemma X12_witness :
  ∃ out,
    _generate_path ToyMore.dur_negative ToyMore.mask_open_closed = Ok out ∧
    shape4 out = (1, 2, 4, 3)%nat ∧
    entry4 out 0 0 1 0 = Some 1 ∧
    entry4 out 0 0 2 1 = Some (-1) ∧
    entry4 out 0 1 1 0 = Some 0.
Proof.
  destruct (X12_generate_path_masked ToyMore.dur_negative
              ToyMore.mask_open_closed 1 2 4 3)
    as (out & E & So & Hval & Hzero).
  - split; [reflexivity|repeat constructor].
  - reflexivity.
  - split; [reflexivity|repeat constructor].
  - reflexivity.
  - exists out. split; [exact E|]. split; [exact So|].
    split; [|split].
    + exact (Hval 0%nat 0%nat 1%nat 0%nat [3; -1; 2] 1 eq_refl eq_refl).
    + exact (Hval 0%nat 0%nat 2%nat 1%nat [3; -1; 2] 1 eq_refl eq_refl).
    + apply Hzero; [lia|reflexivity].
Defined.

Lemma X13_witness :
  ∃ path,
    path_before_mask ToyMore.dur_negative 1 4 3 = Ok path ∧
    (∀ k i j v, entry3 path k i j = Some v → v = -1 ∨ v = 0 ∨ v = 1) ∧
    entry3 path 0 1 2 = Some (-1) ∧
    entry3 path 0 2 2 = Some 1.
Proof.
  destruct (X13_path_of_any_durations ToyMore.dur_negative 1 4 3)
    as (path & E & Hv & Hent).
  - split; [reflexivity|repeat constructor].
  - reflexivity.
  - exists path. split; [exact E|]. split; [exact Hv|]. split.
    + apply (Hent 0%nat [3; -1; 2] 1%nat (-1) 2%nat eq_refl eq_refl); [lia|].
      unfold cum. cbn. lia.
    + apply (Hent 0%nat [3; -1; 2] 2%nat 2 2%nat eq_refl eq_refl); [lia|].
      unfold cum. cbn. lia.
Defined.

Lemma X14_witness :
  ∃ path,
    path_before_mask ToyMore.dur_long 1 5 3 = Ok path ∧
    shape3 path = (1, 3, 5)%nat ∧
    wf3 path ∧
    (∃ row, row3 path 0 1 = Some row ∧ length row = 5%nat ∧
            Z.of_nat (count_ones row) = 2) ∧
    (∃ row, row3 path 0 2 = Some row ∧ length row = 5%nat ∧
            Z.of_nat (count_ones row) = 1).
Proof.
  destruct (X14_rows_cut_at_last_frame ToyMore.dur_long 1 5 3)
    as (path & E & Sp & Wp & Hrows).
  - split; [reflexivity|repeat constructor].
  - reflexivity.
  - intros k d Hk. destruct k as [|k]; [|destruct k; discriminate Hk].
    injection Hk as <-. repeat constructor; discriminate.
  - exists path. split; [exact E|]. split; [exact Sp|]. split; [exact Wp|].
    split.
    + destruct (Hrows 0%nat [2; 2; 3] 1%nat 2 eq_refl eq_refl)
        as (row & Hr & Hl & Hc & _).
      exists row. split; [exact Hr|]. split; [exact Hl|exact Hc].
    + destruct (Hrows 0%nat [2; 2; 3] 2%nat 3 eq_refl eq_refl)
        as (row & Hr & Hl & Hc & _).
      exists row. split; [exact Hr|]. split; [exact Hl|exact Hc].
Defined.

Lemma X15_witness :
  ∃ path,
    path_before_mask ToyRun.dur3 1 7 3 = Ok path ∧
    (∃ i, entry3 path 0 i 3 = Some 1 ∧
          ∀ i', entry3 path 0 i' 3 = Some 1 → i' = i) ∧
    (∀ i v, entry3 path 0 i 6 = Some v → v = 0).
Proof.
  destruct (X15_frames_covered_once ToyRun.dur3 1 7 3)
    as (path & E & Hcov).
  - split; [reflexivity|repeat constructor].
  - reflexivity.
  - intros k d Hk. destruct k as [|k]; [|destruct k; discriminate Hk].
    injection Hk as <-. repeat constructor; discriminate.
  - exists path. split; [exact E|]. split.
    + apply (Hcov 0%nat [2; 2; 1] 3%nat eq_refl); [lia|reflexivity].
    + apply (Hcov 0%nat [2; 2; 1] 6%nat eq_refl); [lia|discriminate].
Defined.

Lemma X16_witness :
  is_Ok (_generate_path ToyMore.dur_column ToyMore.mask_open_closed) ∧
  _generate_path ToyMore.dur_short ToyMore.mask_open_closed =
    Raise RuntimeError.
Proof.
  split.
  - apply (X16_generate_path_checks_entry_count ToyMore.dur_column
             ToyMore.mask_open_closed 1 2 4 3); reflexivity.
  - apply (X16_generate_path_checks_entry_count ToyMore.dur_short
             ToyMore.mask_open_closed 1 2 4 3); [reflexivity|].
    cbn. lia.
Defined.

Lemma X17_witness :
  inference (torch := Toy.torch) Toy.self
    (with_max_len (ToyRun.inf_args false) (Some 9)) 7%nat =
  inference (torch := Toy.torch) Toy.self
    (with_max_len (ToyRun.inf_args false) None) 7%nat ∧
  inference (torch := Toy.torch) Toy.self
    (with_max_len (ToyRun.inf_args false) (Some (-2))) 7%nat =
  inference (torch := Toy.torch) Toy.self
    (with_max_len (ToyRun.inf_args false) (Some 3)) 7%nat ∧
  ∃ cut r4,
    inference (torch := Toy.torch) Toy.self
      (with_max_len (ToyRun.inf_args false) (Some (-2))) 7%nat =
      (wav ← decoder Toy.self cut None;
       mret (PyTuple [ PyTensor (squeeze1 wav); PyNone; PyNone ])) r4 ∧
    wf3 cut ∧ size3_2 cut = 3%nat ∧
    entry3 cut 0 0 2 = Some 117 ∧ entry3 cut 0 0 3 = None.
Proof.
  edestruct (X17_max_len_is_a_slice_stop (torch := Toy.torch) Toy.self
               (ToyRun.inf_args false) 7%nat) as (Hcut & Hbig & Hneg & _);
    [reflexivity..| | |].
  1-2: vm_compute; split; [reflexivity|repeat constructor].
  split; [|split].
  - apply Hbig. by vm_compute.
  - exact (proj2 (proj2 (Hneg 2 eq_refl))).
  - destruct (Hcut (Some (-2))) as (E & Wc & _ & _ & _ & Hnone).
    eexists _, _. split; [exact E|]. split; [exact Wc|].
    split; [reflexivity|]. split; [reflexivity|]. apply Hnone. vm_compute. lia.
Defined.

